(** * database-mcp: SQL safety validator, tool registry and chat orchestration

    A shallow embedding of [src/utils/validator.ts], [src/mcp/tools.ts],
    [src/semantic/index.ts] and [src/orchestration/chat.ts], with the
    properties the specification states about them.

    Conventions of the embedding:
    - a JavaScript string is the list of its UTF-16 code units ([str]);
    - a value of TypeScript type [any] (tool parameters, tool results,
      decoded JSON) is a [jsval]; its numbers are integers;
    - a [throw] is the outcome [Thrown message], where [message] is the
      [message] property of the thrown [Error];
    - an object with mutable fields is a record, and a method is a function
      from the record to an outcome and the updated record; [async] code
      is sequential, so [await] is plain sequencing;
    - the regular expressions of the source are terms of [Regex.regex],
      run by a backtracking matcher and given a meaning by [Regex.matches];
    - what the code gets from outside is a parameter: the SQL parser
      ([Validator.SqlParser]), the database provider
      ([Registry.IDatabaseProvider]), the LLM client ([Chat.LLMClient]) and
      a few built-ins ([Builtins]).  The syntax tree that the parser returns
      is typed after the declarations of node-sql-parser. *)

From Stdlib Require Import List NArith ZArith Bool Arith Lia String Ascii.
Import ListNotations.

Set Implicit Arguments.

(* ================================================================== *)
(** * JavaScript strings *)
(* ================================================================== *)

Module JsString.

(** A string is its sequence of UTF-16 code units. *)
Definition str := list N.

(** ASCII literals of the source text. *)
Definition lit (s : string) : str :=
  List.map N_of_ascii (list_ascii_of_string s).

Fixpoint str_eqb (a b : str) : bool :=
  match a, b with
  | [], [] => true
  | x :: a', y :: b' => N.eqb x y && str_eqb a' b'
  | _, _ => false
  end.

(** [WhiteSpace] and [LineTerminator] of ECMA-262: what the pattern [\s]
    matches and what [String.prototype.trim] strips. *)
Definition is_space (c : N) : bool :=
  ((9 <=? c) && (c <=? 13) || (c =? 32) || (c =? 160) || (c =? 5760)
   || (8192 <=? c) && (c <=? 8202) || (c =? 8232) || (c =? 8233)
   || (c =? 8239) || (c =? 8287) || (c =? 12288) || (c =? 65279))%N.

(** The pattern [\d]. *)
Definition is_digit (c : N) : bool := ((48 <=? c) && (c <=? 57))%N.

Definition is_upper (c : N) : bool := ((65 <=? c) && (c <=? 90))%N.
Definition is_lower (c : N) : bool := ((97 <=? c) && (c <=? 122))%N.

(** The pattern [\w]: ASCII letters, digits and the underscore. *)
Definition is_word (c : N) : bool :=
  is_upper c || is_lower c || is_digit c || (c =? 95)%N.

(** [Canonicalize] of a regular expression with the [i] flag and without
    the [u] flag, on the comparisons this development needs: against an
    ASCII pattern character.  A code unit of 128 or more never
    canonicalizes to an ASCII one, so it is left as it is. *)
Definition canonicalize (c : N) : N :=
  if is_lower c then (c - 32)%N else c.

Fixpoint dropWhile (p : N -> bool) (s : str) : str :=
  match s with
  | [] => []
  | c :: s' => if p c then dropWhile p s' else s
  end.

Definition trimStart (s : str) : str := dropWhile is_space s.
Definition trimEnd (s : str) : str := rev (dropWhile is_space (rev s)).

(** [String.prototype.trim]. *)
Definition trim (s : str) : str := trimEnd (trimStart s).

(** [Array.prototype.join] on an array of strings. *)
Fixpoint join (sep : str) (parts : list str) : str :=
  match parts with
  | [] => []
  | [p] => p
  | p :: rest => p ++ sep ++ join sep rest
  end.

(** [Array.prototype.includes] on an array of strings. *)
Definition includes (l : list str) (x : str) : bool :=
  existsb (str_eqb x) l.
Arguments includes : simpl never.

(** Decimal digits of a positive number, least significant last. *)
Fixpoint digits_fuel (fuel : nat) (n : N) (acc : str) : str :=
  match fuel with
  | O => acc
  | S f =>
      let acc' := (48 + n mod 10)%N :: acc in
      if (n / 10 =? 0)%N then acc' else digits_fuel f (n / 10)%N acc'
  end.

Definition digits (n : N) : str := digits_fuel (S (N.to_nat (N.log2 n))) n [].

End JsString.
Import JsString.

(* ================================================================== *)
(** * Regular expressions *)
(* ================================================================== *)

(** The fragment of ECMAScript patterns the validator uses, and the
    meaning of [RegExp.prototype.test] (and of the truthiness of
    [String.prototype.match]) for a pattern without the [g] and [y]
    flags: some position of the input starts a match. *)
Module Regex.

Inductive regex : Type :=
| Eps                         (* the empty pattern *)
| Chr (c : N)                 (* a pattern character *)
| Space                       (* \s *)
| Digit                       (* \d *)
| Word                        (* \w *)
| Seq (r1 r2 : regex)         (* r1 r2 *)
| Alt (r1 r2 : regex)         (* r1|r2 *)
| Star (r : regex)            (* r* *)
| Plus (r : regex)            (* r+ *)
| Opt (r : regex)             (* r? *)
| Bol                         (* ^ without the m flag *)
| Eol.                        (* $ without the m flag *)

(** A run of pattern characters, one [Chr] per character. *)
Fixpoint chars (s : str) : regex :=
  match s with
  | [] => Eps
  | c :: s' => Seq (Chr c) (chars s')
  end.

(** A sequence of patterns, one after the other. *)
Fixpoint cat (rs : list regex) : regex :=
  match rs with
  | [] => Eps
  | [r] => r
  | r :: rs' => Seq r (cat rs')
  end.

Section Matcher.

(** The [i] flag of the pattern. *)
Variable ignoreCase : bool.

Definition chr_matches (c x : N) : bool :=
  if ignoreCase then (canonicalize c =? canonicalize x)%N else (c =? x)%N.

Definition one (p : N -> bool) (i : nat) (s : str)
    (k : nat -> str -> bool) : bool :=
  match s with
  | x :: s' => p x && k (S i) s'
  | [] => false
  end.

(** Iteration of a matcher [m]; an iteration that consumes nothing is
    rejected, as in the RepeatMatcher of ECMA-262. *)
Fixpoint repeat_from (m : nat -> str -> (nat -> str -> bool) -> bool)
    (fuel : nat) (i : nat) (s : str) (k : nat -> str -> bool) : bool :=
  match fuel with
  | O => k i s
  | S f =>
      m i s (fun j s' =>
               (List.length s' <? List.length s) && repeat_from m f j s' k)
      || k i s
  end.

(** Backtracking matcher in continuation-passing style: [rmatch r i s k]
    holds when [r] matches a prefix of [s], which starts at index [i] of
    the input, and [k] accepts what follows. *)
Fixpoint rmatch (r : regex) (i : nat) (s : str)
    (k : nat -> str -> bool) {struct r} : bool :=
  match r with
  | Eps => k i s
  | Chr c => one (chr_matches c) i s k
  | Space => one is_space i s k
  | Digit => one is_digit i s k
  | Word => one is_word i s k
  | Seq r1 r2 => rmatch r1 i s (fun j s' => rmatch r2 j s' k)
  | Alt r1 r2 => rmatch r1 i s k || rmatch r2 i s k
  | Star r' => repeat_from (rmatch r') (List.length s) i s k
  | Plus r' =>
      rmatch r' i s (fun j s' => repeat_from (rmatch r') (List.length s') j s' k)
  | Opt r' => rmatch r' i s k || k i s
  | Bol => (i =? 0) && k i s
  | Eol => match s with [] => k i s | _ => false end
  end.

Fixpoint search (r : regex) (i : nat) (s : str) : bool :=
  rmatch r i s (fun _ _ => true)
  || match s with
     | [] => false
     | _ :: s' => search r (S i) s'
     end.

(** [r.test(s)], and the truthiness of [s.match(r)]. *)
Definition test (r : regex) (s : str) : bool := search r 0 s.

(** What a pattern matches: [matches r i w rest] when [r] matches the
    text [w] which starts at index [i] of the input and is followed by
    [rest]. *)
Inductive matches : regex -> nat -> str -> str -> Prop :=
| MEps i rest : matches Eps i [] rest
| MChr c x i rest : chr_matches c x = true -> matches (Chr c) i [x] rest
| MSpace x i rest : is_space x = true -> matches Space i [x] rest
| MDigit x i rest : is_digit x = true -> matches Digit i [x] rest
| MWord x i rest : is_word x = true -> matches Word i [x] rest
| MSeq r1 r2 i w1 w2 rest :
    matches r1 i w1 (w2 ++ rest) ->
    matches r2 (i + List.length w1) w2 rest ->
    matches (Seq r1 r2) i (w1 ++ w2) rest
| MAltL r1 r2 i w rest : matches r1 i w rest -> matches (Alt r1 r2) i w rest
| MAltR r1 r2 i w rest : matches r2 i w rest -> matches (Alt r1 r2) i w rest
| MStarNil r i rest : matches (Star r) i [] rest
| MStarCons r i w1 w2 rest :
    w1 <> [] ->
    matches r i w1 (w2 ++ rest) ->
    matches (Star r) (i + List.length w1) w2 rest ->
    matches (Star r) i (w1 ++ w2) rest
| MPlus r i w1 w2 rest :
    matches r i w1 (w2 ++ rest) ->
    matches (Star r) (i + List.length w1) w2 rest ->
    matches (Plus r) i (w1 ++ w2) rest
| MOptSome r i w rest : matches r i w rest -> matches (Opt r) i w rest
| MOptNone r i rest : matches (Opt r) i [] rest
| MBol rest : matches Bol 0 [] rest
| MEol i : matches Eol i [] [].

(** The text [s] matches the pattern [r]: some part of it does. *)
Definition text_matches (r : regex) (s : str) : Prop :=
  exists before w after,
    s = before ++ w ++ after /\ matches r (List.length before) w after.

(** What a continuation-passing matcher [m] for [r] has to satisfy. *)
Definition sound_complete (r : regex)
    (m : nat -> str -> (nat -> str -> bool) -> bool) : Prop :=
  forall i s k,
    m i s k = true <->
    exists w rest, s = w ++ rest /\ matches r i w rest
                   /\ k (i + List.length w) rest = true.

End Matcher.

(** The set of code units of a character class. *)
Definition class_of (r : regex) : option (N -> bool) :=
  match r with
  | Space => Some is_space
  | Digit => Some is_digit
  | Word => Some is_word
  | _ => None
  end.

(** [text] spells [pattern], letter case aside. *)
Definition same_letters (pattern text : str) : Prop :=
  Forall2 (fun c x => canonicalize c = canonicalize x) pattern text.

(** [text] is made of code units of the set [p]. *)
Definition all_in (p : N -> bool) (text : str) : Prop :=
  forallb p text = true.

End Regex.

(* ================================================================== *)
(** * Values, outcomes and the capabilities of the environment *)
(* ================================================================== *)

(** The result of running a piece of code: it returns, or it throws an
    [Error] with the given [message]. *)
Inductive Outcome (A : Type) : Type :=
| Returned (a : A)
| Thrown (message : str).
Arguments Thrown {A} message.

Definition obind {A B : Type} (c : Outcome A) (k : A -> Outcome B) : Outcome B :=
  match c with
  | Returned a => k a
  | Thrown m => Thrown m
  end.

(** [try { body } catch (error) { handler(error.message) }]. *)
Definition try_catch {A : Type} (body : Outcome A) (handler : str -> Outcome A)
    : Outcome A :=
  match body with
  | Returned a => Returned a
  | Thrown m => handler m
  end.

Declare Scope outcome_scope.
Delimit Scope outcome_scope with outcome.
Notation "'let!' x ':=' c 'in' k" := (obind c (fun x => k))
  (at level 10, x name, c at level 100, k at level 200) : outcome_scope.
Open Scope outcome_scope.

(** A value of type [any], as [JSON.parse] produces them, and [undefined].
    Numbers are restricted to the integers of magnitude below 10^21, which
    Number::toString prints as plain decimal numerals. *)
#[warnings="-register-all"]
Inductive jsval : Type :=
| VUndefined
| VNull
| VBool (b : bool)
| VNum (n : Z)
| VStr (s : str)
| VArr (items : list jsval)
| VObj (props : list (str * jsval)).

(** ToBoolean. *)
Definition truthy (v : jsval) : bool :=
  match v with
  | VUndefined | VNull => false
  | VBool b => b
  | VNum n => negb (n =? 0)%Z
  | VStr s => match s with [] => false | _ => true end
  | VArr _ | VObj _ => true
  end.

Fixpoint lookup (key : str) (props : list (str * jsval)) : jsval :=
  match props with
  | [] => VUndefined
  | (k, v) :: rest => if str_eqb key k then v else lookup key rest
  end.

(** Number::toString on an integer of magnitude below 10^21, the numbers
    of [jsval]: from 10^21 on JavaScript prints the exponent form, which
    is not modelled. *)
Definition Number_toString (n : Z) : str :=
  match n with
  | Z0 => lit "0"
  | Zpos p => digits (Npos p)
  | Zneg p => lit "-" ++ digits (Npos p)
  end.

(** ToString, as a template literal applies it to an interpolated value. *)
Fixpoint ToString (v : jsval) : str :=
  match v with
  | VUndefined => lit "undefined"
  | VNull => lit "null"
  | VBool true => lit "true"
  | VBool false => lit "false"
  | VNum n => Number_toString n
  | VStr s => s
  | VArr items =>
      join (lit ",")
        (List.map (fun x => match x with
                            | VUndefined | VNull => []
                            | _ => ToString x
                            end) items)
  | VObj _ => lit "[object Object]"
  end.

(** What the JavaScript engine and its standard library provide and this
    development leaves open. *)
Class Builtins : Type := {
  (** [String.prototype.toLowerCase] *)
  toLowerCase : str -> str;
  (** [JSON.parse]: throws a SyntaxError on malformed text *)
  JSON_parse : str -> Outcome jsval;
  (** [JSON.stringify(value)] *)
  JSON_stringify : jsval -> str;
  (** [JSON.stringify(value, null, 2)] *)
  JSON_stringify_indent : jsval -> str;
  (** the message of the TypeError raised when property [key] is read
      from, or called on, the value [receiver] that does not have it *)
  TypeError_message : jsval -> str -> str
}.

Section Properties.
Context {B : Builtins}.

(** [receiver.key], for the keys that the source reads; none of them is
    defined by a built-in prototype. *)
Definition prop (receiver : jsval) (key : str) : Outcome jsval :=
  match receiver with
  | VUndefined | VNull => Thrown (TypeError_message receiver key)
  | VObj props => Returned (lookup key props)
  | _ => Returned VUndefined
  end.

(** [receiver.match(pattern)], as a truth value; the pattern has the
    [i] flag. *)
Definition string_match (receiver : jsval) (pattern : Regex.regex)
    : Outcome bool :=
  match receiver with
  | VStr s => Returned (Regex.test true pattern s)
  | _ => Thrown (TypeError_message receiver (lit "match"))
  end.

(** [receiver.trim()] *)
Definition string_trim (receiver : jsval) : Outcome str :=
  match receiver with
  | VStr s => Returned (trim s)
  | _ => Thrown (TypeError_message receiver (lit "trim"))
  end.

End Properties.

(* ================================================================== *)
(** * The SQL validator ([src/utils/validator.ts]) *)
(* ================================================================== *)

Module Validator.

(** ** The syntax tree of node-sql-parser, as far as the validator reads it *)

(** An entry of a FROM list: [{db, table, as, ...}].  [table] is absent
    ([None]) for a sub-query or an expression. *)
Record TableRef : Type := {
  ref_table : option str;
  ref_as : option str
}.

(** What a [table] or a [from] property holds: one reference, or an
    array of them. *)
Inductive Node : Type :=
| Obj (r : TableRef)
| Arr (items : list TableRef).

Record Into : Type := { into_table : option str }.

Record Statement : Type := {
  stmt_type : option str;
  stmt_from : option (list Node);
  stmt_into : option Into;
  stmt_table : option Node
}.

(** [parser.astify] returns one statement or an array of statements; a
    statement may be [null]. *)
Inductive Ast : Type :=
| Single (stmt : option Statement)
| Multiple (stmts : list (option Statement)).

(** The SQL parser capability, [Parser.astify] of node-sql-parser: it
    throws on text it cannot parse. *)
Class SqlParser : Type := {
  astify : jsval -> Outcome Ast
}.

Record SQLAnalysis : Type := {
  isValid : bool;
  isReadOnly : bool;
  type : str;
  tables : list str;
  errors : list str;
  warnings : list str
}.

Record Validation : Type := {
  safe : bool;
  reason : option str
}.

(** Truthiness of an optional string property. *)
Definition present (o : option str) : bool :=
  match o with
  | Some (_ :: _) => true
  | _ => false
  end.

Definition text_of (o : option str) : str :=
  match o with
  | Some s => s
  | None => []
  end.

(** The kind of a statement, and whether [analyzeStatement] goes past
    its guard [if (!stmt || !stmt.type) return]. *)
Definition kind (stmt : Statement) : str := text_of (stmt_type stmt).

Definition has_kind (stmt : option Statement) : bool :=
  match stmt with
  | Some stmt => present (stmt_type stmt)
  | None => false
  end.

(** [node.table]: an array has no such property. *)
Definition node_table (n : Node) : option str :=
  match n with
  | Obj r => ref_table r
  | Arr _ => None
  end.

(** [result.isValid = b] *)
Definition set_isValid (b : bool) (result : SQLAnalysis) : SQLAnalysis :=
  {| isValid := b;
     isReadOnly := isReadOnly result;
     type := type result;
     tables := tables result;
     errors := errors result;
     warnings := warnings result |}.

(** [result.warnings.push(w)] *)
Definition push_warning (w : str) (result : SQLAnalysis) : SQLAnalysis :=
  {| isValid := isValid result;
     isReadOnly := isReadOnly result;
     type := type result;
     tables := tables result;
     errors := errors result;
     warnings := warnings result ++ [w] |}.

(** [result.errors.push(e)] *)
Definition push_error (e : str) (result : SQLAnalysis) : SQLAnalysis :=
  {| isValid := isValid result;
     isReadOnly := isReadOnly result;
     type := type result;
     tables := tables result;
     errors := errors result ++ [e];
     warnings := warnings result |}.

Definition writeOperations : list str :=
  [lit "insert"; lit "update"; lit "delete"; lit "create"; lit "drop";
   lit "alter"; lit "truncate"].

(** A write classification goes with a lowered read-only flag. *)
Definition write_is_flagged (result : SQLAnalysis) : Prop :=
  includes writeOperations (type result) = true -> isReadOnly result = false.

(** The default value of the parameter [limit] of [addLimit]. *)
Definition default_limit (limit : jsval) : jsval :=
  match limit with VUndefined => VNum 1000 | _ => limit end.

(** [/;\s*(DROP|TRUNCATE|DELETE\s+FROM\s+\w+\s*;?\s*$)/i] *)
Definition dangerous_pattern : Regex.regex :=
  let ws := Regex.Star Regex.Space in
  let ws1 := Regex.Plus Regex.Space in
  let semicolon := Regex.Chr 59 in
  Regex.cat
    [semicolon; ws;
     Regex.Alt (Regex.chars (lit "DROP"))
       (Regex.Alt (Regex.chars (lit "TRUNCATE"))
          (Regex.cat
             [Regex.chars (lit "DELETE"); ws1; Regex.chars (lit "FROM"); ws1;
              Regex.Plus Regex.Word; ws; Regex.Opt semicolon; ws; Regex.Eol]))].

(** [/LIMIT\s+\d+/i] *)
Definition limit_pattern : Regex.regex :=
  Regex.cat
    [Regex.chars (lit "LIMIT"); Regex.Plus Regex.Space; Regex.Plus Regex.Digit].

(** [/^SELECT/i] *)
Definition select_pattern : Regex.regex :=
  Regex.cat [Regex.Bol; Regex.chars (lit "SELECT")].

(** ** The three patterns, spelled out *)

(** Somewhere in the text: LIMIT, white space, a digit.  (Digits and
    anything else may follow.) *)
Definition has_limit_clause (s : str) : Prop :=
  exists before kw ws ds after,
    s = before ++ kw ++ ws ++ ds ++ after
    /\ Regex.same_letters (lit "LIMIT") kw
    /\ ws <> [] /\ Regex.all_in is_space ws
    /\ ds <> [] /\ Regex.all_in is_digit ds.

(** The text begins with the word [keyword], letter case aside. *)
Definition starts_with (keyword : str) (s : str) : Prop :=
  exists kw after, s = kw ++ after /\ Regex.same_letters keyword kw.

(** DELETE FROM <identifier>, an optional semicolon, and nothing more up
    to the end of the text. *)
Definition delete_from_to_end (s : str) : Prop :=
  exists kw1 ws1 kw2 ws2 ident ws3 semi ws4,
    s = kw1 ++ ws1 ++ kw2 ++ ws2 ++ ident ++ ws3 ++ semi ++ ws4
    /\ Regex.same_letters (lit "DELETE") kw1
    /\ ws1 <> [] /\ Regex.all_in is_space ws1
    /\ Regex.same_letters (lit "FROM") kw2
    /\ ws2 <> [] /\ Regex.all_in is_space ws2
    /\ ident <> [] /\ Regex.all_in is_word ident
    /\ Regex.all_in is_space ws3
    /\ (semi = [] \/ semi = [59%N])
    /\ Regex.all_in is_space ws4.

(** A stacked statement: after a semicolon and white space, the text goes
    on with DROP, with TRUNCATE, or with a DELETE FROM that runs to the end
    of the text. *)
Definition has_stacked_statement (s : str) : Prop :=
  exists before ws tail,
    s = before ++ [59%N] ++ ws ++ tail
    /\ Regex.all_in is_space ws
    /\ (starts_with (lit "DROP") tail
        \/ starts_with (lit "TRUNCATE") tail
        \/ delete_from_to_end tail).

Section WithParser.
Context {B : Builtins} {P : SqlParser}.

(** [extractTables(from, tables)]: pushes the [table] of every entry
    that has one. *)
Fixpoint extractTables (from : list Node) (tables : list str) : list str :=
  match from with
  | [] => tables
  | item :: rest =>
      let tables :=
        if present (node_table item)
        then tables ++ [text_of (node_table item)]
        else tables in
      extractTables rest tables
  end.

(** [analyzeStatement(stmt, result)]; the mutation of [result] is the
    returned record. *)
Definition analyzeStatement (stmt : option Statement) (result : SQLAnalysis)
    : SQLAnalysis :=
  match stmt with
  | None => result
  | Some stmt =>
      if negb (present (stmt_type stmt)) then result else
      let ty := toLowerCase (text_of (stmt_type stmt)) in
      let isReadOnly' :=
        if includes writeOperations ty then false else isReadOnly result in
      let tables1 :=
        match stmt_from stmt with
        | Some from => extractTables from (tables result)
        | None => tables result
        end in
      let tables2 :=
        match stmt_into stmt with
        | Some into =>
            if present (into_table into)
            then tables1 ++ [text_of (into_table into)]
            else tables1
        | None => tables1
        end in
      let tables3 :=
        match stmt_table stmt with
        | Some t => extractTables [t] tables2
        | None => tables2
        end in
      {| isValid := isValid result;
         isReadOnly := isReadOnly';
         type := ty;
         tables := tables3;
         errors := errors result;
         warnings := warnings result |}
  end.

(** The loop [for (const stmt of ast) this.analyzeStatement(stmt, result)]. *)
Fixpoint analyzeStatements (stmts : list (option Statement))
    (result : SQLAnalysis) : SQLAnalysis :=
  match stmts with
  | [] => result
  | stmt :: rest => analyzeStatements rest (analyzeStatement stmt result)
  end.

Definition initial_result : SQLAnalysis :=
  {| isValid := false;
     isReadOnly := true;
     type := lit "unknown";
     tables := [];
     errors := [];
     warnings := [] |}.

(** [analyze(sql)].  The [try] block is the first argument of
    [try_catch]; [parser.astify] throws before [result] is touched, so the
    handler pushes its error onto the initial record.  On a typed syntax
    tree nothing else in the block throws. *)
Definition analyze (sql : jsval) : Outcome SQLAnalysis :=
  let result := initial_result in
  try_catch
    (let! ast := astify sql in
     let result := set_isValid true result in
     match ast with
     | Multiple stmts =>
         let result := push_warning (lit "Multiple statements detected") result in
         Returned (analyzeStatements stmts result)
     | Single stmt => Returned (analyzeStatement stmt result)
     end)
    (fun message =>
       Returned (push_error (lit "Parse error: " ++ message) result)).

(** [validateSafe(sql, readOnlyMode)]; every caller passes the mode. *)
Definition validateSafe (sql : jsval) (readOnlyMode : bool)
    : Outcome Validation :=
  let! analysis := analyze sql in
  if negb (isValid analysis) then
    Returned {| safe := false;
                reason := Some (join (lit "; ") (errors analysis)) |}
  else if readOnlyMode && negb (isReadOnly analysis) then
    Returned {| safe := false;
                reason := Some (lit "Write operations not allowed in read-only mode") |}
  else
    let! dangerous := string_match sql dangerous_pattern in
    if dangerous then
      Returned {| safe := false;
                  reason := Some (lit "Potentially dangerous operation detected") |}
    else
      Returned {| safe := true; reason := None |}.

(** [addLimit(sql, limit = 1000)]: the default applies when [limit] is
    [undefined]. *)
Definition addLimit (sql : jsval) (limit : jsval) : Outcome jsval :=
  let limit := default_limit limit in
  let! trimmed := string_trim sql in
  if Regex.test true limit_pattern trimmed then
    Returned sql
  else if Regex.test true select_pattern trimmed then
    Returned (VStr (trimmed ++ lit " LIMIT " ++ ToString limit))
  else
    Returned sql.

End WithParser.

End Validator.

(* ================================================================== *)
(** * Stateful code *)
(* ================================================================== *)

(** A method that reads and updates the fields of an object of type [S]
    and returns an [A] or throws.  The state that a computation leaves
    behind is kept when it throws: a [catch] sees every mutation made
    before the [throw]. *)
Definition ST (S A : Type) : Type := S -> Outcome A * S.

Definition ret {S A : Type} (a : A) : ST S A := fun s => (Returned a, s).

Definition throw {S A : Type} (message : str) : ST S A :=
  fun s => (Thrown message, s).

Definition bind {S A B : Type} (c : ST S A) (k : A -> ST S B) : ST S B :=
  fun s =>
    match c s with
    | (Returned a, s') => k a s'
    | (Thrown m, s') => (Thrown m, s')
    end.

Definition get {S : Type} : ST S S := fun s => (Returned s, s).

Definition modify {S : Type} (f : S -> S) : ST S unit :=
  fun s => (Returned tt, f s).

(** A pure computation inside a stateful one. *)
Definition lift {S A : Type} (c : Outcome A) : ST S A := fun s => (c, s).

(** [try { body } catch (error) { handler(error.message) }] *)
Definition st_try_catch {S A : Type} (body : ST S A) (handler : str -> ST S A)
    : ST S A :=
  fun s =>
    match body s with
    | (Returned a, s') => (Returned a, s')
    | (Thrown m, s') => handler m s'
    end.

Declare Scope st_scope.
Delimit Scope st_scope with st.
Notation "x <- c ;; k" := (bind c (fun x => k))
  (at level 61, c at next level, right associativity) : st_scope.
Notation "c ;; k" := (bind c (fun _ => k))
  (at level 61, right associativity) : st_scope.
Open Scope st_scope.

(* ================================================================== *)
(** * Schema metadata and the semantic layer
      ([src/types.ts], [src/semantic/index.ts]) *)
(* ================================================================== *)

Module Semantic.

Record ColumnMetadata : Type := {
  column_name : str;
  column_type : str;
  nullable : bool;
  isPrimaryKey : bool;
  isForeignKey : bool
}.

(** The properties of a table object that the code reads, and the
    object itself ([table_value]), which [describe_table] returns. *)
Record TableMetadata : Type := {
  table_name : str;
  table_schema : option str;
  columns : list ColumnMetadata;
  table_value : jsval
}.

Record DatabaseMetadata : Type := {
  database_name : str;
  tables : list TableMetadata
}.

(** [t.schema ? `${t.schema}.${t.name}` : t.name] *)
Definition qualified_name (t : TableMetadata) : str :=
  match table_schema t with
  | Some (c :: s) => (c :: s) ++ lit "." ++ table_name t
  | _ => table_name t
  end.

Definition column_line (c : ColumnMetadata) : str :=
  let parts := [column_name c; column_type c] in
  let parts := if isPrimaryKey c then parts ++ [lit "PK"] else parts in
  let parts := if isForeignKey c then parts ++ [lit "FK"] else parts in
  let parts := if negb (nullable c) then parts ++ [lit "NOT NULL"] else parts in
  join (lit " ") parts.

(** [generateCompactSchema(metadata)] *)
Definition generateCompactSchema (metadata : DatabaseMetadata) : str :=
  let line (table : TableMetadata) :=
    qualified_name table ++ lit " ("
      ++ join (lit ", ") (List.map column_line (columns table)) ++ lit ")" in
  join [10%N] (List.map line (tables metadata)).

(** [generateTablesList(metadata)] *)
Definition generateTablesList (metadata : DatabaseMetadata) : list str :=
  List.map qualified_name (tables metadata).

Fixpoint startsWith (s prefix : str) : bool :=
  match prefix, s with
  | [], _ => true
  | p :: prefix', c :: s' => N.eqb p c && startsWith s' prefix'
  | _ :: _, [] => false
  end.

(** [s.endsWith(suffix)] *)
Definition endsWith (s suffix : str) : bool := startsWith (rev s) (rev suffix).

Section WithBuiltins.
Context {B : Builtins}.

(** The predicate that [findTable] hands to [Array.prototype.find]. *)
Definition table_matches (t : TableMetadata) (tableName : jsval) : Outcome bool :=
  match tableName with
  | VStr s =>
      Returned
        (str_eqb (table_name t) s
         || (match table_schema t with
             | Some (c :: sch) => str_eqb ((c :: sch) ++ lit "." ++ table_name t) s
             | _ => false
             end)
         || endsWith s (lit "." ++ table_name t))
  | _ => Thrown (TypeError_message tableName (lit "endsWith"))
  end.

Fixpoint find_first (l : list TableMetadata) (tableName : jsval)
    : Outcome (option TableMetadata) :=
  match l with
  | [] => Returned None
  | t :: rest =>
      let! hit := table_matches t tableName in
      if hit then Returned (Some t) else find_first rest tableName
  end.

(** [findTable(metadata, tableName)] *)
Definition findTable (metadata : DatabaseMetadata) (tableName : jsval)
    : Outcome (option TableMetadata) :=
  find_first (tables metadata) tableName.

End WithBuiltins.

End Semantic.

(* ================================================================== *)
(** * The tool registry ([src/mcp/tools.ts]) *)
(* ================================================================== *)

Module Registry.

Record QueryResult : Type := {
  rows : jsval;
  rowCount : jsval;
  fields : jsval
}.

(** The Database Provider capability ([src/providers/interface.ts]), over
    the state [D] of the connection. *)
Class IDatabaseProvider (D : Type) : Type := {
  listTables : jsval -> D -> Outcome (list str) * D;
  describeTable : jsval -> jsval -> D -> Outcome Semantic.TableMetadata * D;
  runQuery : jsval -> D -> Outcome QueryResult * D
}.

(** A capability of the provider being invoked. *)
Inductive Call : Type :=
| CallListTables (schema : jsval)
| CallDescribeTable (tableName schema : jsval)
| CallRunQuery (sql : jsval).

(** The mutable fields of an [MCPToolRegistry].  [calls] is a ghost
    field: the provider capabilities invoked so far, oldest first. *)
Record MCPToolRegistry (D : Type) : Type := {
  readOnlyMode : bool;
  metadata : option Semantic.DatabaseMetadata;
  provider : D;
  calls : list Call
}.

(** [parameters] of a tool; its [type] is always ['object']. *)
Record ParameterSchema : Type := {
  properties : list (str * jsval);
  required : list str
}.

Record MCPTool (D : Type) : Type := {
  name : str;
  description : str;
  parameters : ParameterSchema;
  handler : jsval -> ST (MCPToolRegistry D) jsval
}.

(** [Map.prototype.set] on a map kept in insertion order. *)
Fixpoint map_set {V : Type} (key : str) (v : V) (m : list (str * V))
    : list (str * V) :=
  match m with
  | [] => [(key, v)]
  | (k, v0) :: rest =>
      if str_eqb key k then (k, v) :: rest else (k, v0) :: map_set key v rest
  end.

(** [Map.prototype.get] *)
Fixpoint map_get {V : Type} (key : str) (m : list (str * V)) : option V :=
  match m with
  | [] => None
  | (k, v) :: rest => if str_eqb key k then Some v else map_get key rest
  end.

Section WithProvider.
Context {B : Builtins} {P : Validator.SqlParser}.
Context {D : Type} {DB : IDatabaseProvider D}.

Definition Handler (A : Type) : Type := ST (MCPToolRegistry D) A.

Definition setMetadata (m : Semantic.DatabaseMetadata) : Handler unit :=
  modify (fun r =>
    {| readOnlyMode := readOnlyMode r;
       metadata := Some m;
       provider := provider r;
       calls := calls r |}).

Definition setReadOnlyMode (readOnly : bool) : Handler unit :=
  modify (fun r =>
    {| readOnlyMode := readOnly;
       metadata := metadata r;
       provider := provider r;
       calls := calls r |}).

(** A call of a provider method [op]: recorded in [calls], then run on the
    connection. *)
Definition call_provider {A : Type} (c : Call) (op : D -> Outcome A * D)
    : Handler A :=
  fun r =>
    let (out, d') := op (provider r) in
    (out,
     {| readOnlyMode := readOnlyMode r;
        metadata := metadata r;
        provider := d';
        calls := calls r ++ [c] |}).

Definition string_param (text : string) : jsval :=
  VObj [(lit "type", VStr (lit "string")); (lit "description", VStr (lit text))].

Definition tables_result (tables : list str) : jsval :=
  VObj [(lit "tables", VArr (List.map VStr tables));
        (lit "count", VNum (Z.of_nat (List.length tables)))].

Definition list_tables : MCPTool D :=
  {| name := lit "list_tables";
     description := lit "List all tables in the database with their schemas";
     parameters :=
       {| properties :=
            [(lit "schema", string_param "Optional schema name to filter tables")];
          required := [] |};
     handler := fun params =>
       this <- get ;;
       match metadata this with
       | Some md => ret (tables_result (Semantic.generateTablesList md))
       | None =>
           schema <- lift (prop params (lit "schema")) ;;
           tables <- call_provider (CallListTables schema) (listTables schema) ;;
           ret (tables_result tables)
       end |}.

Definition describe_table : MCPTool D :=
  {| name := lit "describe_table";
     description := lit "Get detailed information about a table structure";
     parameters :=
       {| properties :=
            [(lit "table_name", string_param "Name of the table to describe");
             (lit "schema", string_param "Schema name (optional)")];
          required := [lit "table_name"] |};
     handler := fun params =>
       this <- get ;;
       cached <-
         match metadata this with
         | Some md =>
             table_name <- lift (prop params (lit "table_name")) ;;
             lift (Semantic.findTable md table_name)
         | None => ret None
         end ;;
       match cached with
       | Some table => ret (Semantic.table_value table)
       | None =>
           table_name <- lift (prop params (lit "table_name")) ;;
           schema <- lift (prop params (lit "schema")) ;;
           table <- call_provider (CallDescribeTable table_name schema)
                      (describeTable table_name schema) ;;
           ret (Semantic.table_value table)
       end |}.

Definition generate_sql : MCPTool D :=
  {| name := lit "generate_sql";
     description := lit "Generate SQL query based on natural language description";
     parameters :=
       {| properties :=
            [(lit "description",
              string_param "Natural language description of what to query");
             (lit "tables",
              VObj [(lit "type", VStr (lit "array"));
                    (lit "items", VObj [(lit "type", VStr (lit "string"))]);
                    (lit "description", VStr (lit "Tables involved in the query"))])];
          required := [lit "description"] |};
     handler := fun params =>
       description <- lift (prop params (lit "description")) ;;
       tables <- lift (prop params (lit "tables")) ;;
       ret (VObj [(lit "message",
                   VStr (lit "SQL generation should be handled by the LLM"));
                  (lit "description", description);
                  (lit "suggested_tables", tables)]) |}.

Definition explain_sql : MCPTool D :=
  {| name := lit "explain_sql";
     description := lit "Explain what a SQL query does in natural language";
     parameters :=
       {| properties := [(lit "sql", string_param "SQL query to explain")];
          required := [lit "sql"] |};
     handler := fun params =>
       sql <- lift (prop params (lit "sql")) ;;
       analysis <- lift (Validator.analyze sql) ;;
       ret (VObj [(lit "sql", sql);
                  (lit "valid", VBool (Validator.isValid analysis));
                  (lit "type", VStr (Validator.type analysis));
                  (lit "tables", VArr (List.map VStr (Validator.tables analysis)));
                  (lit "read_only", VBool (Validator.isReadOnly analysis));
                  (lit "errors", VArr (List.map VStr (Validator.errors analysis)));
                  (lit "warnings",
                   VArr (List.map VStr (Validator.warnings analysis)))]) |}.

(** [`${validation.reason}`] *)
Definition reason_text (reason : option str) : str :=
  match reason with
  | Some r => r
  | None => lit "undefined"
  end.

Definition run_sql : MCPTool D :=
  {| name := lit "run_sql";
     description := lit "Execute a SQL query and return results";
     parameters :=
       {| properties :=
            [(lit "sql", string_param "SQL query to execute");
             (lit "limit",
              VObj [(lit "type", VStr (lit "number"));
                    (lit "description",
                     VStr (lit "Maximum number of rows to return (default: 1000)"))])];
          required := [lit "sql"] |};
     handler := fun params =>
       given <- lift (prop params (lit "limit")) ;;
       let limit := if truthy given then given else VNum 1000 in
       (* Validate SQL *)
       sql0 <- lift (prop params (lit "sql")) ;;
       this <- get ;;
       validation <- lift (Validator.validateSafe sql0 (readOnlyMode this)) ;;
       if negb (Validator.safe validation) then
         throw (lit "SQL validation failed: "
                  ++ reason_text (Validator.reason validation))
       else
         (* Add limit for SELECT queries *)
         analysis <- lift (Validator.analyze sql0) ;;
         let is_select := str_eqb (Validator.type analysis) (lit "select") in
         sql <- (if is_select then lift (Validator.addLimit sql0 limit)
                 else ret sql0) ;;
         (* Execute query *)
         result <- call_provider (CallRunQuery sql) (runQuery sql) ;;
         ret (VObj [(lit "rows", rows result);
                    (lit "rowCount", rowCount result);
                    (lit "fields", fields result);
                    (lit "limited", VBool is_select)]) |}.

(** [registerTools()]: the [tools] map after the five [set] calls. *)
Definition registerTools : list (str * MCPTool D) :=
  let tools := [] in
  let tools := map_set (lit "list_tables") list_tables tools in
  let tools := map_set (lit "describe_table") describe_table tools in
  let tools := map_set (lit "generate_sql") generate_sql tools in
  let tools := map_set (lit "explain_sql") explain_sql tools in
  let tools := map_set (lit "run_sql") run_sql tools in
  tools.

(** [new MCPToolRegistry(provider, metadata)]: the initial fields. *)
Definition new_registry (provider : D) (metadata : option Semantic.DatabaseMetadata)
    : MCPToolRegistry D :=
  {| readOnlyMode := true;
     metadata := metadata;
     provider := provider;
     calls := [] |}.

(** [getTools()]: [Array.from(this.tools.values())]. *)
Definition getTools (tools : list (str * MCPTool D)) : list (MCPTool D) :=
  List.map snd tools.

(** [getTool(name)] *)
Definition getTool (tools : list (str * MCPTool D)) (name : str)
    : option (MCPTool D) :=
  map_get name tools.

(** [executeTool(name, params)] *)
Definition executeTool (tools : list (str * MCPTool D)) (name : str)
    (params : jsval) : Handler jsval :=
  match map_get name tools with
  | None => throw (lit "Tool not found: " ++ name)
  | Some tool =>
      st_try_catch (handler tool params)
        (fun message => throw (lit "Tool execution failed: " ++ message))
  end.

End WithProvider.

End Registry.

(* ================================================================== *)
(** * The chat orchestrator ([src/orchestration/chat.ts]) *)
(* ================================================================== *)

Module Chat.

Inductive Role : Type := system | user | assistant | tool.

Record ToolCall : Type := {
  id : str;
  function_name : str;        (* function.name *)
  function_arguments : str    (* function.arguments *)
}.

Record Message : Type := {
  role : Role;
  content : str;
  name : option str;
  tool_calls : option (list ToolCall);
  tool_call_id : option str
}.

(** A [ChatResponse] is an object; a decoded reply is returned as it is. *)
Definition ChatResponse : Type := jsval.

(** The LLM Client capability, over the state [L] of the client.  It
    receives the history and what [getTools()] returned; the clients of
    the repository only read them. *)
Class LLMClient (L D : Type) : Type := {
  llm_chat : list Message -> list (Registry.MCPTool D) -> L -> Outcome Message * L
}.

(** The fields of a [ChatOrchestrator], with the objects it refers to.
    [round_trips] is a ghost field: the number of calls of the LLM client
    made so far. *)
Record ChatOrchestrator (L D : Type) : Type := {
  messages : list Message;
  systemPrompt : str;
  metadata : option Semantic.DatabaseMetadata;
  llmClient : L;
  toolRegistry : Registry.MCPToolRegistry D;
  round_trips : nat
}.

Definition maxIterations : nat := 5.

Definition max_iterations_message : str :=
  lit "Max iterations reached without final response".

Definition quoted (s : string) : str := [34%N] ++ lit s ++ [34%N].

Section WithClient.
Context {B : Builtins} {P : Validator.SqlParser}.
Context {L D : Type} {DB : Registry.IDatabaseProvider D} {LLM : LLMClient L D}.

(** The [tools] map of the registry the orchestrator was given. *)
Variable tools : list (str * Registry.MCPTool D).

Definition Method (A : Type) : Type := ST (ChatOrchestrator L D) A.

Definition set_messages (ms : list Message) (o : ChatOrchestrator L D)
    : ChatOrchestrator L D :=
  {| messages := ms;
     systemPrompt := systemPrompt o;
     metadata := metadata o;
     llmClient := llmClient o;
     toolRegistry := toolRegistry o;
     round_trips := round_trips o |}.

Definition set_registry (registry : Registry.MCPToolRegistry D)
    (o : ChatOrchestrator L D) : ChatOrchestrator L D :=
  {| messages := messages o;
     systemPrompt := systemPrompt o;
     metadata := metadata o;
     llmClient := llmClient o;
     toolRegistry := registry;
     round_trips := round_trips o |}.

(** The orchestrator once a call of the LLM client has come back,
    leaving the client in state [client]. *)
Definition after_llm (client : L) (o : ChatOrchestrator L D)
    : ChatOrchestrator L D :=
  {| messages := messages o;
     systemPrompt := systemPrompt o;
     metadata := metadata o;
     llmClient := client;
     toolRegistry := toolRegistry o;
     round_trips := S (round_trips o) |}.

(** [this.messages.push(m)] *)
Definition push (m : Message) : Method unit :=
  modify (fun o => set_messages (messages o ++ [m]) o).

(** The text of the system prompt, line by line. *)
Definition system_prompt_text (schemaContext : str) : str :=
  join [10%N]
    [lit "You are a helpful database assistant that helps users interact with their SQL database using natural language.";
     [];
     lit "DATABASE SCHEMA:";
     schemaContext;
     [];
     lit "CAPABILITIES:";
     lit "You have access to the following tools:";
     join [10%N]
       (List.map
          (fun t => lit "- " ++ Registry.name t ++ lit ": " ++ Registry.description t)
          (Registry.getTools tools));
     [];
     lit "GUIDELINES:";
     lit "1. Always validate SQL before execution";
     lit "2. Use the explain_sql tool to validate queries before running them";
     lit "3. For data queries, use run_sql and format results appropriately";
     lit "4. When generating reports or analytics, respond with structured data in this format:";
     lit "   {";
     lit "     " ++ quoted "response_type" ++ lit ": " ++ quoted "chart"
       ++ lit " | " ++ quoted "table" ++ lit " | " ++ quoted "text" ++ lit ",";
     lit "     " ++ quoted "description" ++ lit ": "
       ++ quoted "human explanation of the data" ++ lit ",";
     lit "     " ++ quoted "data" ++ lit ": { ...structured data... }";
     lit "   }";
     lit "5. For charts, provide data in a format suitable for visualization (labels, values, etc.)";
     lit "6. Always be clear about what data you're returning and why";
     lit "7. If a query might return large amounts of data, suggest filtering or limiting";
     lit "8. Explain your reasoning when constructing complex queries";
     [];
     lit "RESPONSE FORMAT:";
     lit "- For simple questions: respond with plain text";
     lit "- For data tables: use response_type " ++ quoted "table"
       ++ lit " with rows and columns";
     lit "- For analytics/trends: use response_type " ++ quoted "chart"
       ++ lit " with appropriate chart data";
     [];
     lit "Remember: You are operating in a tool-calling mode. Use the provided tools to access the database."].

Definition system_message (prompt : str) : Message :=
  {| role := system;
     content := prompt;
     name := None;
     tool_calls := None;
     tool_call_id := None |}.

(** [this.metadata ? generateCompactSchema(this.metadata) : '...'] *)
Definition schema_context (md : option Semantic.DatabaseMetadata) : str :=
  match md with
  | Some md => Semantic.generateCompactSchema md
  | None => lit "No schema loaded yet."
  end.

(** [initializeSystemPrompt()] *)
Definition initializeSystemPrompt : Method unit :=
  modify (fun o =>
    let schemaContext := schema_context (metadata o) in
    let prompt := system_prompt_text schemaContext in
    {| messages := [system_message prompt];
       systemPrompt := prompt;
       metadata := metadata o;
       llmClient := llmClient o;
       toolRegistry := toolRegistry o;
       round_trips := round_trips o |}).

(** [new ChatOrchestrator(toolRegistry, llmClient, metadata)] *)
Definition new_orchestrator (registry : Registry.MCPToolRegistry D) (client : L)
    (md : option Semantic.DatabaseMetadata) : ChatOrchestrator L D :=
  snd (initializeSystemPrompt
         {| messages := [];
            systemPrompt := [];
            metadata := md;
            llmClient := client;
            toolRegistry := registry;
            round_trips := 0 |}).

(** [setMetadata(metadata)] *)
Definition setMetadata (md : Semantic.DatabaseMetadata) : Method unit :=
  modify (fun o =>
    {| messages := messages o;
       systemPrompt := systemPrompt o;
       metadata := Some md;
       llmClient := llmClient o;
       toolRegistry := toolRegistry o;
       round_trips := round_trips o |}) ;;
  initializeSystemPrompt.

(** [clearHistory()] *)
Definition clearHistory : Method unit := initializeSystemPrompt.

(** [getHistory()]: a copy of the array. *)
Definition getHistory : Method (list Message) :=
  o <- get ;; ret (messages o).

(** [this.llmClient.chat(this.messages, this.toolRegistry.getTools())] *)
Definition call_llm : Method Message :=
  fun o =>
    let (out, client') :=
      llm_chat (messages o) (Registry.getTools tools) (llmClient o) in
    (out, after_llm client' o).

(** A method of the registry, called through [this.toolRegistry]. *)
Definition in_registry {A : Type} (c : ST (Registry.MCPToolRegistry D) A)
    : Method A :=
  fun o =>
    let (out, registry') := c (toolRegistry o) in
    (out, set_registry registry' o).

(** [JSON.stringify({ error: error.message })] *)
Definition error_text (message : str) : str :=
  JSON_stringify (VObj [(lit "error", VStr message)]).

Definition tool_message (toolCall : ToolCall) (text : str) : Message :=
  {| role := tool;
     content := text;
     name := Some (function_name toolCall);
     tool_calls := None;
     tool_call_id := Some (id toolCall) |}.

(** The body of the loop over [response.tool_calls]. *)
Definition dispatch (toolCall : ToolCall) : Method unit :=
  st_try_catch
    (args <- lift (JSON_parse (function_arguments toolCall)) ;;
     result <- in_registry
                 (Registry.executeTool tools (function_name toolCall) args) ;;
     (* Add tool response to messages *)
     push (tool_message toolCall (JSON_stringify_indent result)))
    (fun message => push (tool_message toolCall (error_text message))).

(** [for (const toolCall of response.tool_calls) { ... }] *)
Fixpoint dispatch_all (toolCalls : list ToolCall) : Method unit :=
  match toolCalls with
  | [] => ret tt
  | toolCall :: rest => dispatch toolCall ;; dispatch_all rest
  end.

Definition text_response (content : str) : ChatResponse :=
  VObj [(lit "response_type", VStr (lit "text"));
        (lit "description", VStr content);
        (lit "raw_response", VStr content)].

(** [parseResponse(content)] *)
Definition parseResponse (content : str) : ChatResponse :=
  let decoded :=
    try_catch
      (let! json := JSON_parse content in
       let! response_type := prop json (lit "response_type") in
       if truthy response_type then
         let! description := prop json (lit "description") in
         if truthy description then Returned (Some json) else Returned None
       else Returned None)
      (fun _ => Returned None) in
  match decoded with
  | Returned (Some json) => json
  | _ => text_response content
  end.

(** The [while (iterations < maxIterations)] loop of [chat];
    [remaining] is [maxIterations - iterations], so the loop is left by
    its condition exactly when [remaining] is 0. *)
Fixpoint chat_loop (remaining : nat) : Method ChatResponse :=
  match remaining with
  | O => throw max_iterations_message
  | S remaining' =>
      response <- call_llm ;;
      (* Add assistant response *)
      push response ;;
      match tool_calls response with
      | Some (toolCall :: rest) =>
          dispatch_all (toolCall :: rest) ;;
          chat_loop remaining'
      | _ =>
          (* No more tool calls, return final response *)
          ret (parseResponse (content response))
      end
  end.

(** [chat(userMessage)] *)
Definition chat (userMessage : str) : Method ChatResponse :=
  push {| role := user;
          content := userMessage;
          name := None;
          tool_calls := None;
          tool_call_id := None |} ;;
  chat_loop maxIterations.

(** What a caller can do with an orchestrator, and the orchestrator
    after a sequence of such operations. *)
Inductive Operation : Type :=
| OpChat (userMessage : str)
| OpClearHistory
| OpSetMetadata (md : Semantic.DatabaseMetadata).

Definition perform (op : Operation) (o : ChatOrchestrator L D)
    : ChatOrchestrator L D :=
  match op with
  | OpChat userMessage => snd (chat userMessage o)
  | OpClearHistory => snd (clearHistory o)
  | OpSetMetadata md => snd (setMetadata md o)
  end.

Definition run (ops : list Operation) (o : ChatOrchestrator L D)
    : ChatOrchestrator L D :=
  fold_left (fun o op => perform op o) ops o.

(** The history starts with the system message of the current prompt. *)
Definition starts_with_system_message (o : ChatOrchestrator L D) : Prop :=
  exists rest, messages o = system_message (systemPrompt o) :: rest.

(** The [tool] messages for [toolCalls], with the given contents. *)
Definition tool_messages (toolCalls : list ToolCall) (texts : list str)
    : list Message :=
  List.map (fun p => tool_message (fst p) (snd p)) (combine toolCalls texts).

(** The client failed with [message] on some call. *)
Definition client_failure (message : str) : Prop :=
  exists history offered client client',
    llm_chat history offered client = (Thrown message, client').


End WithClient.

End Chat.

(* ================================================================== *)
(** * The wire format of the LLM clients ([src/orchestration/llm-client.ts]) *)
(* ================================================================== *)

Module Wire.

(** [formattedTools]: what [OpenAIClient.chat] and [GroqClient.chat] put
    in the request body for each tool they were given. *)
Definition formattedTool {D : Type} (t : Registry.MCPTool D) : jsval :=
  VObj [(lit "type", VStr (lit "function"));
        (lit "function",
         VObj [(lit "name", VStr (Registry.name t));
               (lit "description", VStr (Registry.description t));
               (lit "parameters",
                VObj [(lit "type", VStr (lit "object"));
                      (lit "properties",
                       VObj (Registry.properties (Registry.parameters t)));
                      (lit "required",
                       VArr (List.map VStr
                               (Registry.required (Registry.parameters t))))])])].

Definition formattedTools {D : Type} (tools : list (Registry.MCPTool D))
    : list jsval :=
  List.map formattedTool tools.

(** The name, description and parameter schema of a tool. *)
Definition public_part {D : Type} (t : Registry.MCPTool D)
    : str * str * Registry.ParameterSchema :=
  (Registry.name t, Registry.description t, Registry.parameters t).

(** [getTools] lets nothing of a tool through but its name, description
    and parameter schema: registries that agree on these are
    indistinguishable through it. *)
Definition exposes_only_public_parts (D : Type) : Prop :=
  forall tools1 tools2 : list (str * Registry.MCPTool D),
    List.map (fun kv => public_part (snd kv)) tools1
    = List.map (fun kv => public_part (snd kv)) tools2 ->
    Registry.getTools tools1 = Registry.getTools tools2.

End Wire.

(* ================================================================== *)
(** * A small environment to run the model in *)
(* ================================================================== *)

(** Stand-ins for the capabilities of the environment, simple enough to
    compute with: a keyword-level SQL parser, a provider with no rows, and
    scripted LLM clients. *)
Module Reference.

Definition lower_ascii (s : str) : str :=
  List.map (fun c => if is_upper c then (c + 32)%N else c) s.

#[warnings="-register-all"]
Fixpoint show (v : jsval) : str :=
  match v with
  | VUndefined | VNull => lit "null"
  | VBool true => lit "true"
  | VBool false => lit "false"
  | VNum n => Number_toString n
  | VStr s => [34%N] ++ s ++ [34%N]
  | VArr items => lit "[" ++ join (lit ",") (List.map show items) ++ lit "]"
  | VObj props =>
      lit "{"
        ++ join (lit ",")
             (List.map (fun kv => [34%N] ++ fst kv ++ [34%N] ++ lit ":"
                                    ++ show (snd kv)) props)
        ++ lit "}"
  end.

(** Decodes the empty object and [null] only. *)
Definition parse_json (text : str) : Outcome jsval :=
  if str_eqb (trim text) (lit "{}") then Returned (VObj [])
  else if str_eqb (trim text) (lit "null") then Returned VNull
  else Thrown (lit "Unexpected token in JSON").

Definition builtins : Builtins :=
  {| toLowerCase := lower_ascii;
     JSON_parse := parse_json;
     JSON_stringify := show;
     JSON_stringify_indent := show;
     TypeError_message := fun _ key =>
       lit "Cannot read properties (reading '" ++ key ++ lit "')" |}.

Fixpoint split_on (sep : N) (s : str) : list str :=
  match s with
  | [] => [[]]
  | c :: s' =>
      if N.eqb c sep then [] :: split_on sep s'
      else match split_on sep s' with
           | first :: others => (c :: first) :: others
           | [] => [[c]]
           end
  end.

Fixpoint takeWhile (p : N -> bool) (s : str) : str :=
  match s with
  | [] => []
  | c :: s' => if p c then c :: takeWhile p s' else []
  end.

Definition keywords : list str :=
  [lit "select"; lit "insert"; lit "update"; lit "delete"; lit "create";
   lit "drop"; lit "alter"; lit "truncate"].

(** The statement that a segment of the text stands for: its first word
    decides its kind. *)
Definition statement_of (segment : str) : option Validator.Statement :=
  let kind := lower_ascii (takeWhile is_word segment) in
  if includes keywords kind
  then Some {| Validator.stmt_type := Some kind;
               Validator.stmt_from := None;
               Validator.stmt_into := None;
               Validator.stmt_table := None |}
  else None.

Definition nonempty (s : str) : bool :=
  match s with [] => false | _ => true end.

Definition parse_sql (sql : jsval) : Outcome Validator.Ast :=
  match sql with
  | VStr text =>
      let segments := List.filter nonempty (List.map trim (split_on 59 text)) in
      let parsed := List.map statement_of segments in
      if List.forallb (fun o => match o with Some _ => true | None => false end)
           parsed
      then match parsed with
           | [] => Thrown (lit "unexpected end of input")
           | [stmt] => Returned (Validator.Single stmt)
           | _ => Returned (Validator.Multiple parsed)
           end
      else Thrown (lit "syntax error")
  | _ => Thrown (lit "sql is not a string")
  end.

Definition parser : Validator.SqlParser := {| Validator.astify := parse_sql |}.

(** A provider whose every table is empty. *)
Definition empty_provider : Registry.IDatabaseProvider unit :=
  {| Registry.listTables := fun _ d => (Returned [], d);
     Registry.describeTable := fun _ _ d => (Thrown (lit "no such table"), d);
     Registry.runQuery := fun _ d =>
       (Returned {| Registry.rows := VArr [];
                    Registry.rowCount := VNum 0;
                    Registry.fields := VArr [] |}, d) |}.

Definition assistant_message (text : str) (calls : option (list Chat.ToolCall))
    : Chat.Message :=
  {| Chat.role := Chat.assistant;
     Chat.content := text;
     Chat.name := None;
     Chat.tool_calls := calls;
     Chat.tool_call_id := None |}.

Definition call_run_sql : Chat.ToolCall :=
  {| Chat.id := lit "call_1";
     Chat.function_name := lit "run_sql";
     Chat.function_arguments := lit "{}" |}.

Definition call_unknown : Chat.ToolCall :=
  {| Chat.id := lit "call_2";
     Chat.function_name := lit "no_such_tool";
     Chat.function_arguments := lit "not json" |}.

(** A client that asks for tools in every reply. *)
Definition insistent_client : Chat.LLMClient unit unit :=
  {| Chat.llm_chat := fun _ _ l =>
       (Returned (assistant_message [] (Some [call_run_sql; call_unknown])), l) |}.

(** A client that answers at once. *)
Definition direct_client : Chat.LLMClient unit unit :=
  {| Chat.llm_chat := fun _ _ l =>
       (Returned (assistant_message (lit "There are 3 customers.") None), l) |}.


(** The registry of [registerTools], and the same registry with the
    handler of [run_sql] replaced. *)
Definition tools : list (str * Registry.MCPTool unit) :=
  @Registry.registerTools builtins parser unit empty_provider.

Definition run_sql_stub : Registry.MCPTool unit :=
  let run_sql := @Registry.run_sql builtins parser unit empty_provider in
  {| Registry.name := Registry.name run_sql;
     Registry.description := Registry.description run_sql;
     Registry.parameters := Registry.parameters run_sql;
     Registry.handler := fun _ => ret VNull |}.

Definition tools_with_stub : list (str * Registry.MCPTool unit) :=
  Registry.map_set (lit "run_sql") run_sql_stub tools.

Definition delete_statement : Validator.Statement :=
  {| Validator.stmt_type := Some (lit "delete");
     Validator.stmt_from := None;
     Validator.stmt_into := None;
     Validator.stmt_table := None |}.

Definition select_statement : Validator.Statement :=
  {| Validator.stmt_type := Some (lit "select");
     Validator.stmt_from := None;
     Validator.stmt_into := None;
     Validator.stmt_table := None |}.

(** What the parser above makes of "DELETE FROM t; SELECT 1". *)
Definition two_statements : list (option Validator.Statement) :=
  [Some delete_statement; Some select_statement].

(** The analysis of "DELETE FROM customers" under the parser above. *)
Definition delete_analysis : Validator.SQLAnalysis :=
  {| Validator.isValid := true;
     Validator.isReadOnly := false;
     Validator.type := lit "delete";
     Validator.tables := [];
     Validator.errors := [];
     Validator.warnings := [] |}.

Definition write_refused : Validator.Validation :=
  {| Validator.safe := false;
     Validator.reason :=
       Some (lit "Write operations not allowed in read-only mode") |}.

Definition drop_params : jsval :=
  VObj [(lit "sql", VStr (lit "DROP TABLE customers"))].

Definition registry : Registry.MCPToolRegistry unit :=
  @Registry.new_registry unit tt None.

Definition orchestrator : Chat.ChatOrchestrator unit unit :=
  Chat.new_orchestrator tools registry tt None.

End Reference.

(* ================================================================== *)
(** * Vocabulary for further properties of the validator *)
(* ================================================================== *)

Module ValidatorSpec.
Import Validator.

(** The tables named by the entries of a list, in order; an entry
    without a [table] names none. *)
Definition entry_tables (from : list Node) : list str :=
  flat_map
    (fun item =>
       if present (node_table item) then [text_of (node_table item)] else [])
    from.

(** The tables that a statement refers to: those of its FROM list, then
    its INTO target, then its own [table]. *)
Definition statement_tables (stmt : Statement) : list str :=
  match stmt_from stmt with
  | Some from => entry_tables from
  | None => []
  end
  ++ match stmt_into stmt with
     | Some into =>
         if present (into_table into) then [text_of (into_table into)] else []
     | None => []
     end
  ++ match stmt_table stmt with
     | Some t => entry_tables [t]
     | None => []
     end.

(** The statements of a parse, and those of them that [analyzeStatement]
    does not skip. *)
Definition statements (ast : Ast) : list (option Statement) :=
  match ast with
  | Single stmt => [stmt]
  | Multiple stmts => stmts
  end.

Definition analysed (stmts : list (option Statement)) : list Statement :=
  flat_map
    (fun stmt =>
       match stmt with
       | Some s => if present (stmt_type s) then [s] else []
       | None => []
       end)
    stmts.

Section WithBuiltins.
Context {B : Builtins}.

(** The lowercase kind of the statement is a write operation. *)
Definition is_write (stmt : Statement) : bool :=
  includes writeOperations (toLowerCase (kind stmt)).

End WithBuiltins.

(** A limit that prints as a plain numeral: none given, or an integer
    that is not negative. *)
Definition plain_limit (limit : jsval) : Prop :=
  limit = VUndefined \/ exists n, (0 <= n)%Z /\ limit = VNum n.

End ValidatorSpec.

(* ================================================================== *)
(** * Vocabulary for further properties of the registry *)
(* ================================================================== *)

Module RegistrySpec.
Import Registry.

(** [tableName] names the table [t]: it is its bare name, its qualified
    name, or it ends with a dot and the name. *)
Definition name_matches (t : Semantic.TableMetadata) (tableName : str) : Prop :=
  Semantic.table_name t = tableName
  \/ (Validator.present (Semantic.table_schema t) = true
      /\ Validator.text_of (Semantic.table_schema t) ++ lit "."
           ++ Semantic.table_name t = tableName)
  \/ exists before,
       tableName = before ++ lit "." ++ Semantic.table_name t.

(** The names under which [registerTools] files the tools. *)
Definition tool_names : list str :=
  [lit "list_tables"; lit "describe_table"; lit "generate_sql";
   lit "explain_sql"; lit "run_sql"].

(** The registry after a call of the provider that left the connection
    in state [d]. *)
Definition after_call {D : Type} (c : Call) (d : D) (this : MCPToolRegistry D)
    : MCPToolRegistry D :=
  {| readOnlyMode := readOnlyMode this;
     metadata := metadata this;
     provider := d;
     calls := calls this ++ [c] |}.

(** [params.limit || 1000] *)
Definition effective_limit (given : jsval) : jsval :=
  if truthy given then given else VNum 1000.

(** The object that [run_sql] returns. *)
Definition query_result (result : QueryResult) (limited : bool) : jsval :=
  VObj [(lit "rows", rows result);
        (lit "rowCount", rowCount result);
        (lit "fields", fields result);
        (lit "limited", VBool limited)].

(** The object that [explain_sql] returns. *)
Definition explanation (sql : jsval) (analysis : Validator.SQLAnalysis) : jsval :=
  VObj [(lit "sql", sql);
        (lit "valid", VBool (Validator.isValid analysis));
        (lit "type", VStr (Validator.type analysis));
        (lit "tables", VArr (List.map VStr (Validator.tables analysis)));
        (lit "read_only", VBool (Validator.isReadOnly analysis));
        (lit "errors", VArr (List.map VStr (Validator.errors analysis)));
        (lit "warnings", VArr (List.map VStr (Validator.warnings analysis)))].

End RegistrySpec.

(* ================================================================== *)
(** * Vocabulary for further properties of the orchestrator *)
(* ================================================================== *)

Module ChatSpec.
Import Chat.

(** [part] occurs in [text]. *)
Definition contains (text part : str) : Prop :=
  exists before after, text = before ++ part ++ after.

(** [new Message] for the text of the user. *)
Definition user_message (userMessage : str) : Message :=
  {| role := user;
     content := userMessage;
     name := None;
     tool_calls := None;
     tool_call_id := None |}.

(** The reply asks for no tool. *)
Definition is_final (response : Message) : Prop :=
  tool_calls response = None \/ tool_calls response = Some [].

(** The message answers the tool call: it is a [tool] message that
    carries the id and the function name of the call. *)
Definition answers (toolCall : ToolCall) (reply : Message) : Prop :=
  role reply = tool
  /\ name reply = Some (function_name toolCall)
  /\ tool_call_id reply = Some (id toolCall)
  /\ tool_calls reply = None.

(** What at most [n] rounds of the loop append to the history: in each
    round the reply of the model and then one message for each of its tool
    calls, in their order, that answers the call; a reply that asks for no
    tool ends the sequence. *)
Inductive rounds : nat -> list Message -> Prop :=
| rounds_stop n : rounds n []
| rounds_final n response :
    is_final response -> rounds (S n) [response]
| rounds_more n response toolCalls replies rest :
    tool_calls response = Some toolCalls ->
    toolCalls <> [] ->
    Forall2 answers toolCalls replies ->
    rounds n rest ->
    rounds (S n) (response :: replies ++ rest).

End ChatSpec.

(* ================================================================== *)
(** * More of the semantic layer ([src/semantic/index.ts]) *)
(* ================================================================== *)

Module SemanticMore.
Import Semantic.

(** [table.schema || 'default'] *)
Definition schema_key (t : TableMetadata) : str :=
  match table_schema t with
  | Some (c :: s) => c :: s
  | _ => lit "default"
  end.

Section WithBuiltins.
Context {B : Builtins}.

(** One step of the loop of [groupTablesBySchema]: the group of the
    table's schema is created if the map does not have it, and the table is
    pushed onto [grouped.get(schema)!]. *)
Definition group_table (t : TableMetadata)
    (grouped : list (str * list TableMetadata))
    : Outcome (list (str * list TableMetadata)) :=
  let schema := schema_key t in
  let grouped :=
    match Registry.map_get schema grouped with
    | Some _ => grouped
    | None => Registry.map_set schema [] grouped
    end in
  match Registry.map_get schema grouped with
  | Some group => Returned (Registry.map_set schema (group ++ [t]) grouped)
  | None => Thrown (TypeError_message VUndefined (lit "push"))
  end.

Fixpoint group_tables (tables : list TableMetadata)
    (grouped : list (str * list TableMetadata))
    : Outcome (list (str * list TableMetadata)) :=
  match tables with
  | [] => Returned grouped
  | t :: rest =>
      let! grouped := group_table t grouped in
      group_tables rest grouped
  end.

(** [groupTablesBySchema(tables)]: the map, in insertion order. *)
Definition groupTablesBySchema (tables : list TableMetadata)
    : Outcome (list (str * list TableMetadata)) :=
  group_tables tables [].

End WithBuiltins.

(** The tables of [tables] whose schema key is [schema], in order. *)
Definition tables_of_schema (schema : str) (tables : list TableMetadata)
    : list TableMetadata :=
  List.filter (fun t => str_eqb (schema_key t) schema) tables.

(** The distinct texts of a list, each at its first place. *)
Fixpoint first_seen (l : list str) : list str :=
  match l with
  | [] => []
  | k :: rest => k :: List.filter (fun k' => negb (str_eqb k' k)) (first_seen rest)
  end.

(** [s.split('\n')] *)
Fixpoint split_lines (s : str) : list str :=
  match s with
  | [] => [[]]
  | c :: s' =>
      if N.eqb c 10 then [] :: split_lines s'
      else match split_lines s' with
           | line :: others => (c :: line) :: others
           | [] => [[c]]
           end
  end.

(** The text has no line break. *)
Definition single_line (s : str) : Prop := ~ In 10%N s.

(** The line of [generateCompactSchema] for one table. *)
Definition table_line (table : TableMetadata) : str :=
  qualified_name table ++ lit " ("
    ++ join (lit ", ") (List.map column_line (columns table)) ++ lit ")".

(** No name or type of the table has a line break. *)
Definition table_on_one_line (t : TableMetadata) : Prop :=
  single_line (table_name t)
  /\ single_line (Validator.text_of (table_schema t))
  /\ forall c, In c (columns t) ->
               single_line (column_name c) /\ single_line (column_type c).

End SemanticMore.

(* ================================================================== *)
(** * The schema scanner (class [SchemaScanner]) *)
(* ================================================================== *)

Module Scanner.

Record ScanProgress : Type := {
  stage : str;
  current : nat;
  total : nat;
  message : str
}.

(** What a scan does that can be seen from outside, in order: the
    provider capabilities it invokes, the progress reports it hands to the
    callback, and the lines it writes with [console.error]. *)
Inductive ScanEvent : Type :=
| ProviderListSchemas
| ProviderListTables (schema : jsval)
| ProviderDescribeTable (tableName schema : jsval)
| Progress (progress : ScanProgress)
| ConsoleError (text error : str).

(** A [SchemaScanner]: its provider, and the ghost field [events]. *)
Record SchemaScanner (D : Type) : Type := {
  provider : D;
  events : list ScanEvent
}.
Arguments provider {D} _.
Arguments events {D} _.

(** The object that [scanDatabase] returns. *)
Record Scanned : Type := {
  scanned_name : jsval;
  scanned_schemas : list jsval;
  scanned_tables : list Semantic.TableMetadata
}.

(** [listSchemas], the capability of [IDatabaseProvider] that only the
    scanner uses. *)
Class SchemaProvider (D : Type) : Type := {
  listSchemas : D -> Outcome (list str) * D
}.

(** [ProgressCallback], when one is given: it returns or throws. *)
Definition ProgressCallback : Type := option (ScanProgress -> Outcome unit).

Definition is_describe (e : ScanEvent) : bool :=
  match e with ProviderDescribeTable _ _ => true | _ => false end.

Definition is_console_error (e : ScanEvent) : bool :=
  match e with ConsoleError _ _ => true | _ => false end.

Definition count (p : ScanEvent -> bool) (l : list ScanEvent) : nat :=
  List.length (List.filter p l).

Section WithProvider.
Context {D : Type} {P : Registry.IDatabaseProvider D} {PS : SchemaProvider D}.

Definition Scan (A : Type) : Type := ST (SchemaScanner D) A.

Definition log (e : ScanEvent) : Scan unit :=
  modify (fun s => {| provider := provider s; events := events s ++ [e] |}).

(** [await this.provider.<capability>(...)] *)
Definition call_provider {A : Type} (e : ScanEvent)
    (capability : D -> Outcome A * D) : Scan A :=
  fun s =>
    let (r, d) := capability (provider s) in
    (r, {| provider := d; events := events s ++ [e] |}).

(** [onProgress?.(progress)] *)
Definition report (onProgress : ProgressCallback) (progress : ScanProgress)
    : Scan unit :=
  match onProgress with
  | None => ret tt
  | Some callback => log (Progress progress) ;; lift (callback progress)
  end.

(** The inner loop of [scanDatabase], from index [j]. *)
Fixpoint scan_tables (onProgress : ProgressCallback) (schema : jsval)
    (tables : list str) (j count : nat)
    (allTables : list Semantic.TableMetadata)
    : Scan (list Semantic.TableMetadata) :=
  match tables with
  | [] => ret allTables
  | tableName :: rest =>
      report onProgress
        {| stage := lit "tables"; current := j + 1; total := count;
           message := lit "Analyzing table: " ++ ToString schema
                        ++ lit "." ++ tableName |} ;;
      allTables <-
        st_try_catch
          (tableMetadata <-
             call_provider (ProviderDescribeTable (VStr tableName) schema)
               (Registry.describeTable (VStr tableName) schema) ;;
           ret (allTables ++ [tableMetadata]))
          (fun error =>
             log (ConsoleError
                    (lit "Failed to describe table " ++ ToString schema
                       ++ lit "." ++ tableName ++ lit ":") error) ;;
             ret allTables) ;;
      scan_tables onProgress schema rest (j + 1) count allTables
  end.

(** The outer loop of [scanDatabase], from index [i]. *)
Fixpoint scan_schemas (onProgress : ProgressCallback) (schemas : list jsval)
    (i count : nat) (allTables : list Semantic.TableMetadata)
    : Scan (list Semantic.TableMetadata) :=
  match schemas with
  | [] => ret allTables
  | schema :: rest =>
      report onProgress
        {| stage := lit "schemas"; current := i + 1; total := count;
           message := lit "Scanning schema: " ++ ToString schema |} ;;
      tables <- call_provider (ProviderListTables schema)
                  (Registry.listTables schema) ;;
      allTables <- scan_tables onProgress schema tables 0
                     (List.length tables) allTables ;;
      scan_schemas onProgress rest (i + 1) count allTables
  end.

(** [scanDatabase(databaseName, schemaName, onProgress)] *)
Definition scanDatabase (databaseName schemaName : jsval)
    (onProgress : ProgressCallback) : Scan Scanned :=
  schemas <-
    (if truthy schemaName then ret [schemaName]
     else
       report onProgress
         {| stage := lit "schemas"; current := 0; total := 1;
            message := lit "Fetching schemas..." |} ;;
       names <- call_provider ProviderListSchemas listSchemas ;;
       ret (List.map VStr names)) ;;
  allTables <- scan_schemas onProgress schemas 0 (List.length schemas) [] ;;
  report onProgress
    {| stage := lit "complete"; current := List.length allTables;
       total := List.length allTables;
       message := lit "Schema scan complete" |} ;;
  ret {| scanned_name :=
           if truthy databaseName then databaseName
           else VStr (lit "current");
         scanned_schemas := schemas;
         scanned_tables := allTables |}.

End WithProvider.

(** The progress events that one report adds. *)
Definition reported (onProgress : ProgressCallback) (progress : ScanProgress)
    : list ScanEvent :=
  match onProgress with
  | None => []
  | Some _ => [Progress progress]
  end.

(** No event of [new] is a call of [listSchemas] or of [listTables]. *)
Definition no_listing (new : list ScanEvent) : Prop :=
  ~ In ProviderListSchemas new
  /\ forall schema, ~ In (ProviderListTables schema) new.

(** As many tables were described as were kept or reported as failed. *)
Definition accounted (new : list ScanEvent) (before after : nat) : Prop :=
  count is_describe new + before = after + count is_console_error new.

(** The capability never fails, whatever the state of the connection. *)
Definition never_fails {D A : Type} (capability : D -> Outcome A * D)
    : Prop :=
  forall d, exists a d', capability d = (Returned a, d').

(** The last report of a scan that kept [n] tables. *)
Definition completed (n : nat) : ScanProgress :=
  {| stage := lit "complete"; current := n; total := n;
     message := lit "Schema scan complete" |}.

(** The callback, if there is one, returns. *)
Definition callback_returns (onProgress : ProgressCallback) : Prop :=
  forall callback progress,
    onProgress = Some callback -> callback progress = Returned tt.

(** A run of the scanner from [s] to [s'] added the events [new]. *)
Definition added {D : Type} (s s' : SchemaScanner D) (new : list ScanEvent)
    : Prop :=
  events s' = events s ++ new.

End Scanner.

(* ================================================================== *)
(** * The relationship graph ([SchemaScanner.buildRelationshipGraph]) *)
(* ================================================================== *)

Module Relationships.
Import Semantic.

Record ForeignKeyMetadata : Type := {
  fk_name : str;
  fk_column : str;
  referencedTable : str;
  referencedColumn : str
}.

(** [table.foreignKeys]: a property of a table object that
    [Semantic.TableMetadata] does not list. *)
Class TableDetails : Type := {
  foreignKeys : TableMetadata -> list ForeignKeyMetadata
}.

(** A [Map<string, Set<string>>]: keys and members in insertion order. *)
Definition Graph : Type := list (str * list str).

(** [set.add(member)] *)
Definition set_add (member : str) (set : list str) : list str :=
  if existsb (str_eqb member) set then set else set ++ [member].

(** [if (!graph.has(name)) graph.set(name, new Set())] *)
Definition add_node (name : str) (graph : Graph) : Graph :=
  match Registry.map_get name graph with
  | Some _ => graph
  | None => Registry.map_set name [] graph
  end.

(** [table.schema ? `${table.schema}.${fk.referencedTable}`
                  : fk.referencedTable] *)
Definition referenced_name (table : TableMetadata) (fk : ForeignKeyMetadata)
    : str :=
  match table_schema table with
  | Some (c :: s) => (c :: s) ++ lit "." ++ referencedTable fk
  | _ => referencedTable fk
  end.

Section WithDetails.
Context {B : Builtins} {TD : TableDetails}.

(** The body of the inner loop: [graph.get(tableName)!.add(referencedTable)],
    then the node of the referenced table. *)
Definition add_reference (tableName referenced : str) (graph : Graph)
    : Outcome Graph :=
  match Registry.map_get tableName graph with
  | Some set =>
      Returned
        (add_node referenced
           (Registry.map_set tableName (set_add referenced set) graph))
  | None => Thrown (TypeError_message VUndefined (lit "add"))
  end.

Fixpoint add_references (table : TableMetadata) (tableName : str)
    (fks : list ForeignKeyMetadata) (graph : Graph) : Outcome Graph :=
  match fks with
  | [] => Returned graph
  | fk :: rest =>
      let! graph :=
        add_reference tableName (referenced_name table fk) graph in
      add_references table tableName rest graph
  end.

Fixpoint add_tables (tables : list TableMetadata) (graph : Graph)
    : Outcome Graph :=
  match tables with
  | [] => Returned graph
  | table :: rest =>
      let tableName := qualified_name table in
      let graph := add_node tableName graph in
      let! graph :=
        add_references table tableName (foreignKeys table) graph in
      add_tables rest graph
  end.

(** [buildRelationshipGraph(metadata)] *)
Definition buildRelationshipGraph (metadata : DatabaseMetadata)
    : Outcome Graph :=
  add_tables (tables metadata) [].

(** A foreign key of a table of [tables] goes from [source] to [target]. *)
Definition references (tables : list TableMetadata) (source target : str)
    : Prop :=
  exists table fk,
    In table tables /\ In fk (foreignKeys table)
    /\ source = qualified_name table /\ target = referenced_name table fk.

(** [name] is a table of [tables] or the target of a foreign key. *)
Definition mentioned (tables : list TableMetadata) (name : str) : Prop :=
  (exists table, In table tables /\ name = qualified_name table)
  \/ exists source, references tables source name.

End WithDetails.

(** The graph has exactly the nodes [N] and the edges [E], each once. *)
Definition represents (N : str -> Prop) (E : str -> str -> Prop)
    (graph : Graph) : Prop :=
  NoDup (List.map fst graph)
  /\ (forall a, Registry.map_get a graph <> None <-> N a)
  /\ (forall a b,
        (exists set, Registry.map_get a graph = Some set /\ In b set)
        <-> E a b)
  /\ (forall a set, Registry.map_get a graph = Some set -> NoDup set).

End Relationships.

(* ================================================================== *)
(** * The schema summary ([SchemaSemanticLayer.generateSchemaSummary]) *)
(* ================================================================== *)

Module Summary.
Import Semantic Relationships.

(** [table.rowCount] and [column.defaultValue]: properties that
    [Semantic.TableMetadata] and [Semantic.ColumnMetadata] do not list;
    [undefined] when they are absent. *)
Class SummaryDetails : Type := {
  rowCount : TableMetadata -> jsval;
  defaultValue : ColumnMetadata -> jsval
}.

(** The arrow of the relationship lines, U+2192. *)
Definition arrow : str := [8594%N].

Section WithDetails.
Context {B : Builtins} {TD : TableDetails} {SD : SummaryDetails}.

(** [generateColumnDescription(column)] *)
Definition generateColumnDescription (column : ColumnMetadata) : str :=
  let parts := [lit "- **" ++ column_name column ++ lit "**"] in
  let parts := parts ++ [lit "(" ++ column_type column ++ lit ")"] in
  let tags : list str := [] in
  let tags := if isPrimaryKey column then tags ++ [lit "PK"] else tags in
  let tags := if isForeignKey column then tags ++ [lit "FK"] else tags in
  let tags := if negb (nullable column) then tags ++ [lit "NOT NULL"]
              else tags in
  let tags := if truthy (defaultValue column)
              then tags ++ [lit "DEFAULT: " ++ ToString (defaultValue column)]
              else tags in
  let parts := if (0 <? List.length tags)%nat
               then parts ++ [lit "[" ++ join (lit ", ") tags ++ lit "]"]
               else parts in
  join (lit " ") parts.

(** The line of one foreign key in [generateTableSummary]. *)
Definition foreign_key_line (fk : ForeignKeyMetadata) : str :=
  lit "- " ++ fk_column fk ++ lit " " ++ arrow ++ lit " "
    ++ referencedTable fk ++ lit "." ++ referencedColumn fk
    ++ lit " (" ++ fk_name fk ++ lit ")".

(** [generateTableSummary(table)] *)
Definition generateTableSummary (table : TableMetadata) : str :=
  let tableName := qualified_name table in
  let lines :=
    [lit "### Table: " ++ tableName;
     lit "Rows: ~"
       ++ ToString (if truthy (rowCount table) then rowCount table
                    else VNum 0);
     [];
     lit "**Columns:**"] in
  let lines := lines ++ List.map generateColumnDescription (columns table) in
  let lines :=
    if (0 <? List.length (foreignKeys table))%nat
    then lines ++ [[]; lit "**Foreign Keys:**"]
           ++ List.map foreign_key_line (foreignKeys table)
    else lines in
  join [10%N] lines.

(** The lines that [generateRelationshipSummary] collects. *)
Definition relationship_lines (tables : list TableMetadata) : list str :=
  flat_map
    (fun table =>
       let tableName := qualified_name table in
       List.map
         (fun fk =>
            tableName ++ lit " " ++ arrow ++ lit " " ++ referencedTable fk
              ++ lit " (via " ++ fk_column fk ++ lit ")")
         (foreignKeys table))
    tables.

(** [generateRelationshipSummary(tables)] *)
Definition generateRelationshipSummary (tables : list TableMetadata) : str :=
  let relationships := relationship_lines tables in
  let lines :=
    match relationships with
    | [] => [lit "No foreign key relationships found."]
    | _ => relationships
    end in
  join [10%N] lines.

(** The lines of the groups in [generateSchemaSummary]. *)
Definition schema_lines (tablesBySchema : list (str * list TableMetadata))
    : list str :=
  flat_map
    (fun entry =>
       [lit "## Schema: " ++ fst entry; []]
         ++ flat_map (fun table => [generateTableSummary table; []])
              (snd entry))
    tablesBySchema.

(** [generateSchemaSummary(metadata)] *)
Definition generateSchemaSummary (metadata : DatabaseMetadata) : Outcome str :=
  let lines :=
    [lit "# Database Schema Summary";
     [];
     lit "Database: " ++ database_name metadata;
     lit "Total Tables: "
       ++ Number_toString (Z.of_nat (List.length (tables metadata)));
     []] in
  let! tablesBySchema := SemanticMore.groupTablesBySchema (tables metadata) in
  let lines := lines ++ schema_lines tablesBySchema in
  let lines :=
    lines ++ [lit "## Relationships"; [];
              generateRelationshipSummary (tables metadata)] in
  Returned (join [10%N] lines).

End WithDetails.

End Summary.

(* ================================================================== *)
(** * The error text of the LLM clients
      ([src/orchestration/llm-client.ts]) *)
(* ================================================================== *)

Module LlmClient.

(** [text.replace(/<[^>]*>/g, ' ')], read from left to right: a [<] that
    has a [>] somewhere after it opens a match, which ends at the first
    [>]; [inside] tells that a match is open. *)
Fixpoint strip_tags_from (inside : bool) (text : str) : str :=
  match text with
  | [] => []
  | c :: rest =>
      if inside then
        if N.eqb c 62 then 32%N :: strip_tags_from false rest
        else strip_tags_from true rest
      else if N.eqb c 60 && existsb (N.eqb 62) rest
           then strip_tags_from true rest
           else c :: strip_tags_from false rest
  end.

Definition strip_tags (text : str) : str := strip_tags_from false text.

(** [text.replace(/\s+/g, ' ')]: [after_space] tells that the character
    before was white space, whose run has been replaced already. *)
Fixpoint collapse_from (after_space : bool) (text : str) : str :=
  match text with
  | [] => []
  | c :: rest =>
      if is_space c then
        if after_space then collapse_from true rest
        else 32%N :: collapse_from true rest
      else c :: collapse_from false rest
  end.

Definition collapse_spaces (text : str) : str := collapse_from false text.

(** What both clients do to the text of an error response:
    [if (errorMessage.includes('<')) errorMessage = errorMessage
       .replace(/<[^>]*>/g, ' ').replace(/\s+/g, ' ').trim()] *)
Definition plain_text (errorMessage : str) : str :=
  if existsb (N.eqb 60) errorMessage
  then trim (collapse_spaces (strip_tags errorMessage))
  else errorMessage.

(** No [<] of the text has a [>] after it. *)
Fixpoint tag_free (text : str) : bool :=
  match text with
  | [] => true
  | c :: rest =>
      (if N.eqb c 60 then negb (existsb (N.eqb 62) rest) else true)
      && tag_free rest
  end.

(** Every white space of the text is one U+0020 that does not follow
    white space ([after_space]: the text follows white space). *)
Fixpoint single_spaced (after_space : bool) (text : str) : bool :=
  match text with
  | [] => true
  | c :: rest =>
      if is_space c
      then N.eqb c 32 && negb after_space && single_spaced true rest
      else single_spaced false rest
  end.

(** The text has no markup: no [<] with a [>] anywhere after it. *)
Definition no_markup (text : str) : Prop :=
  forall before after, text = before ++ 60%N :: after -> ~ In 62%N after.

(** The white space of the text is single blanks between other
    characters. *)
Definition tidy (text : str) : Prop :=
  (forall c, In c text -> is_space c = true -> c = 32%N)
  /\ (forall before after, text <> before ++ 32%N :: 32%N :: after)
  /\ trim text = text.

End LlmClient.

(* ================================================================== *)
(** * More of the reference environment *)
(* ================================================================== *)

Module ReferenceMore.

(** The arguments of a [run_sql] call, as JSON text. *)
Definition drop_arguments : str :=
  lit "{" ++ Chat.quoted "sql" ++ lit ":"
    ++ Chat.quoted "DROP TABLE customers" ++ lit "}".

(** [Reference.parse_json], which also decodes [drop_arguments]. *)
Definition parse_json (text : str) : Outcome jsval :=
  if str_eqb text drop_arguments then Returned Reference.drop_params
  else Reference.parse_json text.

Definition builtins : Builtins :=
  {| toLowerCase := Reference.lower_ascii;
     JSON_parse := parse_json;
     JSON_stringify := Reference.show;
     JSON_stringify_indent := Reference.show;
     TypeError_message := fun _ key =>
       lit "Cannot read properties (reading '" ++ key ++ lit "')" |}.


(** The first table that a segment names: the word after FROM. *)
Fixpoint table_after_from (words : list str) : option str :=
  match words with
  | [] => None
  | word :: rest =>
      if str_eqb (Reference.lower_ascii word) (lit "from")
      then match rest with
           | table :: _ => Some table
           | [] => None
           end
      else table_after_from rest
  end.

(** [Reference.statement_of], with the table of the FROM clause. *)
Definition statement_of (segment : str) : option Validator.Statement :=
  match Reference.statement_of segment with
  | Some stmt =>
      Some {| Validator.stmt_type := Validator.stmt_type stmt;
              Validator.stmt_from :=
                match table_after_from
                        (List.filter Reference.nonempty
                           (Reference.split_on 32 segment)) with
                | Some table =>
                    Some [Validator.Obj
                            {| Validator.ref_table := Some table;
                               Validator.ref_as := None |}]
                | None => None
                end;
              Validator.stmt_into := None;
              Validator.stmt_table := None |}
  | None => None
  end.

(** [Reference.parse_sql], with the statements above. *)
Definition parse_sql (sql : jsval) : Outcome Validator.Ast :=
  match sql with
  | VStr text =>
      let segments :=
        List.filter Reference.nonempty
          (List.map trim (Reference.split_on 59 text)) in
      let parsed := List.map statement_of segments in
      if List.forallb (fun o => match o with Some _ => true | None => false end)
           parsed
      then match parsed with
           | [] => Thrown (lit "unexpected end of input")
           | [stmt] => Returned (Validator.Single stmt)
           | _ => Returned (Validator.Multiple parsed)
           end
      else Thrown (lit "syntax error")
  | _ => Thrown (lit "sql is not a string")
  end.

Definition table_parser : Validator.SqlParser :=
  {| Validator.astify := parse_sql |}.

(** What [table_parser] makes of "DELETE FROM t; SELECT name FROM u". *)
Definition statement_on (kind table : str) : Validator.Statement :=
  {| Validator.stmt_type := Some kind;
     Validator.stmt_from :=
       Some [Validator.Obj {| Validator.ref_table := Some table;
                              Validator.ref_as := None |}];
     Validator.stmt_into := None;
     Validator.stmt_table := None |}.

Definition delete_then_select : list (option Validator.Statement) :=
  [Some (statement_on (lit "delete") (lit "t"));
   Some (statement_on (lit "select") (lit "u"))].

(** A client that is out of service. *)
Definition failing_client : Chat.LLMClient unit unit :=
  {| Chat.llm_chat := fun _ _ l => (Thrown (lit "rate limited"), l) |}.

Definition column (name type : str) (nullable primary foreign : bool)
    : Semantic.ColumnMetadata :=
  {| Semantic.column_name := name;
     Semantic.column_type := type;
     Semantic.nullable := nullable;
     Semantic.isPrimaryKey := primary;
     Semantic.isForeignKey := foreign |}.

Definition customers : Semantic.TableMetadata :=
  {| Semantic.table_name := lit "customers";
     Semantic.table_schema := None;
     Semantic.columns :=
       [column (lit "id") (lit "INTEGER") false true false;
        column (lit "email") (lit "TEXT") false false false];
     Semantic.table_value := VObj [(lit "name", VStr (lit "customers"))] |}.

Definition orders : Semantic.TableMetadata :=
  {| Semantic.table_name := lit "orders";
     Semantic.table_schema := Some (lit "sales");
     Semantic.columns :=
       [column (lit "id") (lit "INTEGER") false true false;
        column (lit "customer_id") (lit "INTEGER") true false true];
     Semantic.table_value := VObj [(lit "name", VStr (lit "orders"))] |}.

Definition shop : Semantic.DatabaseMetadata :=
  {| Semantic.database_name := lit "shop";
     Semantic.tables := [customers; orders] |}.

(** The foreign key of [orders]; no other table has one. *)
Definition details : Relationships.TableDetails :=
  {| Relationships.foreignKeys := fun table =>
       if str_eqb (Semantic.table_name table) (lit "orders")
       then [{| Relationships.fk_name := lit "fk_orders_customer";
                Relationships.fk_column := lit "customer_id";
                Relationships.referencedTable := lit "customers";
                Relationships.referencedColumn := lit "id" |}]
       else [] |}.

(** A provider with two tables, one of which cannot be described. *)
Definition sample_provider : Registry.IDatabaseProvider unit :=
  {| Registry.listTables := fun _ d =>
       (Returned [lit "customers"; lit "ghosts"], d);
     Registry.describeTable := fun tableName _ d =>
       match tableName with
       | VStr name =>
           if str_eqb name (lit "customers") then (Returned customers, d)
           else (Thrown (lit "no such table"), d)
       | _ => (Thrown (lit "no such table"), d)
       end;
     Registry.runQuery := fun _ d =>
       (Returned {| Registry.rows := VArr [];
                    Registry.rowCount := VNum 0;
                    Registry.fields := VArr [] |}, d) |}.

Definition sample_schemas : Scanner.SchemaProvider unit :=
  {| Scanner.listSchemas := fun d => (Returned [lit "public"], d) |}.

Definition scanner : Scanner.SchemaScanner unit :=
  {| Scanner.provider := tt; Scanner.events := [] |}.

(** A callback that takes every report. *)
Definition listener : Scanner.ProgressCallback :=
  Some (fun _ => Returned tt).

(** No row counts and no default values are known. *)
Definition no_details : Summary.SummaryDetails :=
  {| Summary.rowCount := fun _ => VUndefined;
     Summary.defaultValue := fun _ => VUndefined |}.

(** An error page. *)
Definition bad_gateway : str :=
  lit "<html><body>  502 Bad Gateway </body></html>".

End ReferenceMore.

(* ================================================================== *)
(** * Facts about strings and patterns *)
(* ================================================================== *)

Module JsStringFacts.

Lemma str_eqb_eq (a b : str) : str_eqb a b = true <-> a = b.
Proof.
  revert b; induction a as [|x a IH]; intros [|y b]; simpl;
    try (split; [discriminate | congruence]); try tauto.
  rewrite andb_true_iff, N.eqb_eq, IH. split.
  - intros [-> ->]; reflexivity.
  - intros E; inversion E; auto.
Qed.

Lemma str_eqb_refl (a : str) : str_eqb a a = true.
Proof. apply str_eqb_eq; reflexivity. Qed.

Lemma includes_In (l : list str) (x : str) : includes l x = true <-> In x l.
Proof.
  unfold includes. rewrite existsb_exists. split.
  - intros (y & Hy & E). apply str_eqb_eq in E. subst; assumption.
  - intros H. exists x. split; [assumption | apply str_eqb_refl].
Qed.

End JsStringFacts.
Import JsStringFacts.

Module RegexFacts.
Import Regex.

Section Correctness.
Variable ignoreCase : bool.

Lemma one_spec (p : N -> bool) (i : nat) (s : str) (k : nat -> str -> bool) :
  one p i s k = true <->
  exists x rest, s = x :: rest /\ p x = true /\ k (S i) rest = true.
Proof.
  destruct s as [|x s']; simpl.
  - split; [discriminate | intros (x & rest & E & _); discriminate].
  - rewrite andb_true_iff. split.
    + intros [Hp Hk]. exists x, s'. auto.
    + intros (y & rest & E & Hp & Hk). inversion E; subst. auto.
Qed.

Lemma star_inv (r : regex) (i : nat) (w rest : str) :
  matches ignoreCase (Star r) i w rest ->
  w = [] \/
  exists w1 w2,
    w = w1 ++ w2 /\ w1 <> [] /\ matches ignoreCase r i w1 (w2 ++ rest)
    /\ matches ignoreCase (Star r) (i + List.length w1) w2 rest.
Proof.
  inversion 1; subst; [left; reflexivity | right; eauto 10].
Qed.

Lemma repeat_from_spec (r : regex) m :
  sound_complete ignoreCase r m ->
  forall fuel i s k,
    List.length s <= fuel ->
    (repeat_from m fuel i s k = true <->
     exists w rest, s = w ++ rest /\ matches ignoreCase (Star r) i w rest
                    /\ k (i + List.length w) rest = true).
Proof.
  intros Hm. unfold sound_complete in Hm. induction fuel as [|f IH]; intros i s k Hlen; simpl.
  - assert (s = []) by (destruct s; simpl in *; [reflexivity | lia]). subst.
    split.
    + intros Hk. exists [], []. rewrite Nat.add_0_r.
      repeat split; [constructor | assumption].
    + intros (w & rest & E & _ & Hk).
      symmetry in E. apply app_eq_nil in E as [-> ->].
      simpl in Hk. rewrite Nat.add_0_r in Hk. assumption.
  - rewrite orb_true_iff, Hm. split.
    + intros [(w1 & rest1 & E & H1 & Hk) | Hk].
      * apply andb_true_iff in Hk as [Hlt Hrep].
        apply Nat.ltb_lt in Hlt.
        assert (Hf : List.length rest1 <= f) by lia.
        apply (IH _ _ _ Hf) in Hrep as (w2 & rest & E2 & H2 & Hk).
        subst. exists (w1 ++ w2), rest.
        rewrite <- app_assoc, length_app, Nat.add_assoc.
        repeat split; try assumption.
        apply MStarCons; try assumption.
        intros ->. simpl in Hlt. lia.
      * exists [], s. rewrite Nat.add_0_r.
        repeat split; [constructor | assumption].
    + intros (w & rest & E & H & Hk). subst s.
      apply star_inv in H as [-> | (w1 & w2 & -> & Hne & H1 & H2)].
      * right. simpl in Hk. rewrite Nat.add_0_r in Hk. assumption.
      * left. exists w1, (w2 ++ rest). rewrite <- app_assoc.
        repeat split; try assumption.
        apply andb_true_iff. split.
        -- apply Nat.ltb_lt. rewrite !length_app.
           destruct w1; [congruence | simpl; lia].
        -- apply IH.
           ++ rewrite !length_app in Hlen. rewrite length_app.
              destruct w1; [congruence | simpl in *; lia].
           ++ exists w2, rest. repeat split; try assumption.
              rewrite length_app, Nat.add_assoc in Hk. assumption.
Qed.

Ltac one_case :=
  rewrite one_spec; split;
  [ intros (x & rest & E & Hp & Hk); exists [x], rest; simpl;
    rewrite Nat.add_1_r;
    repeat split; [assumption | constructor; assumption | assumption]
  | intros (w & rest & E & H & Hk); inversion H; subst; simpl in Hk;
    rewrite Nat.add_1_r in Hk; do 2 eexists; repeat split; eassumption ].

Lemma rmatch_spec (r : regex) : sound_complete ignoreCase r (rmatch ignoreCase r).
Proof.
  induction r as [ | c | | | | r1 IH1 r2 IH2 | r1 IH1 r2 IH2
                   | r IH | r IH | r IH | | ];
    unfold sound_complete in *; intros i s k; simpl.
  - (* Eps *)
    split.
    + intros Hk. exists [], s. rewrite Nat.add_0_r.
      repeat split; [constructor | assumption].
    + intros (w & rest & E & H & Hk). inversion H; subst.
      simpl in Hk. rewrite Nat.add_0_r in Hk. assumption.
  - (* Chr *) one_case.
  - one_case.
  - one_case.
  - one_case.
  - (* Seq *)
    rewrite IH1. split.
    + intros (w1 & rest1 & E & H1 & Hk).
      apply IH2 in Hk as (w2 & rest & E2 & H2 & Hk). subst.
      exists (w1 ++ w2), rest.
      rewrite <- app_assoc, length_app, Nat.add_assoc.
      repeat split; try assumption. constructor; assumption.
    + intros (w & rest & E & H & Hk). inversion H; subst.
      exists w1, (w2 ++ rest). rewrite <- app_assoc.
      repeat split; try assumption.
      apply IH2. exists w2, rest.
      rewrite length_app, Nat.add_assoc in Hk. auto.
  - (* Alt *)
    rewrite orb_true_iff, IH1, IH2. split.
    + intros [(w & rest & E & H & Hk) | (w & rest & E & H & Hk)];
        exists w, rest; repeat split; try assumption;
        [apply MAltL | apply MAltR]; assumption.
    + intros (w & rest & E & H & Hk). inversion H; subst;
        [left | right]; eauto.
  - (* Star *)
    apply (repeat_from_spec IH). apply Nat.le_refl.
  - (* Plus *)
    rewrite IH. split.
    + intros (w1 & rest1 & E & H1 & Hk).
      apply (repeat_from_spec IH) in Hk as (w2 & rest & E2 & H2 & Hk);
        [| apply Nat.le_refl].
      subst. exists (w1 ++ w2), rest.
      rewrite <- app_assoc, length_app, Nat.add_assoc.
      repeat split; try assumption. constructor; assumption.
    + intros (w & rest & E & H & Hk). inversion H; subst.
      exists w1, (w2 ++ rest). rewrite <- app_assoc.
      repeat split; try assumption.
      apply (repeat_from_spec IH); [apply Nat.le_refl |].
      exists w2, rest. rewrite length_app, Nat.add_assoc in Hk. auto.
  - (* Opt *)
    rewrite orb_true_iff, IH. split.
    + intros [(w & rest & E & H & Hk) | Hk].
      * exists w, rest. repeat split; try assumption. constructor; assumption.
      * exists [], s. rewrite Nat.add_0_r.
        repeat split; [apply MOptNone | assumption].
    + intros (w & rest & E & H & Hk). inversion H; subst.
      * left; eauto.
      * right. simpl in Hk. rewrite Nat.add_0_r in Hk. assumption.
  - (* Bol *)
    rewrite andb_true_iff, Nat.eqb_eq. split.
    + intros [-> Hk]. exists [], s. repeat split; [constructor | assumption].
    + intros (w & rest & E & H & Hk). inversion H; subst. auto.
  - (* Eol *)
    split.
    + destruct s; [| discriminate]. intros Hk. exists [], [].
      rewrite Nat.add_0_r. repeat split; [constructor | assumption].
    + intros (w & rest & E & H & Hk). inversion H; subst.
      simpl in Hk. rewrite Nat.add_0_r in Hk. assumption.
Qed.

Lemma search_spec (r : regex) (s : str) (i : nat) :
  search ignoreCase r i s = true <->
  exists before w after,
    s = before ++ w ++ after
    /\ matches ignoreCase r (i + List.length before) w after.
Proof.
  revert i. induction s as [|c s IH]; intros i; simpl.
  - rewrite orb_false_r, (rmatch_spec r _ _ _). split.
    + intros (w & rest & E & H & _). exists [], w, rest.
      simpl. rewrite Nat.add_0_r. auto.
    + intros (before & w & after & E & H).
      destruct before; [| discriminate]. simpl in *.
      rewrite Nat.add_0_r in H. exists w, after. auto.
  - rewrite orb_true_iff, (rmatch_spec r _ _ _), IH. split.
    + intros [(w & rest & E & H & _) | (before & w & after & E & H)].
      * exists [], w, rest. simpl. rewrite Nat.add_0_r. auto.
      * exists (c :: before), w, after. simpl. subst.
        rewrite Nat.add_succ_r. auto.
    + intros (before & w & after & E & H). destruct before as [|b before].
      * left. simpl in *. rewrite Nat.add_0_r in H. exists w, after. auto.
      * right. simpl in *. inversion E; subst.
        exists before, w, after. rewrite Nat.add_succ_r in H. auto.
Qed.

Lemma test_spec (r : regex) (s : str) :
  test ignoreCase r s = true <-> text_matches ignoreCase r s.
Proof. unfold test, text_matches. rewrite search_spec. reflexivity. Qed.

(** ** Reading a match off a pattern *)

Lemma matches_seq (r1 r2 : regex) (i : nat) (w rest : str) :
  matches ignoreCase (Seq r1 r2) i w rest <->
  exists w1 w2,
    w = w1 ++ w2 /\ matches ignoreCase r1 i w1 (w2 ++ rest)
    /\ matches ignoreCase r2 (i + List.length w1) w2 rest.
Proof.
  split.
  - inversion 1; subst; eauto.
  - intros (w1 & w2 & -> & H1 & H2). constructor; assumption.
Qed.

Lemma matches_alt (r1 r2 : regex) (i : nat) (w rest : str) :
  matches ignoreCase (Alt r1 r2) i w rest <->
  matches ignoreCase r1 i w rest \/ matches ignoreCase r2 i w rest.
Proof.
  split.
  - inversion 1; subst; auto.
  - intros [H | H]; [apply MAltL | apply MAltR]; assumption.
Qed.

Lemma matches_opt (r : regex) (i : nat) (w rest : str) :
  matches ignoreCase (Opt r) i w rest <->
  w = [] \/ matches ignoreCase r i w rest.
Proof.
  split.
  - inversion 1; subst; auto.
  - intros [-> | H]; [apply MOptNone | apply MOptSome; assumption].
Qed.

Lemma matches_eol (i : nat) (w rest : str) :
  matches ignoreCase Eol i w rest <-> w = [] /\ rest = [].
Proof.
  split.
  - inversion 1; subst; auto.
  - intros [-> ->]. constructor.
Qed.

Lemma matches_bol (i : nat) (w rest : str) :
  matches ignoreCase Bol i w rest <-> w = [] /\ i = 0.
Proof.
  split.
  - inversion 1; subst; auto.
  - intros [-> ->]. constructor.
Qed.

Lemma matches_chr (c : N) (i : nat) (w rest : str) :
  matches ignoreCase (Chr c) i w rest <->
  exists x, w = [x] /\ chr_matches ignoreCase c x = true.
Proof.
  split.
  - inversion 1; subst; eauto.
  - intros (x & -> & H). constructor; assumption.
Qed.

Lemma matches_chars (p : str) :
  forall (i : nat) (w rest : str),
    matches ignoreCase (chars p) i w rest <->
    Forall2 (fun c x => chr_matches ignoreCase c x = true) p w.
Proof.
  induction p as [| c p IH]; intros i w rest; cbn [chars].
  - split.
    + inversion 1; subst. constructor.
    + inversion 1; subst. constructor.
  - rewrite matches_seq. split.
    + intros (w1 & w2 & -> & H1 & H2).
      apply matches_chr in H1 as (x & -> & Hx).
      constructor; [assumption |]. eapply IH; eassumption.
    + inversion 1 as [| c0 x p0 w' Hx Hrest]; subst.
      exists [x], w'. split; [reflexivity |].
      split; [constructor; assumption | eapply IH; eassumption].
Qed.

Lemma matches_class (r : regex) (p : N -> bool) :
  class_of r = Some p ->
  forall (i : nat) (w rest : str),
    matches ignoreCase r i w rest <-> exists x, w = [x] /\ p x = true.
Proof.
  destruct r; simpl; intros E i w rest; inversion E; subst; clear E;
    (split; [inversion 1; subst; eauto
            | intros (x & -> & H); constructor; assumption]).
Qed.

Lemma matches_star_class (r : regex) (p : N -> bool) :
  class_of r = Some p ->
  forall (i : nat) (w rest : str),
    matches ignoreCase (Star r) i w rest <-> all_in p w.
Proof.
  intros Hc i w rest. unfold all_in. split.
  - intros H. remember (Star r) as sr eqn:E. revert E.
    induction H; intros E; inversion E; subst; clear E; [reflexivity |].
    apply (matches_class r Hc) in H0 as (x & -> & Hx).
    simpl. rewrite Hx. simpl. auto.
  - revert i. induction w as [| x w IH]; intros i Hall; [constructor |].
    simpl in Hall. apply andb_true_iff in Hall as [Hx Hall].
    change (x :: w) with ([x] ++ w). apply MStarCons.
    + discriminate.
    + apply (matches_class r Hc). eauto.
    + apply IH, Hall.
Qed.

Lemma matches_plus_class (r : regex) (p : N -> bool) :
  class_of r = Some p ->
  forall (i : nat) (w rest : str),
    matches ignoreCase (Plus r) i w rest <-> w <> [] /\ all_in p w.
Proof.
  intros Hc i w rest. split.
  - inversion 1 as [| | | | | | | | | |r0 i0 w1 w2 rest0 H1 H2 | | | |]; subst.
    apply (matches_class r Hc) in H1 as (x & -> & Hx).
    apply (matches_star_class r Hc) in H2.
    split; [discriminate |]. unfold all_in in *. simpl. rewrite Hx. exact H2.
  - intros [Hne Hall]. destruct w as [| x w]; [congruence |].
    unfold all_in in Hall. simpl in Hall.
    apply andb_true_iff in Hall as [Hx Hall].
    change (x :: w) with ([x] ++ w). apply MPlus.
    + apply (matches_class r Hc). eauto.
    + apply (matches_star_class r Hc), Hall.
Qed.

End Correctness.

(** Under the [i] flag, a run of pattern characters matches the texts
    that spell it, letter case aside; a semicolon matches itself only. *)
Lemma matches_letters (p : str) (i : nat) (w rest : str) :
  matches true (chars p) i w rest <-> same_letters p w.
Proof.
  rewrite matches_chars. unfold same_letters, chr_matches.
  split; intros H; induction H; constructor; auto.
  - apply N.eqb_eq. assumption.
  - apply N.eqb_eq. assumption.
Qed.

Lemma semicolon_only (x : N) : chr_matches true 59 x = true <-> x = 59%N.
Proof.
  unfold chr_matches, canonicalize, is_lower. rewrite N.eqb_eq. simpl.
  destruct ((97 <=? x)%N && (x <=? 122)%N) eqn:E.
  - apply andb_true_iff in E as [E1 E2].
    apply N.leb_le in E1. apply N.leb_le in E2. split; lia.
  - split; congruence.
Qed.

Lemma matches_spaces (i : nat) (w rest : str) :
  matches true (Star Space) i w rest <-> all_in is_space w.
Proof. apply (@matches_star_class true Space is_space eq_refl). Qed.

Lemma matches_spaces1 (i : nat) (w rest : str) :
  matches true (Plus Space) i w rest <-> w <> [] /\ all_in is_space w.
Proof. apply (@matches_plus_class true Space is_space eq_refl). Qed.

Lemma matches_digits1 (i : nat) (w rest : str) :
  matches true (Plus Digit) i w rest <-> w <> [] /\ all_in is_digit w.
Proof. apply (@matches_plus_class true Digit is_digit eq_refl). Qed.

Lemma matches_words1 (i : nat) (w rest : str) :
  matches true (Plus Word) i w rest <-> w <> [] /\ all_in is_word w.
Proof. apply (@matches_plus_class true Word is_word eq_refl). Qed.

Lemma matches_optional_semicolon (i : nat) (w rest : str) :
  matches true (Opt (Chr 59)) i w rest <-> w = [] \/ w = [59%N].
Proof.
  rewrite matches_opt, matches_chr. split.
  - intros [-> | (x & -> & Hx)]; [left; reflexivity |].
    apply semicolon_only in Hx. subst. right; reflexivity.
  - intros [-> | ->]; [left; reflexivity |].
    right. exists 59%N. split; reflexivity.
Qed.

End RegexFacts.

(* ================================================================== *)
(** * The SQL validator *)
(* ================================================================== *)

Module ValidatorFacts.
Import Validator RegexFacts.

(** ** The three patterns *)

Lemma limit_pattern_spec (s : str) :
  Regex.text_matches true limit_pattern s <-> has_limit_clause s.
Proof.
  unfold Regex.text_matches, limit_pattern, has_limit_clause.
  cbn [Regex.cat]. split.
  - intros (before & w & after & -> & H).
    apply matches_seq in H as (kw & w' & -> & Hkw & H).
    apply matches_seq in H as (ws & ds & -> & Hws & Hds).
    apply matches_letters in Hkw.
    apply matches_spaces1 in Hws as [Hne1 Hws].
    apply matches_digits1 in Hds as [Hne2 Hds].
    exists before, kw, ws, ds, after. rewrite <- !app_assoc. auto 10.
  - intros (before & kw & ws & ds & after & -> & Hkw & Hne1 & Hws & Hne2 & Hds).
    exists before, (kw ++ ws ++ ds), after. rewrite <- !app_assoc.
    split; [reflexivity |].
    apply matches_seq. exists kw, (ws ++ ds).
    split; [reflexivity | split; [apply matches_letters, Hkw |]].
    apply matches_seq. exists ws, ds.
    split; [reflexivity | split].
    + apply matches_spaces1. auto.
    + apply matches_digits1. auto.
Qed.

Lemma select_pattern_spec (s : str) :
  Regex.text_matches true select_pattern s <-> starts_with (lit "SELECT") s.
Proof.
  unfold Regex.text_matches, select_pattern, starts_with.
  cbn [Regex.cat]. split.
  - intros (before & w & after & -> & H).
    apply matches_seq in H as (w0 & kw & -> & H0 & Hkw).
    apply matches_bol in H0 as [-> Hi].
    apply length_zero_iff_nil in Hi. subst before.
    apply matches_letters in Hkw. exists kw, after. auto.
  - intros (kw & after & -> & Hkw).
    exists [], kw, after. split; [reflexivity |].
    apply matches_seq. exists [], kw.
    split; [reflexivity | split; [apply matches_bol; auto |]].
    apply matches_letters, Hkw.
Qed.

Lemma delete_tail_spec (i : nat) (w after : str) :
  Regex.matches true
    (Regex.cat
       [Regex.chars (lit "DELETE"); Regex.Plus Regex.Space;
        Regex.chars (lit "FROM"); Regex.Plus Regex.Space;
        Regex.Plus Regex.Word; Regex.Star Regex.Space;
        Regex.Opt (Regex.Chr 59); Regex.Star Regex.Space; Regex.Eol])
    i w after
  <-> delete_from_to_end w /\ after = [].
Proof.
  unfold delete_from_to_end. cbn [Regex.cat]. split.
  - intros H.
    apply matches_seq in H as (kw1 & w1 & -> & Hkw1 & H).
    apply matches_seq in H as (ws1 & w2 & -> & Hws1 & H).
    apply matches_seq in H as (kw2 & w3 & -> & Hkw2 & H).
    apply matches_seq in H as (ws2 & w4 & -> & Hws2 & H).
    apply matches_seq in H as (ident & w5 & -> & Hident & H).
    apply matches_seq in H as (ws3 & w6 & -> & Hws3 & H).
    apply matches_seq in H as (semi & w7 & -> & Hsemi & H).
    apply matches_seq in H as (ws4 & w8 & -> & Hws4 & H).
    apply matches_eol in H as [-> ->].
    apply matches_letters in Hkw1, Hkw2.
    apply matches_spaces1 in Hws1 as [? ?], Hws2 as [? ?].
    apply matches_words1 in Hident as [? ?].
    apply matches_spaces in Hws3, Hws4.
    apply matches_optional_semicolon in Hsemi.
    split; [| reflexivity].
    exists kw1, ws1, kw2, ws2, ident, ws3, semi, ws4.
    rewrite app_nil_r. auto 20.
  - intros [(kw1 & ws1 & kw2 & ws2 & ident & ws3 & semi & ws4 & -> & Hkw1
             & Hne1 & Hws1 & Hkw2 & Hne2 & Hws2 & Hne3 & Hident & Hws3
             & Hsemi & Hws4) ->].
    apply matches_seq. exists kw1, (ws1 ++ kw2 ++ ws2 ++ ident ++ ws3 ++ semi ++ ws4).
    split; [reflexivity | split; [apply matches_letters, Hkw1 |]].
    apply matches_seq. exists ws1, (kw2 ++ ws2 ++ ident ++ ws3 ++ semi ++ ws4).
    split; [reflexivity | split; [apply matches_spaces1; auto |]].
    apply matches_seq. exists kw2, (ws2 ++ ident ++ ws3 ++ semi ++ ws4).
    split; [reflexivity | split; [apply matches_letters, Hkw2 |]].
    apply matches_seq. exists ws2, (ident ++ ws3 ++ semi ++ ws4).
    split; [reflexivity | split; [apply matches_spaces1; auto |]].
    apply matches_seq. exists ident, (ws3 ++ semi ++ ws4).
    split; [reflexivity | split; [apply matches_words1; auto |]].
    apply matches_seq. exists ws3, (semi ++ ws4).
    split; [reflexivity | split; [apply matches_spaces, Hws3 |]].
    apply matches_seq. exists semi, ws4.
    split; [reflexivity | split; [apply matches_optional_semicolon, Hsemi |]].
    apply matches_seq. exists ws4, [].
    split; [symmetry; apply app_nil_r | split; [apply matches_spaces, Hws4 |]].
    apply matches_eol. auto.
Qed.

Lemma stacked_intro (r : Regex.regex) (before ws w after : str) :
  Regex.all_in is_space ws ->
  (forall i, Regex.matches true r i w after) ->
  Regex.text_matches true
    (Regex.Seq (Regex.Chr 59) (Regex.Seq (Regex.Star Regex.Space) r))
    (before ++ [59%N] ++ ws ++ w ++ after).
Proof.
  intros Hws Hr. exists before, ([59%N] ++ ws ++ w), after.
  rewrite <- !app_assoc. split; [reflexivity |].
  apply matches_seq. exists [59%N], (ws ++ w).
  split; [reflexivity | split; [constructor; reflexivity |]].
  apply matches_seq. exists ws, w.
  split; [reflexivity | split; [apply matches_spaces, Hws | apply Hr]].
Qed.

Lemma dangerous_pattern_spec (s : str) :
  Regex.text_matches true dangerous_pattern s <-> has_stacked_statement s.
Proof.
  unfold Regex.text_matches, dangerous_pattern, has_stacked_statement.
  cbv zeta. cbn [Regex.cat]. split.
  - intros (before & w & after & -> & H).
    apply matches_seq in H as (semi & w1 & -> & Hsemi & H).
    apply matches_seq in H as (ws & w2 & -> & Hws & H).
    apply matches_chr in Hsemi as (x & -> & Hx).
    apply semicolon_only in Hx. subst x.
    apply matches_spaces in Hws.
    exists before, ws, (w2 ++ after). rewrite <- !app_assoc.
    split; [reflexivity | split; [assumption |]].
    apply matches_alt in H as [H | H]; [| apply matches_alt in H as [H | H]].
    + left. exists w2, after. split; [reflexivity | apply matches_letters in H; exact H].
    + right; left. exists w2, after.
      split; [reflexivity | apply matches_letters in H; exact H].
    + right; right. apply delete_tail_spec in H as [H ->].
      rewrite app_nil_r. exact H.
  - intros (before & ws & tail & -> & Hws & Htail).
    destruct Htail as [(kw & after & -> & Hkw) | [(kw & after & -> & Hkw) | Hdel]].
    + apply stacked_intro; [assumption |]. intros i.
      apply matches_alt. left. apply matches_letters, Hkw.
    + apply stacked_intro; [assumption |]. intros i.
      apply matches_alt. right. apply matches_alt. left.
      apply matches_letters, Hkw.
    + rewrite <- (app_nil_r tail).
      apply stacked_intro; [assumption |]. intros i.
      apply matches_alt. right. apply matches_alt. right.
      apply delete_tail_spec. auto.
Qed.

Section WithParser.
Context {B : Builtins} {P : SqlParser}.

Lemma analyze_cases (sql : jsval) :
  analyze sql =
  match astify sql with
  | Returned (Multiple stmts) =>
      Returned
        (analyzeStatements stmts
           (push_warning (lit "Multiple statements detected")
              (set_isValid true initial_result)))
  | Returned (Single stmt) =>
      Returned (analyzeStatement stmt (set_isValid true initial_result))
  | Thrown message =>
      Returned (push_error (lit "Parse error: " ++ message) initial_result)
  end.
Proof.
  unfold analyze, try_catch, obind.
  destruct (astify sql) as [[stmt | stmts] | message]; reflexivity.
Qed.

Lemma analyze_total (sql : jsval) : exists result, analyze sql = Returned result.
Proof.
  rewrite analyze_cases.
  destruct (astify sql) as [[stmt | stmts] | message]; eauto.
Qed.

(** ** What [analyzeStatement] leaves alone *)

Lemma analyzeStatement_skip (stmt : option Statement) (result : SQLAnalysis) :
  has_kind stmt = false -> analyzeStatement stmt result = result.
Proof.
  destruct stmt as [stmt |]; simpl; [| reflexivity].
  intros ->. reflexivity.
Qed.

Lemma analyzeStatement_frame (stmt : option Statement) (result : SQLAnalysis) :
  isValid (analyzeStatement stmt result) = isValid result
  /\ errors (analyzeStatement stmt result) = errors result
  /\ warnings (analyzeStatement stmt result) = warnings result.
Proof.
  destruct stmt as [stmt |]; simpl; [| auto].
  destruct (present (stmt_type stmt)); simpl; auto.
Qed.

Lemma analyzeStatements_frame (stmts : list (option Statement)) :
  forall result,
    isValid (analyzeStatements stmts result) = isValid result
    /\ errors (analyzeStatements stmts result) = errors result
    /\ warnings (analyzeStatements stmts result) = warnings result.
Proof.
  induction stmts as [| stmt rest IH]; intros result; simpl; [auto |].
  destruct (IH (analyzeStatement stmt result)) as (-> & -> & ->).
  apply analyzeStatement_frame.
Qed.

Lemma analyzeStatements_fold (stmts : list (option Statement)) :
  forall result,
    analyzeStatements stmts result =
    fold_left (fun r stmt => analyzeStatement stmt r) stmts result.
Proof.
  induction stmts as [| stmt rest IH]; intros result; simpl; auto.
Qed.

Lemma analyzeStatements_app (l1 l2 : list (option Statement)) :
  forall result,
    analyzeStatements (l1 ++ l2) result =
    analyzeStatements l2 (analyzeStatements l1 result).
Proof.
  induction l1 as [| stmt rest IH]; intros result; simpl; auto.
Qed.

Lemma analyzeStatements_skip (stmts : list (option Statement)) :
  Forall (fun stmt => has_kind stmt = false) stmts ->
  forall result, analyzeStatements stmts result = result.
Proof.
  induction 1 as [| stmt rest Hs _ IH]; intros result; simpl; [reflexivity |].
  rewrite (analyzeStatement_skip _ _ Hs). apply IH.
Qed.

Lemma analyzeStatement_type (stmt : Statement) (result : SQLAnalysis) :
  present (stmt_type stmt) = true ->
  type (analyzeStatement (Some stmt) result) = toLowerCase (kind stmt).
Proof. simpl. intros ->. reflexivity. Qed.

(** ** The read-only flag *)

Lemma analyzeStatement_write (stmt : Statement) (result : SQLAnalysis) :
  present (stmt_type stmt) = true ->
  In (toLowerCase (kind stmt)) writeOperations ->
  isReadOnly (analyzeStatement (Some stmt) result) = false.
Proof.
  intros Hk Hw. apply JsStringFacts.includes_In in Hw.
  unfold analyzeStatement. rewrite Hk. simpl.
  unfold kind in Hw. rewrite Hw. reflexivity.
Qed.

Lemma analyzeStatement_keeps_false (stmt : option Statement)
    (result : SQLAnalysis) :
  isReadOnly result = false ->
  isReadOnly (analyzeStatement stmt result) = false.
Proof.
  intros H. destruct stmt as [stmt |]; simpl; [| assumption].
  destruct (present (stmt_type stmt)); simpl; [| assumption].
  destruct (includes writeOperations _); [reflexivity | assumption].
Qed.

Lemma analyzeStatements_keeps_false (stmts : list (option Statement)) :
  forall result,
    isReadOnly result = false ->
    isReadOnly (analyzeStatements stmts result) = false.
Proof.
  induction stmts as [| stmt rest IH]; intros result H; simpl; [assumption |].
  apply IH, analyzeStatement_keeps_false, H.
Qed.

Lemma analyzeStatement_flagged (stmt : option Statement) (result : SQLAnalysis) :
  write_is_flagged result -> write_is_flagged (analyzeStatement stmt result).
Proof.
  unfold write_is_flagged. intros H.
  destruct stmt as [stmt |]; simpl; [| assumption].
  destruct (present (stmt_type stmt)); simpl; [| assumption].
  destruct (includes writeOperations (toLowerCase _)) eqn:E;
    [reflexivity | discriminate].
Qed.

Lemma analyzeStatements_flagged (stmts : list (option Statement)) :
  forall result,
    write_is_flagged result -> write_is_flagged (analyzeStatements stmts result).
Proof.
  induction stmts as [| stmt rest IH]; intros result H; simpl; [assumption |].
  apply IH, analyzeStatement_flagged, H.
Qed.

Lemma analyze_flagged (sql : jsval) (result : SQLAnalysis) :
  analyze sql = Returned result -> write_is_flagged result.
Proof.
  rewrite analyze_cases.
  destruct (astify sql) as [[stmt | stmts] | message]; intros E;
    inversion E; subst; clear E.
  - apply analyzeStatement_flagged. intros H; discriminate H.
  - apply analyzeStatements_flagged. intros H; discriminate H.
  - intros H; discriminate H.
Qed.

(** C5: [analyze] never raises, whatever it is given: it always returns
    a result, and when the parser fails on the input the result has
    [isValid = false], the recorded parse error, and the defaults
    [isReadOnly = true], [type = "unknown"] and no referenced table. *)
Theorem analyze_never_raises (sql : jsval) :
  (exists result, analyze sql = Returned result)
  /\ (forall message,
        astify sql = Thrown message ->
        analyze sql =
        Returned {| isValid := false;
                    isReadOnly := true;
                    type := lit "unknown";
                    tables := [];
                    errors := [lit "Parse error: " ++ message];
                    warnings := [] |}).
Proof.
  split; [apply analyze_total |].
  intros message H. rewrite analyze_cases, H. reflexivity.
Qed.

(** C6: when the text parses into an array of statements, [analyze]
    records the warning "Multiple statements detected", analyzes the
    statements in array order, and the resulting [type] is the lowercase
    kind of the statement analyzed last; it stays "unknown" when no
    statement of the array gets past the guard of [analyzeStatement]. *)
Theorem analyze_multiple_statements (sql : jsval)
    (stmts : list (option Statement)) :
  astify sql = Returned (Multiple stmts) ->
  exists result,
    analyze sql = Returned result
    /\ warnings result = [lit "Multiple statements detected"]
    /\ result =
       fold_left (fun r stmt => analyzeStatement stmt r) stmts
         (push_warning (lit "Multiple statements detected")
            (set_isValid true initial_result))
    /\ (forall before last after,
          stmts = before ++ Some last :: after ->
          present (stmt_type last) = true ->
          Forall (fun stmt => has_kind stmt = false) after ->
          type result = toLowerCase (kind last))
    /\ (Forall (fun stmt => has_kind stmt = false) stmts ->
        type result = lit "unknown").
Proof.
  intros H. eexists. rewrite analyze_cases, H.
  split; [reflexivity |]. split; [| split; [| split]].
  - destruct (analyzeStatements_frame stmts
                (push_warning (lit "Multiple statements detected")
                   (set_isValid true initial_result))) as (_ & _ & ->).
    reflexivity.
  - apply analyzeStatements_fold.
  - intros before last after -> Hk Hafter.
    rewrite analyzeStatements_app. simpl.
    rewrite (analyzeStatements_skip Hafter).
    apply analyzeStatement_type, Hk.
  - intros Hall. rewrite (analyzeStatements_skip Hall). reflexivity.
Qed.

(** C10: when the text parses into an array of statements and at least
    one of them has a kind in the write set, [analyze] returns
    [isReadOnly = false], wherever that statement stands in the array and
    whatever the last statement is: once the flag is lowered, no later
    statement raises it again. *)
Theorem write_statement_lowers_isReadOnly :
  (forall (sql : jsval) (stmts : list (option Statement)) (stmt : Statement),
      astify sql = Returned (Multiple stmts) ->
      In (Some stmt) stmts ->
      present (stmt_type stmt) = true ->
      In (toLowerCase (kind stmt)) writeOperations ->
      exists result, analyze sql = Returned result /\ isReadOnly result = false)
  /\ (forall (stmt : option Statement) (result : SQLAnalysis),
        isReadOnly result = false ->
        isReadOnly (analyzeStatement stmt result) = false).
Proof.
  split; [| apply analyzeStatement_keeps_false].
  intros sql stmts stmt H Hin Hk Hw.
  eexists. rewrite analyze_cases, H. split; [reflexivity |].
  apply in_split in Hin as (before & after & ->).
  rewrite analyzeStatements_app. simpl analyzeStatements.
  apply analyzeStatements_keeps_false, analyzeStatement_write; assumption.
Qed.

(** ** [validateSafe] *)

Lemma validateSafe_cases (sql : str) (readOnlyMode : bool)
    (analysis : SQLAnalysis) :
  analyze (VStr sql) = Returned analysis ->
  validateSafe (VStr sql) readOnlyMode =
  Returned
    (if negb (isValid analysis) then
       {| safe := false; reason := Some (join (lit "; ") (errors analysis)) |}
     else if readOnlyMode && negb (isReadOnly analysis) then
       {| safe := false;
          reason := Some (lit "Write operations not allowed in read-only mode") |}
     else if Regex.test true dangerous_pattern sql then
       {| safe := false;
          reason := Some (lit "Potentially dangerous operation detected") |}
     else {| safe := true; reason := None |}).
Proof.
  intros H. unfold validateSafe. rewrite H. simpl.
  destruct (negb (isValid analysis)); [reflexivity |].
  destruct (readOnlyMode && negb (isReadOnly analysis)); [reflexivity |].
  destruct (Regex.test true dangerous_pattern sql); reflexivity.
Qed.

(** C2: on every text, [validateSafe] returns a verdict, and the verdict
    is unsafe exactly when [analyze] reports the text invalid (the reason
    is then the parse errors joined by "; "), or the call is in read-only
    mode and the analysis is not read-only (the reason is then "Write
    operations not allowed in read-only mode"), or the text holds a
    stacked statement, which is what the pattern of the source matches
    ([dangerous_pattern_spec]), in either mode.  "SELECT 1; DROP TABLE
    customers" is unsafe in both modes whatever the parser does, and
    under a parser for which "DELETE FROM customers" analyses as a valid
    [delete] statement, that text is safe outside read-only mode and unsafe
    in it. *)
Theorem validateSafe_characterisation :
  (forall (sql : str) (readOnlyMode : bool),
      exists analysis verdict,
        analyze (VStr sql) = Returned analysis
        /\ validateSafe (VStr sql) readOnlyMode = Returned verdict
        /\ (safe verdict = false <->
            isValid analysis = false
            \/ (readOnlyMode = true /\ isReadOnly analysis = false)
            \/ has_stacked_statement sql)
        /\ (isValid analysis = false ->
            reason verdict = Some (join (lit "; ") (errors analysis)))
        /\ (isValid analysis = true ->
            readOnlyMode = true -> isReadOnly analysis = false ->
            reason verdict =
            Some (lit "Write operations not allowed in read-only mode"))
        /\ (safe verdict = true -> reason verdict = None))
  /\ (forall readOnlyMode : bool,
        exists verdict,
          validateSafe (VStr (lit "SELECT 1; DROP TABLE customers")) readOnlyMode
          = Returned verdict
          /\ safe verdict = false)
  /\ (forall analysis,
        analyze (VStr (lit "DELETE FROM customers")) = Returned analysis ->
        isValid analysis = true ->
        type analysis = lit "delete" ->
        validateSafe (VStr (lit "DELETE FROM customers")) false
        = Returned {| safe := true; reason := None |}
        /\ exists verdict,
             validateSafe (VStr (lit "DELETE FROM customers")) true
             = Returned verdict
             /\ safe verdict = false).
Proof.
  split; [| split].
  - intros sql readOnlyMode.
    destruct (analyze_total (VStr sql)) as [analysis Ha].
    exists analysis. eexists. split; [exact Ha |].
    rewrite (validateSafe_cases _ _ Ha). split; [reflexivity |].
    rewrite <- dangerous_pattern_spec, <- test_spec.
    destruct (isValid analysis), readOnlyMode, (isReadOnly analysis),
      (Regex.test true dangerous_pattern sql); simpl;
      repeat split; intros; try discriminate; try reflexivity; try tauto;
      intuition discriminate.
  - intros readOnlyMode.
    destruct (analyze_total (VStr (lit "SELECT 1; DROP TABLE customers")))
      as [analysis Ha].
    eexists. rewrite (validateSafe_cases _ _ Ha). split; [reflexivity |].
    destruct (negb (isValid analysis)); [reflexivity |].
    destruct (readOnlyMode && negb (isReadOnly analysis)); [reflexivity |].
    reflexivity.
  - intros analysis Ha Hvalid Htype.
    assert (Hro : isReadOnly analysis = false).
    { apply (analyze_flagged _ Ha). rewrite Htype. reflexivity. }
    rewrite !(validateSafe_cases _ _ Ha), Hvalid, Hro. simpl.
    split; [reflexivity | eexists; split; reflexivity].
Qed.

(** ** [addLimit] *)

Lemma addLimit_cases (sql : str) (limit : jsval) :
  addLimit (VStr sql) limit =
  Returned
    (if Regex.test true limit_pattern (trim sql) then VStr sql
     else if Regex.test true select_pattern (trim sql)
     then VStr (trim sql ++ lit " LIMIT " ++ ToString (default_limit limit))
     else VStr sql).
Proof.
  unfold addLimit, default_limit. simpl.
  destruct (Regex.test true limit_pattern (trim sql)); [reflexivity |].
  destruct (Regex.test true select_pattern (trim sql)); reflexivity.
Qed.

(** C7: [addLimit] returns its input unchanged when the trimmed text
    holds a LIMIT clause (LIMIT, white space, a digit; letter case aside,
    anywhere in the text); otherwise, when the trimmed text starts with
    SELECT (letter case aside), it returns the trimmed text followed by
    " LIMIT " and the limit, which is 1000 when none is given; for any
    other text it returns the input unchanged. *)
Theorem addLimit_characterisation :
  (forall (sql : str) (limit : jsval),
      (has_limit_clause (trim sql) ->
       addLimit (VStr sql) limit = Returned (VStr sql))
      /\ (~ has_limit_clause (trim sql) ->
          starts_with (lit "SELECT") (trim sql) ->
          addLimit (VStr sql) limit =
          Returned (VStr (trim sql ++ lit " LIMIT "
                            ++ ToString (default_limit limit))))
      /\ (~ has_limit_clause (trim sql) ->
          ~ starts_with (lit "SELECT") (trim sql) ->
          addLimit (VStr sql) limit = Returned (VStr sql)))
  /\ addLimit (VStr (lit "SELECT * FROM t")) (VNum 1000)
     = Returned (VStr (lit "SELECT * FROM t LIMIT 1000"))
  /\ addLimit (VStr (lit "SELECT * FROM t LIMIT 5")) VUndefined
     = Returned (VStr (lit "SELECT * FROM t LIMIT 5"))
  /\ addLimit (VStr (lit "UPDATE t SET x=1")) VUndefined
     = Returned (VStr (lit "UPDATE t SET x=1")).
Proof.
  split; [| repeat split; reflexivity].
  intros sql limit.
  rewrite addLimit_cases, <- limit_pattern_spec, <- select_pattern_spec,
    <- !test_spec.
  destruct (Regex.test true limit_pattern (trim sql)),
    (Regex.test true select_pattern (trim sql));
    repeat split; intros; try reflexivity; try congruence;
    exfalso; auto.
Qed.

End WithParser.

End ValidatorFacts.

(* ================================================================== *)
(** * The tool registry *)
(* ================================================================== *)

Module RegistryFacts.
Import Validator Registry ValidatorFacts.

Section WithProvider.
Context {B : Builtins} {P : SqlParser}.
Context {D : Type} {DB : IDatabaseProvider D}.

Lemma unsafe_has_reason (sql : str) (readOnlyMode : bool) (verdict : Validation) :
  validateSafe (VStr sql) readOnlyMode = Returned verdict ->
  safe verdict = false ->
  exists why, reason verdict = Some why.
Proof.
  destruct (analyze_total (VStr sql)) as [analysis Ha].
  rewrite (validateSafe_cases _ _ Ha). intros E Hs.
  inversion E; subst; clear E. revert Hs.
  destruct (negb (isValid analysis)); [simpl; eauto |].
  destruct (readOnlyMode && negb (isReadOnly analysis)); [simpl; eauto |].
  destruct (Regex.test true dangerous_pattern sql); simpl; [eauto | discriminate].
Qed.

Lemma prop_text_inv (params : jsval) (key : str) (s : str) :
  prop params key = Returned (VStr s) ->
  exists props, params = VObj props.
Proof.
  destruct params; simpl; intros E; try discriminate E; eauto.
Qed.

Lemma run_sql_registered :
  map_get (lit "run_sql") (registerTools (D := D)) = Some run_sql.
Proof. reflexivity. Qed.

(** C1: when [validateSafe] reports the SQL text of the call unsafe under
    the registry's read-only mode, the handler of [run_sql] fails with an
    error that carries the reason of the verdict, and so does
    [executeTool]; the registry and the provider are left as they were, so
    [runQuery] is not invoked.  More generally, whatever the parameters
    are, the handler reaches the provider only after a safe verdict, and
    then through one [runQuery] call. *)
Theorem run_sql_refuses_unsafe :
  (forall (params : jsval) (sql : str) (this : MCPToolRegistry D)
          (verdict : Validation),
      prop params (lit "sql") = Returned (VStr sql) ->
      validateSafe (VStr sql) (readOnlyMode this) = Returned verdict ->
      safe verdict = false ->
      exists why,
        reason verdict = Some why
        /\ handler run_sql params this
           = (Thrown (lit "SQL validation failed: " ++ why), this)
        /\ executeTool registerTools (lit "run_sql") params this
           = (Thrown (lit "Tool execution failed: "
                        ++ lit "SQL validation failed: " ++ why), this))
  /\ (forall (params : jsval) (this this' : MCPToolRegistry D)
             (out : Outcome jsval),
        handler run_sql params this = (out, this') ->
        this' = this
        \/ exists sql0 verdict sql,
             prop params (lit "sql") = Returned sql0
             /\ validateSafe sql0 (readOnlyMode this) = Returned verdict
             /\ safe verdict = true
             /\ calls this' = calls this ++ [CallRunQuery sql]).
Proof.
  split.
  - intros params sql this verdict Hsql Hv Hs.
    destruct (unsafe_has_reason _ _ Hv Hs) as [why Hwhy].
    exists why. split; [assumption |].
    destruct (prop_text_inv _ _ Hsql) as [props ->].
    assert (Hh : handler run_sql (VObj props) this
                 = (Thrown (lit "SQL validation failed: " ++ why), this)).
    { unfold run_sql; cbn [handler]. unfold bind, lift, get, throw.
      cbn [prop]. cbn [prop] in Hsql. inversion Hsql as [Hl]. rewrite Hl.
      rewrite Hv, Hs, Hwhy. reflexivity. }
    split; [exact Hh |].
    unfold executeTool. rewrite run_sql_registered.
    unfold st_try_catch. rewrite Hh. reflexivity.
  - intros params this this' out.
    unfold run_sql; cbn [handler].
    unfold bind, lift, get, throw, ret, call_provider.
    destruct (prop params (lit "limit")) as [given | m];
      [| intros E; inversion E; auto].
    destruct (prop params (lit "sql")) as [sql0 | m];
      [| intros E; inversion E; auto].
    destruct (validateSafe sql0 (readOnlyMode this)) as [verdict | m] eqn:Hv;
      [| intros E; inversion E; auto].
    destruct (safe verdict) eqn:Hs; cbn [negb];
      [| intros E; inversion E; auto].
    destruct (analyze sql0) as [analysis | m];
      [| intros E; inversion E; auto].
    destruct (str_eqb (type analysis) (lit "select")).
    + destruct (addLimit sql0 _) as [sql | m];
        [| intros E; inversion E; auto].
      destruct (runQuery sql (provider this)) as [[result | m] d'];
        intros E; inversion E; subst; right; exists sql0, verdict, sql; auto.
    + destruct (runQuery sql0 (provider this)) as [[result | m] d'];
        intros E; inversion E; subst; right; exists sql0, verdict, sql0; auto.
Qed.

Lemma formattedTool_public (t1 t2 : MCPTool D) :
  Wire.public_part t1 = Wire.public_part t2 ->
  Wire.formattedTool t1 = Wire.formattedTool t2.
Proof.
  unfold Wire.public_part, Wire.formattedTool. intros E.
  inversion E as [[Hn Hd Hp]]. rewrite Hn, Hd, Hp. reflexivity.
Qed.

(** C9, as the code has it: [getTools] returns the registered tools
    themselves, in registration order and each with its handler, which is
    the one [getTool] and [executeTool] find under the tool's name; the
    handler is left out only on the wire, where the request body of the
    LLM clients ([formattedTools]) is built from the name, description and
    parameter schema alone. *)
Theorem getTools_returns_registered_tools :
  getTools (registerTools (D := D))
  = [list_tables; describe_table; generate_sql; explain_sql; run_sql]
  /\ (forall t,
        In t (getTools (registerTools (D := D))) ->
        getTool registerTools (name t) = Some t)
  /\ (forall tools1 tools2 : list (MCPTool D),
        List.map Wire.public_part tools1 = List.map Wire.public_part tools2 ->
        Wire.formattedTools tools1 = Wire.formattedTools tools2).
Proof.
  split; [reflexivity | split].
  - intros t [<- | [<- | [<- | [<- | [<- | []]]]]]; reflexivity.
  - induction tools1 as [| t1 rest1 IH]; intros [| t2 rest2] E;
      try discriminate E; [reflexivity |].
    simpl in E. inversion E as [[Hn Hd Hp Hrest]].
    unfold Wire.formattedTools. simpl. f_equal.
    + apply formattedTool_public. unfold Wire.public_part. congruence.
    + apply IH, Hrest.
Qed.

End WithProvider.

(** C9, as stated, fails: the registry of [registerTools] and the same
    registry with another handler for [run_sql] agree on every name,
    description and parameter schema, and [getTools] tells them apart. *)
Lemma getTools_exposes_handlers : ~ Wire.exposes_only_public_parts unit.
Proof.
  intros H.
  specialize (H Reference.tools Reference.tools_with_stub eq_refl).
  apply (f_equal
           (fun l =>
              match nth_error l 4 with
              | Some t =>
                  fst (handler t (VObj [(lit "sql", VStr (lit "select 1"))])
                         Reference.registry)
              | None => Thrown []
              end)) in H.
  vm_compute in H. discriminate H.
Qed.

End RegistryFacts.

(* ================================================================== *)
(** * The chat orchestrator *)
(* ================================================================== *)

Module ChatFacts.
Import Chat.

Section WithClient.
Context {B : Builtins} {P : Validator.SqlParser}.
Context {L D : Type} {DB : Registry.IDatabaseProvider D} {LLM : LLMClient L D}.
Variable tools : list (str * Registry.MCPTool D).

(** ** One tool call *)

Lemma dispatch_cases (toolCall : ToolCall) (o : ChatOrchestrator L D) :
  dispatch tools toolCall o =
  match JSON_parse (function_arguments toolCall) with
  | Thrown message =>
      (Returned tt,
       set_messages
         (messages o ++ [tool_message toolCall (error_text message)]) o)
  | Returned args =>
      match Registry.executeTool tools (function_name toolCall) args
              (toolRegistry o) with
      | (Returned result, registry') =>
          (Returned tt,
           set_messages
             (messages o ++ [tool_message toolCall (JSON_stringify_indent result)])
             (set_registry registry' o))
      | (Thrown message, registry') =>
          (Returned tt,
           set_messages
             (messages o ++ [tool_message toolCall (error_text message)])
             (set_registry registry' o))
      end
  end.
Proof.
  unfold dispatch, st_try_catch, bind, lift, in_registry, push, modify.
  destruct (JSON_parse (function_arguments toolCall)) as [args | message];
    [| reflexivity].
  destruct (Registry.executeTool tools (function_name toolCall) args
              (toolRegistry o)) as [[result | message] registry'];
    reflexivity.
Qed.

Lemma set_registry_same (o : ChatOrchestrator L D) :
  set_registry (toolRegistry o) o = o.
Proof. destruct o; reflexivity. Qed.

Lemma dispatch_spec (toolCall : ToolCall) (o : ChatOrchestrator L D) :
  exists text registry',
    dispatch tools toolCall o =
    (Returned tt,
     set_messages (messages o ++ [tool_message toolCall text])
       (set_registry registry' o)).
Proof.
  rewrite dispatch_cases.
  destruct (JSON_parse (function_arguments toolCall)) as [args | message].
  - destruct (Registry.executeTool tools (function_name toolCall) args
                (toolRegistry o)) as [[result | message] registry'];
      eauto.
  - exists (error_text message), (toolRegistry o).
    rewrite set_registry_same. reflexivity.
Qed.

(** ** The tool calls of one reply *)

Lemma dispatch_all_spec (toolCalls : list ToolCall) :
  forall o : ChatOrchestrator L D,
    exists texts registry',
      List.length texts = List.length toolCalls
      /\ dispatch_all tools toolCalls o =
         (Returned tt,
          set_messages (messages o ++ tool_messages toolCalls texts)
            (set_registry registry' o)).
Proof.
  induction toolCalls as [| toolCall rest IH]; intros o.
  - exists [], (toolRegistry o). split; [reflexivity |].
    simpl. unfold tool_messages. simpl. rewrite app_nil_r.
    rewrite set_registry_same. destruct o; reflexivity.
  - destruct (dispatch_spec toolCall o) as (text & r1 & H1).
    destruct (IH (set_messages (messages o ++ [tool_message toolCall text])
                    (set_registry r1 o))) as (texts & r2 & Hlen & H2).
    exists (text :: texts), r2. split; [simpl; congruence |].
    simpl. unfold bind. rewrite H1, H2.
    unfold tool_messages. simpl. rewrite <- app_assoc. reflexivity.
Qed.

Lemma tool_messages_answer (toolCalls : list ToolCall) :
  forall texts : list str,
    List.length texts = List.length toolCalls ->
    Forall2 ChatSpec.answers toolCalls (tool_messages toolCalls texts).
Proof.
  induction toolCalls as [| toolCall rest IH]; intros [| text texts] Hlen;
    try discriminate Hlen; [constructor |].
  unfold tool_messages. cbn [combine List.map fst snd]. constructor.
  - repeat split.
  - apply IH. simpl in Hlen. congruence.
Qed.

(** ** One round of the loop *)

Lemma chat_loop_step (remaining : nat) (o : ChatOrchestrator L D) :
  chat_loop tools (S remaining) o =
  match llm_chat (messages o) (Registry.getTools tools) (llmClient o) with
  | (Thrown message, client') => (Thrown message, after_llm client' o)
  | (Returned response, client') =>
      let o1 := set_messages (messages o ++ [response]) (after_llm client' o) in
      match tool_calls response with
      | Some (toolCall :: rest) =>
          chat_loop tools remaining (snd (dispatch_all tools (toolCall :: rest) o1))
      | _ => (Returned (parseResponse (content response)), o1)
      end
  end.
Proof.
  cbn [chat_loop]. unfold bind at 1. unfold call_llm.
  destruct (llm_chat (messages o) (Registry.getTools tools) (llmClient o))
    as [[response | message] client']; [| reflexivity].
  unfold bind at 1. unfold push at 1. unfold modify. cbn [messages after_llm].
  destruct (tool_calls response) as [[| toolCall rest] |]; try reflexivity.
  unfold bind at 1.
  destruct (dispatch_all_spec (toolCall :: rest)
              (set_messages (messages o ++ [response]) (after_llm client' o)))
    as (texts & r & _ & H).
  cbn [messages after_llm set_messages] in H. cbn [messages after_llm set_messages].
  rewrite H. reflexivity.
Qed.

Lemma dispatch_all_returns (toolCalls : list ToolCall)
    (o : ChatOrchestrator L D) :
  fst (dispatch_all tools toolCalls o) = Returned tt
  /\ round_trips (snd (dispatch_all tools toolCalls o)) = round_trips o
  /\ systemPrompt (snd (dispatch_all tools toolCalls o)) = systemPrompt o
  /\ exists appended,
       messages (snd (dispatch_all tools toolCalls o)) = messages o ++ appended.
Proof.
  destruct (dispatch_all_spec toolCalls o) as (texts & r & _ & ->).
  cbn. eauto.
Qed.

Lemma chat_unfold (userMessage : str) (o : ChatOrchestrator L D) :
  chat tools userMessage o =
  chat_loop tools maxIterations
    (set_messages
       (messages o ++ [{| role := user;
                          content := userMessage;
                          name := None;
                          tool_calls := None;
                          tool_call_id := None |}]) o).
Proof. reflexivity. Qed.

(** ** The whole loop *)

Lemma chat_loop_bound (remaining : nat) :
  forall (o o' : ChatOrchestrator L D) (out : Outcome ChatResponse),
    chat_loop tools remaining o = (out, o') ->
    round_trips o' <= round_trips o + remaining
    /\ systemPrompt o' = systemPrompt o
    /\ (exists appended, messages o' = messages o ++ appended)
    /\ (forall message,
          out = Thrown message ->
          message = max_iterations_message \/ client_failure message).
Proof.
  induction remaining as [| remaining IH]; intros o o' out.
  - cbn. intros E. inversion E; subst; clear E.
    repeat split; [lia | exists []; symmetry; apply app_nil_r |].
    intros message E. inversion E. left; reflexivity.
  - rewrite chat_loop_step.
    destruct (llm_chat (messages o) (Registry.getTools tools) (llmClient o))
      as [[response | failure] client'] eqn:Hllm.
    + cbv zeta.
      set (o1 := set_messages (messages o ++ [response]) (after_llm client' o)).
      assert (Hdone :
                (Returned (parseResponse (content response)), o1) = (out, o') ->
                round_trips o' <= round_trips o + S remaining
                /\ systemPrompt o' = systemPrompt o
                /\ (exists appended, messages o' = messages o ++ appended)
                /\ (forall message,
                      out = Thrown message ->
                      message = max_iterations_message \/ client_failure message)).
      { intros E. inversion E; subst; clear E. cbn.
        repeat split; [lia | eauto |]. intros message E; discriminate E. }
      destruct (tool_calls response) as [[| toolCall rest] |];
        [exact Hdone | | exact Hdone].
      intros E. apply IH in E as (Hr & Hp & (appended & Hm) & Hout).
      destruct (dispatch_all_returns (toolCall :: rest) o1)
        as (_ & Hr1 & Hp1 & (appended1 & Hm1)).
      rewrite Hr1 in Hr. rewrite Hp1 in Hp. rewrite Hm1 in Hm.
      subst o1. cbn in Hr, Hp, Hm.
      repeat split; [lia | assumption | | assumption].
      exists ([response] ++ appended1 ++ appended).
      rewrite Hm, <- !app_assoc. reflexivity.
    + intros E. inversion E; subst; clear E. cbn.
      repeat split; [lia | exists []; symmetry; apply app_nil_r |].
      intros message E. inversion E; subst. right.
      exists (messages o), (Registry.getTools tools), (llmClient o), client'.
      assumption.
Qed.




(** ** The history *)

Lemma initializeSystemPrompt_spec (o : ChatOrchestrator L D) :
  let prompt := system_prompt_text tools (schema_context (metadata o)) in
  messages (snd (initializeSystemPrompt tools o)) = [system_message prompt]
  /\ systemPrompt (snd (initializeSystemPrompt tools o)) = prompt.
Proof. split; reflexivity. Qed.

Lemma perform_keeps_system_message (op : Operation) (o : ChatOrchestrator L D) :
  starts_with_system_message o ->
  starts_with_system_message (perform tools op o).
Proof.
  intros (rest & Hm). destruct op as [userMessage | | md]; cbn [perform].
  - destruct (chat tools userMessage o) as [out o'] eqn:E. cbn [snd].
    rewrite chat_unfold in E.
    apply chat_loop_bound in E as (_ & Hp & (appended & Ha) & _).
    cbn in Hp, Ha. unfold starts_with_system_message.
    rewrite Hp, Ha, Hm, <- !app_comm_cons. eexists; reflexivity.
  - exists []. reflexivity.
  - exists []. reflexivity.
Qed.

(** C8: the history always starts with a system message.  A new
    orchestrator holds exactly the system message of its prompt; [chat]
    only appends to the history, also when it fails; [clearHistory] and
    [setMetadata] reset it to exactly one system message, built afresh from
    the metadata then current; and so, after any sequence of these
    operations, the first message is the system message of the current
    prompt. *)
Theorem history_starts_with_system_message :
  (forall (registry : Registry.MCPToolRegistry D) (client : L)
          (md : option Semantic.DatabaseMetadata),
      messages (new_orchestrator tools registry client md)
      = [system_message (system_prompt_text tools (schema_context md))])
  /\ (forall (userMessage : str) (o : ChatOrchestrator L D),
        exists appended,
          messages (snd (chat tools userMessage o)) = messages o ++ appended)
  /\ (forall o : ChatOrchestrator L D,
        messages (snd (clearHistory tools o))
        = [system_message
             (system_prompt_text tools (schema_context (metadata o)))])
  /\ (forall (md : Semantic.DatabaseMetadata) (o : ChatOrchestrator L D),
        messages (snd (setMetadata tools md o))
        = [system_message
             (system_prompt_text tools (schema_context (Some md)))])
  /\ (forall (ops : list Operation) (registry : Registry.MCPToolRegistry D)
             (client : L) (md : option Semantic.DatabaseMetadata),
        exists rest,
          let o := run tools ops (new_orchestrator tools registry client md) in
          messages o = system_message (systemPrompt o) :: rest
          /\ role (system_message (systemPrompt o)) = system).
Proof.
  split; [reflexivity | split; [| split; [reflexivity | split; [reflexivity |]]]].
  - intros userMessage o.
    destruct (chat tools userMessage o) as [out o'] eqn:E. cbn [snd].
    rewrite chat_unfold in E.
    apply chat_loop_bound in E as (_ & _ & (appended & Ha) & _).
    cbn in Ha. rewrite Ha, <- app_assoc. eexists; reflexivity.
  - intros ops registry client md.
    assert (H : starts_with_system_message
                  (run tools ops (new_orchestrator tools registry client md))).
    { unfold run.
      assert (H0 : starts_with_system_message
                     (new_orchestrator tools registry client md))
        by (exists []; reflexivity).
      revert H0. generalize (new_orchestrator tools registry client md).
      induction ops as [| op ops IH]; intros o H0; simpl; [assumption |].
      apply IH, perform_keeps_system_message, H0. }
    destruct H as (rest & H). exists rest. cbv zeta. split; [exact H | reflexivity].
Qed.

End WithClient.
End ChatFacts.

(* ================================================================== *)
(** * The theorems at work in the reference environment *)
(* ================================================================== *)

Module Examples.
Import Validator.

(** A text that the reference parser rejects. *)
Lemma analyze_never_raises_witness :
  astify (SqlParser := Reference.parser) (VStr (lit "SELEKT 1"))
  = Thrown (lit "syntax error")
  /\ analyze (B := Reference.builtins) (P := Reference.parser)
       (VStr (lit "SELEKT 1"))
     = Returned {| isValid := false;
                   isReadOnly := true;
                   type := lit "unknown";
                   tables := [];
                   errors := [lit "Parse error: " ++ lit "syntax error"];
                   warnings := [] |}.
Proof.
  split; [reflexivity |].
  apply (proj2 (ValidatorFacts.analyze_never_raises
                  (B := Reference.builtins) (P := Reference.parser)
                  (VStr (lit "SELEKT 1")))).
  reflexivity.
Defined.

(** Two statements, the last one a SELECT. *)
Lemma analyze_multiple_statements_witness :
  astify (SqlParser := Reference.parser) (VStr (lit "DELETE FROM t; SELECT 1"))
  = Returned (Multiple Reference.two_statements)
  /\ exists result,
       analyze (B := Reference.builtins) (P := Reference.parser)
         (VStr (lit "DELETE FROM t; SELECT 1")) = Returned result
       /\ warnings result = [lit "Multiple statements detected"]
       /\ type result = lit "select".
Proof.
  split; [reflexivity |].
  destruct (ValidatorFacts.analyze_multiple_statements
              (B := Reference.builtins) (P := Reference.parser)
              (VStr (lit "DELETE FROM t; SELECT 1"))
              (stmts := Reference.two_statements) eq_refl)
    as (result & Ha & Hw & _ & Hlast & _).
  exists result. split; [exact Ha | split; [exact Hw |]].
  apply (Hlast [Some Reference.delete_statement] Reference.select_statement []).
  - reflexivity.
  - reflexivity.
  - constructor.
Defined.

(** A DELETE followed by a SELECT: classified [select], not read-only. *)
Lemma write_statement_lowers_isReadOnly_witness :
  (astify (SqlParser := Reference.parser) (VStr (lit "DELETE FROM t; SELECT 1"))
   = Returned (Multiple Reference.two_statements)
   /\ In (Some Reference.delete_statement) Reference.two_statements
   /\ present (stmt_type Reference.delete_statement) = true
   /\ In (toLowerCase (Builtins := Reference.builtins)
            (kind Reference.delete_statement)) writeOperations)
  /\ exists result,
       analyze (B := Reference.builtins) (P := Reference.parser)
         (VStr (lit "DELETE FROM t; SELECT 1")) = Returned result
       /\ isReadOnly result = false.
Proof.
  assert (Hw : In (toLowerCase (Builtins := Reference.builtins)
                     (kind Reference.delete_statement)) writeOperations)
    by (vm_compute; tauto).
  split; [repeat split; [left; reflexivity | exact Hw] |].
  apply (proj1 (ValidatorFacts.write_statement_lowers_isReadOnly
                  (B := Reference.builtins) (P := Reference.parser))
           (VStr (lit "DELETE FROM t; SELECT 1")) Reference.two_statements
           Reference.delete_statement).
  - reflexivity.
  - left; reflexivity.
  - reflexivity.
  - exact Hw.
Defined.

(** DELETE FROM customers under the reference parser, in both modes. *)
Lemma validateSafe_characterisation_witness :
  (analyze (B := Reference.builtins) (P := Reference.parser)
     (VStr (lit "DELETE FROM customers"))
   = Returned Reference.delete_analysis
   /\ isValid Reference.delete_analysis = true
   /\ type Reference.delete_analysis = lit "delete")
  /\ validateSafe (B := Reference.builtins) (P := Reference.parser)
       (VStr (lit "DELETE FROM customers")) false
     = Returned {| safe := true; reason := None |}
  /\ exists verdict,
       validateSafe (B := Reference.builtins) (P := Reference.parser)
         (VStr (lit "DELETE FROM customers")) true = Returned verdict
       /\ safe verdict = false.
Proof.
  split; [repeat split |].
  apply (proj2 (proj2 (ValidatorFacts.validateSafe_characterisation
                         (B := Reference.builtins) (P := Reference.parser)))
           Reference.delete_analysis); reflexivity.
Defined.

(** A SELECT without a limit, with white space around it, and one that
    has a limit already. *)
Lemma addLimit_characterisation_witness :
  (~ has_limit_clause (trim (lit "  select name from t  "))
   /\ starts_with (lit "SELECT") (trim (lit "  select name from t  "))
   /\ has_limit_clause (trim (lit "select 1 limit 7 ")))
  /\ addLimit (B := Reference.builtins) (VStr (lit "  select name from t  "))
       (VNum 20)
     = Returned (VStr (lit "select name from t LIMIT 20"))
  /\ addLimit (B := Reference.builtins) (VStr (lit "select 1 limit 7 ")) (VNum 20)
     = Returned (VStr (lit "select 1 limit 7 ")).
Proof.
  assert (H1 : ~ has_limit_clause (trim (lit "  select name from t  "))).
  { intros H. apply ValidatorFacts.limit_pattern_spec, RegexFacts.test_spec in H.
    vm_compute in H. discriminate H. }
  assert (H2 : starts_with (lit "SELECT") (trim (lit "  select name from t  "))).
  { apply ValidatorFacts.select_pattern_spec, RegexFacts.test_spec.
    vm_compute. reflexivity. }
  assert (H3 : has_limit_clause (trim (lit "select 1 limit 7 "))).
  { apply ValidatorFacts.limit_pattern_spec, RegexFacts.test_spec.
    vm_compute. reflexivity. }
  split; [auto | split].
  - apply (proj1 (proj2 (proj1 (ValidatorFacts.addLimit_characterisation
                                  (B := Reference.builtins))
                           (lit "  select name from t  ") (VNum 20)))
             H1 H2).
  - apply (proj1 (proj1 (ValidatorFacts.addLimit_characterisation
                           (B := Reference.builtins))
                    (lit "select 1 limit 7 ") (VNum 20)) H3).
Defined.

(** DROP TABLE through [run_sql] in the default, read-only mode. *)
Lemma run_sql_refuses_unsafe_witness :
  (prop (B := Reference.builtins) Reference.drop_params (lit "sql")
   = Returned (VStr (lit "DROP TABLE customers"))
   /\ validateSafe (B := Reference.builtins) (P := Reference.parser)
        (VStr (lit "DROP TABLE customers"))
        (Registry.readOnlyMode Reference.registry)
      = Returned Reference.write_refused
   /\ safe Reference.write_refused = false)
  /\ exists why,
       Registry.handler
         (Registry.run_sql (B := Reference.builtins) (P := Reference.parser)
            (DB := Reference.empty_provider))
         Reference.drop_params Reference.registry
       = (Thrown (lit "SQL validation failed: " ++ why), Reference.registry)
       /\ Registry.calls Reference.registry = [].
Proof.
  split; [repeat split |].
  destruct (proj1 (RegistryFacts.run_sql_refuses_unsafe
                     (B := Reference.builtins) (P := Reference.parser)
                     (DB := Reference.empty_provider))
              Reference.drop_params (lit "DROP TABLE customers")
              Reference.registry Reference.write_refused
              eq_refl eq_refl eq_refl)
    as (why & _ & Hh & _).
  exists why. split; [exact Hh | reflexivity].
Defined.

(** The two reference registries look the same on the wire. *)
Lemma getTools_returns_registered_tools_witness :
  (In (Registry.run_sql (B := Reference.builtins) (P := Reference.parser)
         (DB := Reference.empty_provider))
      (Registry.getTools Reference.tools)
   /\ List.map Wire.public_part (Registry.getTools Reference.tools)
      = List.map Wire.public_part (Registry.getTools Reference.tools_with_stub))
  /\ Registry.getTool Reference.tools (lit "run_sql")
     = Some (Registry.run_sql (B := Reference.builtins) (P := Reference.parser)
               (DB := Reference.empty_provider))
  /\ Wire.formattedTools (Registry.getTools Reference.tools)
     = Wire.formattedTools (Registry.getTools Reference.tools_with_stub).
Proof.
  assert (Hin : In (Registry.run_sql (B := Reference.builtins)
                      (P := Reference.parser) (DB := Reference.empty_provider))
                  (Registry.getTools Reference.tools))
    by (simpl; tauto).
  split; [split; [exact Hin | reflexivity] | split].
  - apply (proj1 (proj2 (RegistryFacts.getTools_returns_registered_tools
                           (B := Reference.builtins) (P := Reference.parser)
                           (DB := Reference.empty_provider)))
             (Registry.run_sql (B := Reference.builtins) (P := Reference.parser)
                (DB := Reference.empty_provider)) Hin).
  - apply (proj2 (proj2 (RegistryFacts.getTools_returns_registered_tools
                           (B := Reference.builtins) (P := Reference.parser)
                           (DB := Reference.empty_provider)))).
    reflexivity.
Defined.




End Examples.

(* ================================================================== *)
(** * Further properties of the validator *)
(* ================================================================== *)

Module ValidatorMore.
Import Validator ValidatorSpec ValidatorFacts RegexFacts.

(** ** Numerals and trimming *)

Lemma digit_range (d : N) :
  is_digit d = true <-> (48 <= d <= 57)%N.
Proof.
  unfold is_digit. rewrite andb_true_iff, !N.leb_le. tauto.
Qed.

Lemma digit_not_space (d : N) : is_digit d = true -> is_space d = false.
Proof.
  intros H. apply digit_range in H.
  assert (E : (d = 48 \/ d = 49 \/ d = 50 \/ d = 51 \/ d = 52 \/ d = 53
               \/ d = 54 \/ d = 55 \/ d = 56 \/ d = 57)%N) by lia.
  repeat destruct E as [-> | E]; try reflexivity. subst; reflexivity.
Qed.

Lemma digits_fuel_spec (fuel : nat) :
  forall (n : N) (acc : str),
    exists ds,
      digits_fuel fuel n acc = ds ++ acc
      /\ Regex.all_in is_digit ds
      /\ (fuel <> 0 -> ds <> []).
Proof.
  induction fuel as [| f IH]; intros n acc; cbn [digits_fuel].
  - exists []. repeat split. congruence.
  - assert (Hd : is_digit (48 + n mod 10) = true).
    { apply digit_range.
      assert (H : (n mod 10 < 10)%N) by (apply N.mod_lt; discriminate).
      revert H. generalize (n mod 10)%N. intros m H. lia. }
    cbv zeta.
    destruct (n / 10 =? 0)%N.
    + exists [(48 + n mod 10)%N]. repeat split.
      * unfold Regex.all_in. cbn [forallb]. rewrite Hd. reflexivity.
      * discriminate.
    + destruct (IH (n / 10)%N ((48 + n mod 10)%N :: acc))
        as (ds & -> & Hds & _).
      exists (ds ++ [(48 + n mod 10)%N]). rewrite <- app_assoc.
      repeat split.
      * unfold Regex.all_in in *. rewrite forallb_app, Hds. cbn [forallb].
        rewrite Hd. reflexivity.
      * intros _ E. apply app_eq_nil in E as [_ E]. discriminate E.
Qed.

Lemma Number_toString_plain (n : Z) :
  (0 <= n)%Z ->
  Regex.all_in is_digit (Number_toString n) /\ Number_toString n <> [].
Proof.
  destruct n as [| p | p]; intros Hn; [split; [reflexivity | discriminate] | | lia].
  unfold Number_toString, digits.
  destruct (digits_fuel_spec (S (N.to_nat (N.log2 (N.pos p)))) (N.pos p) [])
    as (ds & -> & Hds & Hne).
  rewrite app_nil_r. split; [assumption | apply Hne; discriminate].
Qed.

Lemma plain_limit_prints (limit : jsval) :
  plain_limit limit ->
  Regex.all_in is_digit (ToString (default_limit limit))
  /\ ToString (default_limit limit) <> [].
Proof.
  intros [-> | (n & Hn & ->)].
  - split; [reflexivity | discriminate].
  - apply Number_toString_plain, Hn.
Qed.

Lemma trim_fixed (c d : N) (s : str) :
  is_space c = false -> is_space d = false ->
  trim (c :: s ++ [d]) = c :: s ++ [d].
Proof.
  intros Hc Hd. unfold trim, trimStart, trimEnd. simpl. rewrite Hc.
  change (c :: s ++ [d]) with ((c :: s) ++ [d]).
  rewrite rev_app_distr. simpl. rewrite Hd.
  change (d :: rev s ++ [c]) with ([d] ++ rev s ++ [c]).
  rewrite !rev_app_distr, rev_involutive. reflexivity.
Qed.

Lemma letter_S_not_space (x : N) :
  canonicalize 83 = canonicalize x -> is_space x = false.
Proof.
  change (canonicalize 83) with 83%N. unfold canonicalize, is_lower.
  destruct ((97 <=? x)%N && (x <=? 122)%N) eqn:E.
  - apply andb_true_iff in E as [E1 E2]. apply N.leb_le in E1, E2.
    intros H. assert (x = 115%N) by lia. subst. reflexivity.
  - intros <-. reflexivity.
Qed.

(** The text that [addLimit] builds is left alone by [trim] and holds a
    LIMIT clause. *)
Lemma limited_text (text ds : str) :
  starts_with (lit "SELECT") text ->
  Regex.all_in is_digit ds -> ds <> [] ->
  trim (text ++ lit " LIMIT " ++ ds) = text ++ lit " LIMIT " ++ ds
  /\ has_limit_clause (text ++ lit " LIMIT " ++ ds).
Proof.
  intros (kw & after & -> & Hkw) Hds Hne. split.
  - inversion Hkw as [| c x p kw' Hx Hrest]; subst.
    destruct (exists_last Hne) as (ds' & d & ->).
    assert (Hd : is_space d = false).
    { apply digit_not_space. unfold Regex.all_in in Hds.
      rewrite forallb_app in Hds. apply andb_true_iff in Hds as [_ Hds].
      simpl in Hds. rewrite andb_true_r in Hds. exact Hds. }
    replace (((x :: kw') ++ after) ++ lit " LIMIT " ++ ds' ++ [d])
      with (x :: (kw' ++ after ++ lit " LIMIT " ++ ds') ++ [d])
      by (simpl; rewrite <- !app_assoc; reflexivity).
    apply trim_fixed; [apply letter_S_not_space, Hx | exact Hd].
  - exists ((kw ++ after) ++ [32%N]), (lit "LIMIT"), [32%N], ds, [].
    split; [rewrite app_nil_r, <- !app_assoc; reflexivity |].
    repeat split; try assumption; try discriminate.
    unfold Regex.same_letters. repeat constructor.
Qed.

Section WithParser.
Context {B : Builtins} {P : SqlParser}.

Lemma extractTables_spec (from : list Node) :
  forall acc, extractTables from acc = acc ++ entry_tables from.
Proof.
  induction from as [| item rest IH]; intros acc; simpl.
  - symmetry; apply app_nil_r.
  - rewrite IH. destruct (present (node_table item)); simpl.
    + rewrite <- app_assoc. reflexivity.
    + reflexivity.
Qed.

Lemma analyzeStatement_analysed (stmt : Statement) (result : SQLAnalysis) :
  present (stmt_type stmt) = true ->
  analyzeStatement (Some stmt) result =
  {| isValid := isValid result;
     isReadOnly := isReadOnly result && negb (is_write stmt);
     type := toLowerCase (kind stmt);
     tables := tables result ++ statement_tables stmt;
     errors := errors result;
     warnings := warnings result |}.
Proof.
  intros Hk. unfold analyzeStatement. rewrite Hk. cbn [negb].
  unfold is_write, kind, statement_tables. f_equal.
  - destruct (includes writeOperations _); simpl.
    + symmetry; apply andb_false_r.
    + symmetry; apply andb_true_r.
  - destruct (stmt_from stmt) as [from |], (stmt_into stmt) as [into |],
      (stmt_table stmt) as [t |];
      rewrite ?extractTables_spec;
      try destruct (present (into_table into));
      rewrite <- ?app_assoc, ?app_nil_r; reflexivity.
Qed.

Lemma analysed_kept (s : Statement) (rest : list (option Statement)) :
  present (stmt_type s) = true ->
  analysed (Some s :: rest) = s :: analysed rest.
Proof. unfold analysed. simpl. intros ->. reflexivity. Qed.

Lemma analysed_skipped (stmt : option Statement)
    (rest : list (option Statement)) :
  has_kind stmt = false -> analysed (stmt :: rest) = analysed rest.
Proof.
  unfold analysed. destruct stmt as [s |]; simpl; [| reflexivity].
  intros ->. reflexivity.
Qed.

Lemma last_cons {A : Type} (a d : A) (l : list A) :
  List.last (a :: l) d = List.last l a.
Proof.
  revert a d. induction l as [| b l IH]; intros a d; [reflexivity |].
  change (List.last (a :: b :: l) d) with (List.last (b :: l) d).
  rewrite (IH b d), (IH b a). reflexivity.
Qed.

Lemma analyzeStatements_analysed (stmts : list (option Statement)) :
  forall result,
    analyzeStatements stmts result =
    {| isValid := isValid result;
       isReadOnly :=
         isReadOnly result
         && forallb (fun s => negb (is_write s)) (analysed stmts);
       type :=
         List.last (List.map (fun s => toLowerCase (kind s)) (analysed stmts))
           (type result);
       tables := tables result ++ flat_map statement_tables (analysed stmts);
       errors := errors result;
       warnings := warnings result |}.
Proof.
  induction stmts as [| stmt rest IH]; intros result.
  - simpl. rewrite andb_true_r, app_nil_r. destruct result; reflexivity.
  - cbn [analyzeStatements]. rewrite IH.
    destruct (has_kind stmt) eqn:Hk.
    + destruct stmt as [s |]; [| discriminate Hk]. simpl in Hk.
      rewrite (analyzeStatement_analysed _ _ Hk), (analysed_kept _ _ Hk).
      cbn [isValid isReadOnly type tables errors warnings
           forallb flat_map List.map].
      rewrite <- andb_assoc, <- app_assoc, last_cons. reflexivity.
    + rewrite (analyzeStatement_skip _ _ Hk), (analysed_skipped _ _ Hk).
      reflexivity.
Qed.

Lemma In_analysed (stmts : list (option Statement)) (stmt : Statement) :
  In stmt (analysed stmts) <->
  In (Some stmt) stmts /\ present (stmt_type stmt) = true.
Proof.
  unfold analysed. rewrite in_flat_map. split.
  - intros ([s |] & Hin & Hs); [| destruct Hs].
    destruct (present (stmt_type s)) eqn:Hk; [| destruct Hs].
    destruct Hs as [<- | []]. auto.
  - intros [Hin Hk]. exists (Some stmt). split; [assumption |].
    rewrite Hk. left; reflexivity.
Qed.

(** What [analyze] returns when the parser accepts the input. *)
Lemma analyze_parsed (sql : jsval) (ast : Ast) :
  astify sql = Returned ast ->
  analyze sql =
  Returned
    {| isValid := true;
       isReadOnly :=
         forallb (fun s => negb (is_write s)) (analysed (statements ast));
       type :=
         List.last
           (List.map (fun s => toLowerCase (kind s)) (analysed (statements ast)))
           (lit "unknown");
       tables := flat_map statement_tables (analysed (statements ast));
       errors := [];
       warnings :=
         match ast with
         | Multiple _ => [lit "Multiple statements detected"]
         | Single _ => []
         end |}.
Proof.
  intros H. rewrite analyze_cases, H. destruct ast as [stmt | stmts].
  - change (analyzeStatement stmt (set_isValid true initial_result))
      with (analyzeStatements [stmt] (set_isValid true initial_result)).
    rewrite analyzeStatements_analysed. reflexivity.
  - rewrite analyzeStatements_analysed. reflexivity.
Qed.

(** X1: when the parser accepts the input, the referenced tables of the
    analysis are those of every statement that is analysed, statement
    after statement in the order of the parse: nothing an earlier
    statement referred to is dropped, and duplicates are kept.  So every
    table of every such statement is among them. *)
Theorem referenced_tables_accumulate (sql : jsval) (ast : Ast) :
  astify sql = Returned ast ->
  exists result,
    analyze sql = Returned result
    /\ isValid result = true
    /\ errors result = []
    /\ tables result = flat_map statement_tables (analysed (statements ast))
    /\ (forall stmt t,
          In (Some stmt) (statements ast) ->
          present (stmt_type stmt) = true ->
          In t (statement_tables stmt) ->
          In t (tables result)).
Proof.
  intros H. eexists. rewrite (analyze_parsed _ H).
  split; [reflexivity |]. cbn [isValid errors tables].
  repeat split.
  intros stmt t Hin Hk Ht. apply in_flat_map. exists stmt.
  split; [apply In_analysed; auto | assumption].
Qed.

Lemma no_write_iff (sql : jsval) (ast : Ast) :
  astify sql = Returned ast ->
  exists result,
    analyze sql = Returned result
    /\ isValid result = true
    /\ (isReadOnly result = true <->
        forall stmt,
          In (Some stmt) (statements ast) ->
          present (stmt_type stmt) = true ->
          ~ In (toLowerCase (kind stmt)) writeOperations).
Proof.
  intros H. eexists. rewrite (analyze_parsed _ H).
  split; [reflexivity |]. split; [reflexivity |]. cbn [isReadOnly].
  rewrite forallb_forall. split.
  - intros Hall stmt Hin Hk Hw.
    assert (Hs : In stmt (analysed (statements ast)))
      by (apply In_analysed; auto).
    apply Hall in Hs. unfold is_write in Hs.
    apply JsStringFacts.includes_In in Hw. rewrite Hw in Hs. discriminate Hs.
  - intros Hno stmt Hs. apply In_analysed in Hs as [Hin Hk].
    unfold is_write.
    destruct (includes writeOperations (toLowerCase (kind stmt))) eqn:E;
      [| reflexivity].
    apply JsStringFacts.includes_In in E. destruct (Hno stmt Hin Hk E).
Qed.

(** X2: when the parser accepts the input, the analysis is read-only
    exactly when no analysed statement has a kind of the write set. *)
Theorem isReadOnly_iff_no_write (sql : jsval) (ast : Ast) :
  astify sql = Returned ast ->
  exists result,
    analyze sql = Returned result
    /\ (isReadOnly result = true <->
        forall stmt,
          In (Some stmt) (statements ast) ->
          present (stmt_type stmt) = true ->
          ~ In (toLowerCase (kind stmt)) writeOperations).
Proof.
  intros H. destruct (no_write_iff _ H) as (result & Ha & _ & Hro).
  exists result. split; assumption.
Qed.

(** X3: in read-only mode, a text that the parser accepts is declared
    safe exactly when none of its analysed statements has a kind of the
    write set and the text holds no stacked statement, which is: a
    semicolon and, after optional white space, DROP, or TRUNCATE, or a
    DELETE FROM of one word that runs to the end of the text (up to white
    space and one semicolon), in any letter case. *)
Theorem read_only_verdict (sql : str) (ast : Ast) :
  astify (VStr sql) = Returned ast ->
  exists verdict,
    validateSafe (VStr sql) true = Returned verdict
    /\ (safe verdict = true <->
        (forall stmt,
           In (Some stmt) (statements ast) ->
           present (stmt_type stmt) = true ->
           ~ In (toLowerCase (kind stmt)) writeOperations)
        /\ ~ has_stacked_statement sql).
Proof.
  intros H.
  destruct (no_write_iff _ H) as (analysis & Ha & Hvalid & Hro).
  eexists. rewrite (validateSafe_cases _ _ Ha), Hvalid.
  split; [reflexivity |].
  rewrite <- Hro, <- dangerous_pattern_spec, <- test_spec.
  cbn [negb andb].
  destruct (isReadOnly analysis), (Regex.test true dangerous_pattern sql);
    cbn; (split; [intros E | intros [E1 E2]]);
    try discriminate; try reflexivity;
    try (split; [reflexivity | discriminate]);
    exfalso; apply E2; reflexivity.
Qed.

(** X4: [validateSafe] never declares safe what is not a string: it
    returns an unsafe verdict or fails with a TypeError at [sql.match]. *)
Theorem validateSafe_text_only (sql : jsval) (readOnlyMode : bool)
    (verdict : Validation) :
  (forall s, sql <> VStr s) ->
  validateSafe sql readOnlyMode = Returned verdict ->
  safe verdict = false.
Proof.
  intros Hns. unfold validateSafe.
  destruct (analyze_total sql) as [analysis ->]. cbn [obind].
  destruct (negb (isValid analysis));
    [intros E; inversion E; reflexivity |].
  destruct (readOnlyMode && negb (isReadOnly analysis));
    [intros E; inversion E; reflexivity |].
  destruct sql; cbn; try discriminate.
  destruct (Hns s eq_refl).
Qed.

(** X5: with no limit given, or with a limit that is an integer and
    not negative, applying [addLimit] a second time changes nothing,
    whatever limit the second call is given. *)
Theorem addLimit_idempotent (sql : str) (limit : jsval) :
  plain_limit limit ->
  exists text,
    addLimit (VStr sql) limit = Returned (VStr text)
    /\ forall limit', addLimit (VStr text) limit' = Returned (VStr text).
Proof.
  intros Hl. rewrite addLimit_cases.
  destruct (Regex.test true limit_pattern (trim sql)) eqn:E1;
    [| destruct (Regex.test true select_pattern (trim sql)) eqn:E2].
  - exists sql. split; [reflexivity |].
    intros limit'. rewrite addLimit_cases, E1. reflexivity.
  - destruct (plain_limit_prints Hl) as [Hds Hne].
    apply test_spec, select_pattern_spec in E2.
    destruct (limited_text E2 Hds Hne) as [Htrim Hlimit].
    eexists. split; [reflexivity |].
    intros limit'. rewrite addLimit_cases, Htrim.
    apply limit_pattern_spec, test_spec in Hlimit. rewrite Hlimit.
    reflexivity.
  - exists sql. split; [reflexivity |].
    intros limit'. rewrite addLimit_cases, E1, E2. reflexivity.
Qed.

End WithParser.
End ValidatorMore.

(* ================================================================== *)
(** * Further properties of the registry and of [findTable] *)
(* ================================================================== *)

Module RegistryMore.
Import Validator Registry RegistrySpec ValidatorFacts.

(** ** Maps in insertion order *)

Lemma map_get_none {V : Type} (key : str) (m : list (str * V)) :
  map_get key m = None <-> forall k v, In (k, v) m -> k <> key.
Proof.
  induction m as [| [k0 v0] rest IH]; simpl.
  - split; [intros _ k v [] | reflexivity].
  - destruct (str_eqb key k0) eqn:E.
    + apply JsStringFacts.str_eqb_eq in E. subst. split; [discriminate |].
      intros H. destruct (H k0 v0 (or_introl eq_refl) eq_refl).
    + rewrite IH. split.
      * intros H k v [Heq | Hin]; [| eauto].
        inversion Heq; subst. intros ->.
        rewrite JsStringFacts.str_eqb_refl in E. discriminate E.
      * intros H k v Hin. apply (H k v). right; assumption.
Qed.

Lemma map_get_set_same {V : Type} (key : str) (v : V) (m : list (str * V)) :
  map_get key (map_set key v m) = Some v.
Proof.
  induction m as [| [k0 v0] rest IH]; simpl.
  - rewrite JsStringFacts.str_eqb_refl. reflexivity.
  - destruct (str_eqb key k0) eqn:E; simpl; rewrite E; [reflexivity | exact IH].
Qed.

Lemma map_get_set_other {V : Type} (key key' : str) (v : V)
    (m : list (str * V)) :
  key' <> key ->
  map_get key' (map_set key v m) = map_get key' m.
Proof.
  intros Hne. induction m as [| [k0 v0] rest IH]; simpl.
  - destruct (str_eqb key' key) eqn:E; [| reflexivity].
    apply JsStringFacts.str_eqb_eq in E. contradiction.
  - destruct (str_eqb key k0) eqn:E; simpl.
    + apply JsStringFacts.str_eqb_eq in E. subst k0.
      destruct (str_eqb key' key) eqn:E'; [| reflexivity].
      apply JsStringFacts.str_eqb_eq in E'. contradiction.
    + destruct (str_eqb key' k0); [reflexivity | exact IH].
Qed.

(** ** Prefixes and suffixes *)

Lemma startsWith_spec (s prefix : str) :
  Semantic.startsWith s prefix = true <-> exists rest, s = prefix ++ rest.
Proof.
  revert s. induction prefix as [| p prefix IH]; intros s.
  - split; [intros _; exists s; reflexivity | destruct s; reflexivity].
  - destruct s as [| c s]; simpl.
    + split; [discriminate | intros (rest & E); discriminate E].
    + rewrite andb_true_iff, N.eqb_eq, IH. split.
      * intros [-> (rest & ->)]. eauto.
      * intros (rest & E). inversion E; subst. eauto.
Qed.

Lemma endsWith_spec (s suffix : str) :
  Semantic.endsWith s suffix = true <-> exists before, s = before ++ suffix.
Proof.
  unfold Semantic.endsWith. rewrite startsWith_spec. split.
  - intros (rest & E). exists (rev rest).
    rewrite <- (rev_involutive s), E, rev_app_distr, rev_involutive.
    reflexivity.
  - intros (before & ->). exists (rev before). apply rev_app_distr.
Qed.

Section WithProvider.
Context {B : Builtins} {P : SqlParser}.
Context {D : Type} {DB : IDatabaseProvider D}.

Lemma table_matches_spec (t : Semantic.TableMetadata) (tableName : str) :
  exists hit,
    Semantic.table_matches t (VStr tableName) = Returned hit
    /\ (hit = true <-> name_matches t tableName).
Proof.
  eexists. split; [reflexivity |].
  unfold name_matches.
  rewrite !orb_true_iff, JsStringFacts.str_eqb_eq, endsWith_spec.
  destruct (Semantic.table_schema t) as [[| c sch] |]; cbv iota beta;
    unfold present, text_of; rewrite ?JsStringFacts.str_eqb_eq;
    intuition (try discriminate; auto).
Qed.

(** X6: on names given as text, [findTable] never fails and returns the
    first table of the metadata that the name matches (by bare name, by
    qualified name, or as a suffix after a dot), and nothing when the name
    matches no table. *)
Theorem findTable_first_match (md : Semantic.DatabaseMetadata)
    (tableName : str) :
  (exists found, Semantic.findTable md (VStr tableName) = Returned found)
  /\ (forall t,
        Semantic.findTable md (VStr tableName) = Returned (Some t) <->
        exists before after,
          Semantic.tables md = before ++ t :: after
          /\ name_matches t tableName
          /\ forall t', In t' before -> ~ name_matches t' tableName)
  /\ (Semantic.findTable md (VStr tableName) = Returned None <->
      forall t, In t (Semantic.tables md) -> ~ name_matches t tableName).
Proof.
  unfold Semantic.findTable. generalize (Semantic.tables md). intros l.
  induction l as [| t0 rest (IHt & IHs & IHn)]; cbn [Semantic.find_first].
  - split; [eauto | split].
    + intros t. split; [discriminate |].
      intros (before & after & E & _). destruct before; discriminate E.
    + split; [intros _ t [] | reflexivity].
  - destruct (table_matches_spec t0 tableName) as (hit & -> & Hhit).
    cbn [obind]. destruct hit.
    + assert (H0 : name_matches t0 tableName) by (apply Hhit; reflexivity).
      split; [eauto | split].
      * intros t. split.
        -- intros E. inversion E; subst. exists [], rest.
           split; [reflexivity | split; [assumption | intros t' []]].
        -- intros (before & after & E & Ht & Hb).
           destruct before as [| b before].
           ++ inversion E; subst. reflexivity.
           ++ inversion E; subst. destruct (Hb b (or_introl eq_refl) H0).
      * split; [discriminate |].
        intros H. destruct (H t0 (or_introl eq_refl) H0).
    + assert (H0 : ~ name_matches t0 tableName).
      { intros H. apply Hhit in H. discriminate H. }
      split; [exact IHt | split].
      * intros t. rewrite IHs. split.
        -- intros (before & after & -> & Ht & Hb).
           exists (t0 :: before), after.
           split; [reflexivity | split; [assumption |]].
           intros t' [<- | Hin]; auto.
        -- intros (before & after & E & Ht & Hb).
           destruct before as [| b before].
           ++ inversion E; subst. contradiction.
           ++ inversion E; subst. exists before, after.
              split; [reflexivity | split; [assumption |]].
              intros t' Hin. apply Hb. right; assumption.
      * rewrite IHn. split.
        -- intros H t [<- | Hin]; auto.
        -- intros H t Hin. apply H. right; assumption.
Qed.

(** X7: [executeTool] fails in two ways only.  When no tool is filed
    under the name, it fails with "Tool not found: <name>" and leaves the
    registry as it was; when the handler of the tool fails, it fails with
    "Tool execution failed: " followed by the handler's message, in the
    state the handler left.  When it returns, it returns what the handler
    returned. *)
Theorem executeTool_outcomes (tools : list (str * MCPTool D)) (name : str)
    (params : jsval) (this : MCPToolRegistry D) :
  ((forall k t, In (k, t) tools -> k <> name) ->
   executeTool tools name params this
   = (Thrown (lit "Tool not found: " ++ name), this))
  /\ (forall message this',
        executeTool tools name params this = (Thrown message, this') ->
        (message = lit "Tool not found: " ++ name /\ this' = this
         /\ forall k t, In (k, t) tools -> k <> name)
        \/ exists tool message0,
             getTool tools name = Some tool
             /\ handler tool params this = (Thrown message0, this')
             /\ message = lit "Tool execution failed: " ++ message0)
  /\ (forall result this',
        executeTool tools name params this = (Returned result, this') ->
        exists tool,
          getTool tools name = Some tool
          /\ handler tool params this = (Returned result, this')).
Proof.
  unfold executeTool, getTool, st_try_catch, throw.
  destruct (map_get name tools) as [tool |] eqn:E.
  - split; [| split].
    + intros H. apply map_get_none in H. congruence.
    + intros message this'.
      destruct (handler tool params this) as [[result | message0] this1]
        eqn:Hh; intros H; inversion H; subst.
      right. exists tool, message0. auto.
    + intros result this'.
      destruct (handler tool params this) as [[result0 | message0] this1]
        eqn:Hh; intros H; inversion H; subst.
      exists tool. auto.
  - split; [reflexivity | split].
    + intros message this' H. inversion H; subst. left.
      repeat split. apply map_get_none, E.
    + intros result this' H. discriminate H.
Qed.

(** X8: [registerTools] files five tools, each under its own name:
    [getTool] finds a tool exactly for the names list_tables,
    describe_table, generate_sql, explain_sql and run_sql, and the tool it
    finds carries the name it was asked for. *)
Theorem registered_names :
  List.map fst (registerTools (D := D)) = tool_names
  /\ NoDup tool_names
  /\ (forall name, getTool (registerTools (D := D)) name = None
                   <-> ~ In name tool_names)
  /\ (forall name tool,
        getTool (registerTools (D := D)) name = Some tool ->
        Registry.name tool = name).
Proof.
  split; [reflexivity | split; [| split]].
  - unfold tool_names.
    repeat (constructor; [simpl; intuition discriminate |]). constructor.
  - intros name. unfold getTool. rewrite map_get_none. split.
    + intros H Hin.
      assert (Hk : exists t, In (name, t) (registerTools (D := D))).
      { unfold tool_names in Hin. simpl in Hin.
        destruct Hin as [<- | [<- | [<- | [<- | [<- | []]]]]];
          eexists; simpl; eauto 10. }
      destruct Hk as [t Ht]. exact (H name t Ht eq_refl).
    + intros H k t Hin ->. apply H.
      change tool_names with (List.map fst (registerTools (D := D))).
      apply (in_map fst) in Hin. exact Hin.
  - intros name tool. unfold getTool, registerTools. simpl.
    repeat match goal with
           | |- context [str_eqb name ?k] =>
               destruct (str_eqb name k) eqn:?E
           end;
      intros H; inversion H; subst;
      match goal with
      | E : str_eqb name _ = true |- _ =>
          apply JsStringFacts.str_eqb_eq in E; subst; reflexivity
      end.
Qed.

(** X9: with schema metadata in the registry, [list_tables] answers
    from it, whatever its parameters are: it returns the qualified names
    of the tables in metadata order and their number, and does not touch
    the provider.  Without metadata it asks the provider once, for the
    schema of its parameters, and a failure of the provider is the
    handler's failure; parameters that are [null] make it fail before the
    provider is asked. *)
Theorem list_tables_cached_or_asked :
  (forall (params : jsval) (this : MCPToolRegistry D) md,
      metadata this = Some md ->
      handler list_tables params this =
      (Returned
         (VObj [(lit "tables",
                 VArr (List.map VStr
                         (List.map Semantic.qualified_name (Semantic.tables md))));
                (lit "count",
                 VNum (Z.of_nat (List.length (Semantic.tables md))))]),
       this))
  /\ (forall (props : list (str * jsval)) (this : MCPToolRegistry D),
        metadata this = None ->
        let schema := lookup (lit "schema") props in
        handler list_tables (VObj props) this =
        match listTables schema (provider this) with
        | (Returned tables, d) =>
            (Returned (tables_result tables),
             after_call (CallListTables schema) d this)
        | (Thrown message, d) =>
            (Thrown message, after_call (CallListTables schema) d this)
        end)
  /\ (forall this : MCPToolRegistry D,
        metadata this = None ->
        handler list_tables VNull this
        = (Thrown (TypeError_message VNull (lit "schema")), this)).
Proof.
  split; [| split].
  - intros params this md H. unfold list_tables; cbn [handler].
    unfold bind, get, ret. rewrite H.
    unfold tables_result, Semantic.generateTablesList.
    rewrite length_map. reflexivity.
  - intros props this H schema. unfold list_tables; cbn [handler].
    unfold bind, get, ret, lift, call_provider. rewrite H. cbn [prop].
    fold schema.
    destruct (listTables schema (provider this)) as [[tables | message] d];
      reflexivity.
  - intros this H. unfold list_tables; cbn [handler].
    unfold bind, get, ret, lift. rewrite H. reflexivity.
Qed.

(** X10: [describe_table] answers from the metadata of the registry when
    [findTable] finds the table there, and then does not touch the
    provider; when there is no metadata, or the name matches no table of
    it, it asks the provider once, with the name and schema of its
    parameters.  With metadata that holds a table, a name that is not text
    makes it fail with a TypeError, and the provider is not asked. *)
Theorem describe_table_cached_or_asked :
  (forall (props : list (str * jsval)) (this : MCPToolRegistry D) md
          (tableName : str) (t : Semantic.TableMetadata),
      metadata this = Some md ->
      lookup (lit "table_name") props = VStr tableName ->
      Semantic.findTable md (VStr tableName) = Returned (Some t) ->
      handler describe_table (VObj props) this
      = (Returned (Semantic.table_value t), this))
  /\ (forall (props : list (str * jsval)) (this : MCPToolRegistry D),
        metadata this = None
        \/ (exists md,
              metadata this = Some md
              /\ Semantic.findTable md (lookup (lit "table_name") props)
                 = Returned None) ->
        let tableName := lookup (lit "table_name") props in
        let schema := lookup (lit "schema") props in
        handler describe_table (VObj props) this =
        match describeTable tableName schema (provider this) with
        | (Returned table, d) =>
            (Returned (Semantic.table_value table),
             after_call (CallDescribeTable tableName schema) d this)
        | (Thrown message, d) =>
            (Thrown message,
             after_call (CallDescribeTable tableName schema) d this)
        end)
  /\ (forall (props : list (str * jsval)) (this : MCPToolRegistry D) md,
        metadata this = Some md ->
        Semantic.tables md <> [] ->
        (forall s, lookup (lit "table_name") props <> VStr s) ->
        handler describe_table (VObj props) this
        = (Thrown (TypeError_message (lookup (lit "table_name") props)
                     (lit "endsWith")), this)).
Proof.
  split; [| split].
  - intros props this md tableName t Hm Hn Hf.
    unfold describe_table; cbn [handler].
    unfold bind, get, ret, lift. rewrite Hm. cbn [prop]. rewrite Hn, Hf.
    reflexivity.
  - intros props this Hcase tableName schema.
    unfold describe_table; cbn [handler].
    unfold bind, get, ret, lift, call_provider.
    destruct Hcase as [Hm | (md & Hm & Hf)]; rewrite Hm; cbn [prop];
      rewrite ?Hf; fold tableName; fold schema;
      destruct (describeTable tableName schema (provider this))
        as [[table | message] d]; reflexivity.
  - intros props this md Hm Hne Hns.
    unfold describe_table; cbn [handler].
    unfold bind, get, ret, lift. rewrite Hm. cbn [prop].
    unfold Semantic.findTable.
    destruct (Semantic.tables md) as [| t0 rest]; [congruence |].
    cbn [Semantic.find_first].
    destruct (lookup (lit "table_name") props) eqn:E; try reflexivity.
    destruct (Hns s eq_refl).
Qed.

(** X11: on parameters that are an object, [explain_sql] never fails and
    touches neither the registry nor the provider: it returns the whole
    analysis of [params.sql] as data, also when the text does not parse
    (then with [valid] false and the parse error among [errors]). *)
Theorem explain_sql_reports (props : list (str * jsval))
    (this : MCPToolRegistry D) :
  exists analysis,
    analyze (lookup (lit "sql") props) = Returned analysis
    /\ handler explain_sql (VObj props) this
       = (Returned (explanation (lookup (lit "sql") props) analysis), this)
    /\ (forall message,
          astify (lookup (lit "sql") props) = Thrown message ->
          isValid analysis = false
          /\ errors analysis = [lit "Parse error: " ++ message]).
Proof.
  destruct (analyze_total (lookup (lit "sql") props)) as [analysis Ha].
  exists analysis. split; [exact Ha | split].
  - unfold explain_sql; cbn [handler].
    unfold bind, ret, lift. cbn [prop]. rewrite Ha. reflexivity.
  - intros message Hm. rewrite analyze_cases, Hm in Ha.
    inversion Ha; subst. split; reflexivity.
Qed.

(** The handler of [run_sql] once the verdict is safe. *)
Lemma run_sql_safe (props : list (str * jsval)) (sql : str)
    (this : MCPToolRegistry D) (verdict : Validation) (analysis : SQLAnalysis) :
  lookup (lit "sql") props = VStr sql ->
  validateSafe (VStr sql) (readOnlyMode this) = Returned verdict ->
  safe verdict = true ->
  analyze (VStr sql) = Returned analysis ->
  handler run_sql (VObj props) this =
  let is_select := str_eqb (type analysis) (lit "select") in
  match (if is_select
         then addLimit (VStr sql) (effective_limit (lookup (lit "limit") props))
         else Returned (VStr sql)) with
  | Thrown message => (Thrown message, this)
  | Returned query =>
      match runQuery query (provider this) with
      | (Returned result, d) =>
          (Returned (query_result result is_select),
           after_call (CallRunQuery query) d this)
      | (Thrown message, d) =>
          (Thrown message, after_call (CallRunQuery query) d this)
      end
  end.
Proof.
  intros Hsql Hv Hs Ha. unfold run_sql; cbn [handler].
  unfold bind, get, ret, lift, throw, call_provider. cbn [prop].
  rewrite Hsql, Hv, Hs, Ha. cbn [negb]. cbv zeta.
  fold (effective_limit (lookup (lit "limit") props)).
  destruct (str_eqb (type analysis) (lit "select")).
  - destruct (addLimit (VStr sql) _) as [query | message]; [| reflexivity].
    destruct (runQuery query (provider this)) as [[result | message] d];
      reflexivity.
  - destruct (runQuery (VStr sql) (provider this)) as [[result | message] d];
      reflexivity.
Qed.

Lemma effective_limit_given (given : jsval) :
  default_limit (effective_limit given) = effective_limit given.
Proof.
  unfold effective_limit.
  destruct given as [| | b | n | s | items | props]; try reflexivity.
  - destruct b; reflexivity.
  - simpl. destruct (n =? 0)%Z; reflexivity.
  - destruct s; reflexivity.
Qed.

(** X12: for a statement that is declared safe and classified [select],
    [run_sql] sends the provider, in one [runQuery] call, what [addLimit]
    makes of the text with the limit [params.limit || 1000] (so a limit of
    0 counts as none): the text itself if it holds a LIMIT clause or does
    not start with SELECT, else the trimmed text with " LIMIT <limit>"
    appended.  The result reports [limited: true] in each of these
    cases. *)
Theorem run_sql_limits_select (props : list (str * jsval)) (sql : str)
    (this : MCPToolRegistry D) (verdict : Validation) (analysis : SQLAnalysis) :
  lookup (lit "sql") props = VStr sql ->
  validateSafe (VStr sql) (readOnlyMode this) = Returned verdict ->
  safe verdict = true ->
  analyze (VStr sql) = Returned analysis ->
  type analysis = lit "select" ->
  let limit := effective_limit (lookup (lit "limit") props) in
  let query :=
    if Regex.test true limit_pattern (trim sql) then sql
    else if Regex.test true select_pattern (trim sql)
    then trim sql ++ lit " LIMIT " ++ ToString limit
    else sql in
  (lookup (lit "limit") props = VUndefined \/ lookup (lit "limit") props = VNum 0 ->
   limit = VNum 1000)
  /\ (has_limit_clause (trim sql) \/ ~ starts_with (lit "SELECT") (trim sql) ->
      query = sql)
  /\ (~ has_limit_clause (trim sql) -> starts_with (lit "SELECT") (trim sql) ->
      query = trim sql ++ lit " LIMIT " ++ ToString limit)
  /\ handler run_sql (VObj props) this =
     match runQuery (VStr query) (provider this) with
     | (Returned result, d) =>
         (Returned (query_result result true),
          after_call (CallRunQuery (VStr query)) d this)
     | (Thrown message, d) =>
         (Thrown message, after_call (CallRunQuery (VStr query)) d this)
     end.
Proof.
  intros Hsql Hv Hs Ha Ht limit query.
  split; [| split; [| split]].
  - subst limit. intros [-> | ->]; reflexivity.
  - subst query. rewrite <- limit_pattern_spec, <- select_pattern_spec,
      <- !RegexFacts.test_spec.
    destruct (Regex.test true limit_pattern (trim sql)); [reflexivity |].
    destruct (Regex.test true select_pattern (trim sql)); [| reflexivity].
    intros [H | H]; [discriminate H | destruct (H eq_refl)].
  - subst query. rewrite <- limit_pattern_spec, <- select_pattern_spec,
      <- !RegexFacts.test_spec.
    destruct (Regex.test true limit_pattern (trim sql));
      [intros H; destruct (H eq_refl) |].
    destruct (Regex.test true select_pattern (trim sql));
      [reflexivity | discriminate].
  - rewrite (run_sql_safe _ _ Hsql Hv Hs Ha), Ht. cbv zeta.
    change (str_eqb (lit "select") (lit "select")) with true. cbv iota.
    rewrite addLimit_cases.
    subst limit. rewrite effective_limit_given. subst query.
    destruct (Regex.test true limit_pattern (trim sql));
      [| destruct (Regex.test true select_pattern (trim sql))];
      reflexivity.
Qed.

(** X13: a registry starts in read-only mode, where [run_sql] refuses a
    statement that is valid but not read-only, with "SQL validation failed:
    Write operations not allowed in read-only mode", and does not reach the
    provider.  After [setReadOnlyMode(false)] the same statement, if it is
    not classified [select] and holds no stacked statement, goes to the
    provider as it is, in one [runQuery] call, and the result reports
    [limited: false]. *)
Theorem read_only_gate (props : list (str * jsval)) (sql : str)
    (d : D) (md : option Semantic.DatabaseMetadata) (analysis : SQLAnalysis) :
  lookup (lit "sql") props = VStr sql ->
  analyze (VStr sql) = Returned analysis ->
  isValid analysis = true ->
  isReadOnly analysis = false ->
  handler run_sql (VObj props) (new_registry d md)
  = (Thrown (lit "SQL validation failed: "
               ++ lit "Write operations not allowed in read-only mode"),
     new_registry d md)
  /\ (type analysis <> lit "select" ->
      ~ has_stacked_statement sql ->
      let this := snd (setReadOnlyMode false (new_registry d md)) in
      readOnlyMode this = false
      /\ handler run_sql (VObj props) this =
         match runQuery (VStr sql) d with
         | (Returned result, d') =>
             (Returned (query_result result false),
              after_call (CallRunQuery (VStr sql)) d' this)
         | (Thrown message, d') =>
             (Thrown message, after_call (CallRunQuery (VStr sql)) d' this)
         end).
Proof.
  intros Hsql Ha Hvalid Hro. split.
  - unfold run_sql; cbn [handler].
    unfold bind, get, ret, lift, throw. cbn [prop]. rewrite Hsql.
    cbn [readOnlyMode new_registry].
    rewrite (validateSafe_cases _ _ Ha), Hvalid, Hro. reflexivity.
  - intros Hns Hst this. split; [reflexivity |].
    assert (Hv : validateSafe (VStr sql) (readOnlyMode this)
                 = Returned {| safe := true; reason := None |}).
    { rewrite (validateSafe_cases _ _ Ha), Hvalid.
      destruct (Regex.test true dangerous_pattern sql) eqn:E; [| reflexivity].
      apply RegexFacts.test_spec, dangerous_pattern_spec in E. contradiction. }
    rewrite (run_sql_safe _ _ Hsql Hv eq_refl Ha). cbv zeta.
    destruct (str_eqb (type analysis) (lit "select")) eqn:E.
    + apply JsStringFacts.str_eqb_eq in E. contradiction.
    + reflexivity.
Qed.

End WithProvider.
End RegistryMore.

(* ================================================================== *)
(** * Further properties of the orchestrator *)
(* ================================================================== *)

Module ChatMore.
Import Chat ChatSpec ChatFacts.

Lemma contains_refl (text : str) : contains text text.
Proof. exists [], []. rewrite app_nil_r. reflexivity. Qed.

Lemma contains_trans (a b c : str) :
  contains a b -> contains b c -> contains a c.
Proof.
  intros (p1 & q1 & ->) (p2 & q2 & ->).
  exists (p1 ++ p2), (q2 ++ q1). rewrite <- !app_assoc. reflexivity.
Qed.

Lemma join_contains (sep : str) (parts : list str) (part : str) :
  In part parts -> contains (join sep parts) part.
Proof.
  induction parts as [| p rest IH]; intros Hin; [destruct Hin |].
  destruct rest as [| q rest].
  - destruct Hin as [<- | []]. apply contains_refl.
  - change (join sep (p :: q :: rest)) with (p ++ sep ++ join sep (q :: rest)).
    destruct Hin as [<- | Hin].
    + exists [], (sep ++ join sep (q :: rest)). reflexivity.
    + destruct (IH Hin) as (before & after & ->).
      exists (p ++ sep ++ before), after. rewrite <- !app_assoc. reflexivity.
Qed.

Section WithClient.
Context {B : Builtins} {P : Validator.SqlParser}.
Context {L D : Type} {DB : Registry.IDatabaseProvider D} {LLM : LLMClient L D}.
Variable tools : list (str * Registry.MCPTool D).

(** X14: the system prompt names every registered tool: for each tool
    that [getTools] returns it holds the line "- <name>: <description>",
    and it holds the schema context it was built from; so does the system
    message of a new orchestrator. *)
Theorem system_prompt_lists_tools :
  (forall (schemaContext : str) (t : Registry.MCPTool D),
      In t (Registry.getTools tools) ->
      contains (system_prompt_text tools schemaContext)
        (lit "- " ++ Registry.name t ++ lit ": " ++ Registry.description t))
  /\ (forall schemaContext : str,
        contains (system_prompt_text tools schemaContext) schemaContext)
  /\ (forall (registry : Registry.MCPToolRegistry D) (client : L)
             (md : option Semantic.DatabaseMetadata) (t : Registry.MCPTool D),
        In t (Registry.getTools tools) ->
        exists first rest,
          messages (new_orchestrator tools registry client md) = first :: rest
          /\ role first = system
          /\ contains (content first)
               (lit "- " ++ Registry.name t ++ lit ": "
                  ++ Registry.description t)).
Proof.
  assert (Htool : forall schemaContext t,
             In t (Registry.getTools tools) ->
             contains (system_prompt_text tools schemaContext)
               (lit "- " ++ Registry.name t ++ lit ": "
                  ++ Registry.description t)).
  { intros schemaContext t Hin. unfold system_prompt_text.
    eapply contains_trans.
    - apply join_contains. do 7 right. left. reflexivity.
    - apply join_contains.
      apply (in_map (fun t0 => lit "- " ++ Registry.name t0 ++ lit ": "
                                 ++ Registry.description t0)) in Hin.
      exact Hin. }
  split; [exact Htool | split].
  - intros schemaContext. unfold system_prompt_text.
    apply join_contains. do 3 right. left. reflexivity.
  - intros registry client md t Hin. do 2 eexists.
    split; [reflexivity | split; [reflexivity |]].
    apply Htool, Hin.
Qed.

(** X15: [parseResponse] never fails and always returns an object
    whose [response_type] is truthy.  It returns the decoded reply as it is
    exactly when the content decodes to an object whose [response_type] and
    [description] are both truthy; in every other case (the content is not
    JSON, decodes to [null], to a primitive or an array, or lacks one of the
    two) it returns [{response_type: 'text', description: content,
    raw_response: content}].  What [response_type] is, is not looked at. *)
Theorem parseResponse_cases (content : str) :
  (forall message,
      JSON_parse content = Thrown message ->
      parseResponse content
      = VObj [(lit "response_type", VStr (lit "text"));
              (lit "description", VStr content);
              (lit "raw_response", VStr content)])
  /\ (forall props,
        JSON_parse content = Returned (VObj props) ->
        parseResponse content
        = if truthy (lookup (lit "response_type") props)
             && truthy (lookup (lit "description") props)
          then VObj props
          else VObj [(lit "response_type", VStr (lit "text"));
                     (lit "description", VStr content);
                     (lit "raw_response", VStr content)])
  /\ (forall v,
        JSON_parse content = Returned v ->
        (forall props, v <> VObj props) ->
        parseResponse content
        = VObj [(lit "response_type", VStr (lit "text"));
                (lit "description", VStr content);
                (lit "raw_response", VStr content)])
  /\ exists props,
       parseResponse content = VObj props
       /\ truthy (lookup (lit "response_type") props) = true.
Proof.
  assert (H : parseResponse content =
              match JSON_parse content with
              | Returned (VObj props) =>
                  if truthy (lookup (lit "response_type") props)
                     && truthy (lookup (lit "description") props)
                  then VObj props
                  else VObj [(lit "response_type", VStr (lit "text"));
                             (lit "description", VStr content);
                             (lit "raw_response", VStr content)]
              | _ => VObj [(lit "response_type", VStr (lit "text"));
                           (lit "description", VStr content);
                           (lit "raw_response", VStr content)]
              end).
  { unfold parseResponse, try_catch, obind.
    destruct (JSON_parse content)
      as [[| | b | n | s | items | props] | message];
      try reflexivity.
    cbn [prop].
    destruct (truthy (lookup (lit "response_type") props));
      [| reflexivity].
    destruct (truthy (lookup (lit "description") props)); reflexivity. }
  rewrite H. split; [| split; [| split]].
  - intros message ->. reflexivity.
  - intros props ->. reflexivity.
  - intros v -> Hv. destruct v as [| | b | n | s | items | props];
      try reflexivity.
    destruct (Hv props eq_refl).
  - destruct (JSON_parse content)
      as [[| | b | n | s | items | props] | message];
      try (eexists; split; reflexivity).
    destruct (truthy (lookup (lit "response_type") props)) eqn:E;
      [| eexists; split; reflexivity].
    destruct (truthy (lookup (lit "description") props));
      eexists; split; try reflexivity. exact E.
Qed.

Lemma chat_final_reply (userMessage : str) (o : ChatOrchestrator L D)
    (response : Message) (client' : L) :
  llm_chat (messages o ++ [user_message userMessage])
    (Registry.getTools tools) (llmClient o)
  = (Returned response, client') ->
  is_final response ->
  chat tools userMessage o =
  (Returned (parseResponse (content response)),
   set_messages (messages o ++ [user_message userMessage; response])
     (after_llm client' o)).
Proof.
  intros Hllm Hfinal. rewrite chat_unfold.
  change maxIterations with 5. rewrite chat_loop_step.
  cbn [messages set_messages llmClient]. unfold user_message in Hllm.
  rewrite Hllm. cbv zeta. unfold user_message.
  destruct Hfinal as [-> | ->]; cbn [messages set_messages after_llm];
    rewrite <- app_assoc; reflexivity.
Qed.

(** X16: when the first reply of the model asks for no tool, [chat]
    returns [parseResponse] of its content after one call of the client;
    the history grows by the user message and that reply, and the registry
    is not touched. *)
Theorem chat_answers_at_once (userMessage : str) (o : ChatOrchestrator L D)
    (response : Message) (client' : L) :
  llm_chat (messages o ++ [user_message userMessage])
    (Registry.getTools tools) (llmClient o)
  = (Returned response, client') ->
  is_final response ->
  chat tools userMessage o =
  (Returned (parseResponse (content response)),
   set_messages (messages o ++ [user_message userMessage; response])
     (after_llm client' o)).
Proof. apply chat_final_reply. Qed.

(** X17: when the client fails, [chat] fails with the client's message
    and the history is not rolled back: the user message stays in it.  So
    the next [chat] call hands the client a history with both user
    messages. *)
Theorem chat_failure_keeps_user_message (userMessage : str)
    (o : ChatOrchestrator L D) (message : str) (client' : L) :
  llm_chat (messages o ++ [user_message userMessage])
    (Registry.getTools tools) (llmClient o)
  = (Thrown message, client') ->
  let o' := after_llm client'
              (set_messages (messages o ++ [user_message userMessage]) o) in
  chat tools userMessage o = (Thrown message, o')
  /\ messages o' = messages o ++ [user_message userMessage]
  /\ forall (next : str) (response : Message) (client'' : L),
       llm_chat
         (messages o ++ [user_message userMessage; user_message next])
         (Registry.getTools tools) client'
       = (Returned response, client'') ->
       is_final response ->
       chat tools next o' =
       (Returned (parseResponse (content response)),
        set_messages
          (messages o
             ++ [user_message userMessage; user_message next; response])
          (after_llm client'' o')).
Proof.
  intros Hllm o'. split; [| split; [reflexivity |]].
  - rewrite chat_unfold. change maxIterations with 5. rewrite chat_loop_step.
    cbn [messages set_messages llmClient]. unfold user_message in Hllm.
    rewrite Hllm. reflexivity.
  - intros next response client'' Hnext Hfinal.
    assert (E : messages o' ++ [user_message next]
                = messages o ++ [user_message userMessage; user_message next]).
    { subst o'. cbn [messages after_llm set_messages].
      rewrite <- app_assoc. reflexivity. }
    rewrite <- E in Hnext.
    rewrite (chat_final_reply next o' Hnext Hfinal).
    subst o'. cbn [messages after_llm set_messages].
    rewrite <- !app_assoc. reflexivity.
Qed.

(** ** The shape of what a call appends *)

Lemma chat_loop_rounds (remaining : nat) :
  forall (o o' : ChatOrchestrator L D) (out : Outcome ChatResponse),
    chat_loop tools remaining o = (out, o') ->
    exists appended,
      messages o' = messages o ++ appended /\ rounds remaining appended.
Proof.
  induction remaining as [| remaining IH]; intros o o' out.
  - cbn. intros E. inversion E; subst.
    exists []. split; [symmetry; apply app_nil_r | constructor].
  - rewrite chat_loop_step.
    destruct (llm_chat (messages o) (Registry.getTools tools) (llmClient o))
      as [[response | failure] client'].
    + cbv zeta.
      destruct (tool_calls response) as [[| toolCall rest] |] eqn:Hcalls.
      * intros E. inversion E; subst. exists [response].
        split; [reflexivity | constructor; right; assumption].
      * destruct (dispatch_all_spec tools (toolCall :: rest)
                    (set_messages (messages o ++ [response])
                       (after_llm client' o)))
          as (texts & registry' & Hlen & ->).
        cbn [snd]. intros E.
        apply IH in E as (appended & -> & Hrounds).
        cbn [messages set_messages].
        exists (response :: tool_messages (toolCall :: rest) texts ++ appended).
        split; [rewrite <- !app_assoc; reflexivity |].
        apply rounds_more with (toolCalls := toolCall :: rest);
          [assumption | discriminate | | assumption].
        apply ChatFacts.tool_messages_answer, Hlen.
      * intros E. inversion E; subst. exists [response].
        split; [reflexivity | constructor; left; assumption].
    + intros E. inversion E; subst.
      exists []. split; [symmetry; apply app_nil_r | constructor].
Qed.

(** X18: whatever the client and the tools do, and whether the call
    returns or fails, one [chat] call appends to the history the user
    message and then at most 5 rounds: in each round the reply of the
    model, followed by exactly one [tool] message for each tool call of
    that reply, in the order of the calls and carrying their ids and
    names; a reply without tool calls can only come last. *)
Theorem chat_appends_rounds (userMessage : str) (o : ChatOrchestrator L D) :
  exists appended,
    messages (snd (chat tools userMessage o))
    = messages o ++ user_message userMessage :: appended
    /\ rounds 5 appended.
Proof.
  destruct (chat tools userMessage o) as [out o'] eqn:E. cbn [snd].
  rewrite chat_unfold in E.
  apply chat_loop_rounds in E as (appended & -> & Hrounds).
  exists appended. cbn [messages set_messages].
  rewrite <- app_assoc. split; [reflexivity | exact Hrounds].
Qed.

End WithClient.

Section WithRegisteredTools.
Context {B : Builtins} {P : Validator.SqlParser}.
Context {L D : Type} {DB : Registry.IDatabaseProvider D} {LLM : LLMClient L D}.


End WithRegisteredTools.
End ChatMore.

(* ================================================================== *)
(** * Further properties of the semantic layer *)
(* ================================================================== *)

Module SemanticFacts.
Import Semantic SemanticMore RegistryMore.

(** ** Lines *)

Lemma single_line_app (a b : str) :
  single_line (a ++ b) <-> single_line a /\ single_line b.
Proof.
  unfold single_line. rewrite in_app_iff. tauto.
Qed.

Lemma single_line_join (sep : str) (parts : list str) :
  single_line sep ->
  (forall p, In p parts -> single_line p) ->
  single_line (join sep parts).
Proof.
  intros Hsep. induction parts as [| p rest IH]; intros Hall.
  - intros [].
  - destruct rest as [| q rest].
    + apply Hall. left; reflexivity.
    + change (join sep (p :: q :: rest)) with (p ++ sep ++ join sep (q :: rest)).
      apply single_line_app. split; [apply Hall; left; reflexivity |].
      apply single_line_app. split; [assumption |].
      apply IH. intros p' Hin. apply Hall. right; assumption.
Qed.

Lemma split_lines_single (s : str) : single_line s -> split_lines s = [s].
Proof.
  induction s as [| c s IH]; intros H; [reflexivity |].
  cbn [split_lines].
  destruct (N.eqb c 10) eqn:E.
  - apply N.eqb_eq in E. subst. destruct H. left; reflexivity.
  - rewrite IH; [reflexivity |]. intros Hin. apply H. right; assumption.
Qed.

Lemma split_lines_app (a b : str) :
  single_line a ->
  split_lines (a ++ 10%N :: b) = a :: split_lines b.
Proof.
  induction a as [| c a IH]; intros H; [reflexivity |].
  cbn [app split_lines].
  destruct (N.eqb c 10) eqn:E.
  - apply N.eqb_eq in E. subst. destruct H. left; reflexivity.
  - rewrite IH; [reflexivity |]. intros Hin. apply H. right; assumption.
Qed.

Lemma split_lines_join (parts : list str) :
  parts <> [] ->
  (forall p, In p parts -> single_line p) ->
  split_lines (join [10%N] parts) = parts.
Proof.
  induction parts as [| p rest IH]; intros Hne Hall; [congruence |].
  destruct rest as [| q rest].
  - apply split_lines_single, Hall. left; reflexivity.
  - change (join [10%N] (p :: q :: rest))
      with (p ++ 10%N :: join [10%N] (q :: rest)).
    rewrite split_lines_app by (apply Hall; left; reflexivity).
    rewrite IH; [reflexivity | discriminate |].
    intros p' Hin. apply Hall. right; assumption.
Qed.

Lemma single_line_lit_checked (s : str) :
  forallb (fun c => negb (N.eqb c 10)) s = true -> single_line s.
Proof.
  intros H Hin. rewrite forallb_forall in H. apply H in Hin.
  discriminate Hin.
Qed.

Lemma column_line_single (c : ColumnMetadata) :
  single_line (column_name c) -> single_line (column_type c) ->
  single_line (column_line c).
Proof.
  intros Hn Ht. unfold column_line.
  apply single_line_join; [apply single_line_lit_checked; reflexivity |].
  intros p Hin.
  assert (Hp : p = column_name c \/ p = column_type c \/ p = lit "PK"
               \/ p = lit "FK" \/ p = lit "NOT NULL").
  { destruct (isPrimaryKey c), (isForeignKey c), (nullable c);
      simpl in Hin; intuition. }
  destruct Hp as [-> | [-> | [-> | [-> | ->]]]]; try assumption;
    apply single_line_lit_checked; reflexivity.
Qed.

Lemma table_line_single (t : TableMetadata) :
  table_on_one_line t -> single_line (table_line t).
Proof.
  intros (Hn & Hs & Hc). unfold table_line.
  repeat (apply single_line_app; split).
  - unfold qualified_name. destruct (table_schema t) as [[| c s] |];
      try assumption.
    repeat (apply single_line_app; split); try assumption.
    apply single_line_lit_checked; reflexivity.
  - apply single_line_lit_checked; reflexivity.
  - apply single_line_join; [apply single_line_lit_checked; reflexivity |].
    intros p Hin. apply in_map_iff in Hin as (c & <- & Hin).
    destruct (Hc c Hin). apply column_line_single; assumption.
  - apply single_line_lit_checked; reflexivity.
Qed.

(** X20: the compact schema has one line for each table, in metadata
    order: when no name or type of the metadata has a line break and there
    is at least one table, splitting the text at its line breaks gives back
    the lines of the tables, each "<qualified name> (<columns>)". *)
Theorem compact_schema_lines (md : DatabaseMetadata) :
  tables md <> [] ->
  (forall t, In t (tables md) -> table_on_one_line t) ->
  split_lines (generateCompactSchema md) = List.map table_line (tables md)
  /\ List.length (split_lines (generateCompactSchema md))
     = List.length (tables md).
Proof.
  intros Hne Hall.
  assert (E : split_lines (generateCompactSchema md)
              = List.map table_line (tables md)).
  { unfold generateCompactSchema. fold table_line.
    change (fun table : TableMetadata => table_line table) with table_line.
    apply split_lines_join.
    - destruct (tables md); [congruence | discriminate].
    - intros p Hin. apply in_map_iff in Hin as (t & <- & Hin).
      apply table_line_single, Hall, Hin. }
  split; [exact E | rewrite E; apply length_map].
Qed.

(** ** Groups *)

Lemma existsb_str (k : str) (l : list str) :
  existsb (str_eqb k) l = true <-> In k l.
Proof.
  rewrite existsb_exists. split.
  - intros (x & Hin & E). apply JsStringFacts.str_eqb_eq in E. subst.
    exact Hin.
  - intros Hin. exists k. split; [exact Hin |].
    apply JsStringFacts.str_eqb_refl.
Qed.

Lemma first_seen_In (k : str) (l : list str) :
  In k (first_seen l) <-> In k l.
Proof.
  induction l as [| a l IH]; [reflexivity |].
  cbn [first_seen]. simpl. rewrite filter_In, IH.
  destruct (str_eqb k a) eqn:E.
  - apply JsStringFacts.str_eqb_eq in E. subst. intuition.
  - simpl. intuition.
Qed.

Lemma first_seen_NoDup (l : list str) : NoDup (first_seen l).
Proof.
  induction l as [| a l IH]; [constructor |].
  cbn [first_seen]. constructor.
  - rewrite filter_In. intros [_ E].
    rewrite JsStringFacts.str_eqb_refl in E. discriminate E.
  - apply NoDup_filter, IH.
Qed.

Lemma first_seen_snoc (l : list str) (k : str) :
  first_seen (l ++ [k])
  = if existsb (str_eqb k) l then first_seen l else first_seen l ++ [k].
Proof.
  induction l as [| a l IH]; [reflexivity |].
  cbn [app first_seen existsb]. rewrite IH.
  destruct (str_eqb k a) eqn:E; simpl.
  - destruct (existsb (str_eqb k) l); [reflexivity |].
    rewrite filter_app. simpl. rewrite E. simpl. rewrite app_nil_r.
    reflexivity.
  - destruct (existsb (str_eqb k) l); [reflexivity |].
    rewrite filter_app. simpl. rewrite E. reflexivity.
Qed.

Lemma map_get_map {V : Type} (g : str -> V) (k : str) (ks : list str) :
  Registry.map_get k (List.map (fun x => (x, g x)) ks)
  = if existsb (str_eqb k) ks then Some (g k) else None.
Proof.
  induction ks as [| a ks IH]; [reflexivity |].
  simpl. destruct (str_eqb k a) eqn:E; [| exact IH].
  apply JsStringFacts.str_eqb_eq in E. subst. reflexivity.
Qed.

Lemma map_set_map {V : Type} (g g' : str -> V) (k : str) (v : V)
    (ks : list str) :
  NoDup ks -> g' k = v -> (forall k', k' <> k -> g' k' = g k') ->
  Registry.map_set k v (List.map (fun x => (x, g x)) ks)
  = if existsb (str_eqb k) ks
    then List.map (fun x => (x, g' x)) ks
    else List.map (fun x => (x, g' x)) ks ++ [(k, v)].
Proof.
  intros Hnd Hk Hother. induction ks as [| a ks IH]; [reflexivity |].
  inversion Hnd as [| a' ks' Hnotin Hnd']; subst a' ks'.
  simpl. destruct (str_eqb k a) eqn:E; simpl.
  - apply JsStringFacts.str_eqb_eq in E. subst a. rewrite Hk. f_equal.
    apply map_ext_in. intros x Hin. rewrite Hother; [reflexivity |].
    intros ->. contradiction.
  - rewrite (IH Hnd'). rewrite Hother.
    + destruct (existsb (str_eqb k) ks); reflexivity.
    + intros ->. rewrite JsStringFacts.str_eqb_refl in E. discriminate E.
Qed.

Lemma map_set_set {V : Type} (k : str) (v v' : V) (m : list (str * V)) :
  Registry.map_set k v (Registry.map_set k v' m) = Registry.map_set k v m.
Proof.
  induction m as [| [a w] m IH]; simpl.
  - rewrite JsStringFacts.str_eqb_refl. reflexivity.
  - destruct (str_eqb k a) eqn:E; simpl; rewrite E; [reflexivity |].
    rewrite IH. reflexivity.
Qed.

Lemma tables_of_schema_snoc (k : str) (done : list TableMetadata)
    (t : TableMetadata) :
  tables_of_schema k (done ++ [t])
  = if str_eqb (schema_key t) k then tables_of_schema k done ++ [t]
    else tables_of_schema k done.
Proof.
  unfold tables_of_schema. rewrite filter_app. simpl.
  destruct (str_eqb (schema_key t) k); [reflexivity | apply app_nil_r].
Qed.

Lemma tables_of_schema_absent (k : str) (done : list TableMetadata) :
  ~ In k (List.map schema_key done) -> tables_of_schema k done = [].
Proof.
  intros H. unfold tables_of_schema.
  induction done as [| t done IH]; [reflexivity |].
  simpl. destruct (str_eqb (schema_key t) k) eqn:E.
  - apply JsStringFacts.str_eqb_eq in E. destruct H. left; exact E.
  - apply IH. intros Hin. apply H. right; exact Hin.
Qed.

Section WithBuiltins.
Context {B : Builtins}.

Lemma group_table_step (done : list TableMetadata) (t : TableMetadata) :
  group_table t
    (List.map (fun k => (k, tables_of_schema k done))
       (first_seen (List.map schema_key done)))
  = Returned
      (List.map (fun k => (k, tables_of_schema k (done ++ [t])))
         (first_seen (List.map schema_key (done ++ [t])))).
Proof.
  unfold group_table. rewrite map_get_map.
  rewrite map_app. cbn [List.map]. rewrite first_seen_snoc.
  set (k := schema_key t).
  assert (Hsame : existsb (str_eqb k) (first_seen (List.map schema_key done))
                  = existsb (str_eqb k) (List.map schema_key done)).
  { apply eq_true_iff_eq. rewrite !existsb_str. apply first_seen_In. }
  rewrite Hsame.
  destruct (existsb (str_eqb k) (List.map schema_key done)) eqn:E.
  - rewrite map_get_map, Hsame. f_equal.
    rewrite (@map_set_map _ (fun k => tables_of_schema k done)
               (fun k => tables_of_schema k (done ++ [t]))).
    + rewrite Hsame. reflexivity.
    + apply first_seen_NoDup.
    + rewrite tables_of_schema_snoc. fold k.
      rewrite JsStringFacts.str_eqb_refl. reflexivity.
    + intros k' Hne. rewrite tables_of_schema_snoc. fold k.
      destruct (str_eqb k k') eqn:E'; [| reflexivity].
      apply JsStringFacts.str_eqb_eq in E'. congruence.
  - rewrite map_get_set_same. f_equal. rewrite map_set_set.
    rewrite (@map_set_map _ (fun k => tables_of_schema k done)
               (fun k => tables_of_schema k (done ++ [t]))).
    + rewrite Hsame. rewrite map_app. cbn [List.map].
      rewrite tables_of_schema_snoc. fold k.
      rewrite JsStringFacts.str_eqb_refl.
      rewrite tables_of_schema_absent; [reflexivity |].
      rewrite <- existsb_str. rewrite E. discriminate.
    + apply first_seen_NoDup.
    + rewrite tables_of_schema_snoc. fold k.
      rewrite JsStringFacts.str_eqb_refl.
      rewrite tables_of_schema_absent; [reflexivity |].
      rewrite <- existsb_str. rewrite E. discriminate.
    + intros k' Hne. rewrite tables_of_schema_snoc. fold k.
      destruct (str_eqb k k') eqn:E'; [| reflexivity].
      apply JsStringFacts.str_eqb_eq in E'. congruence.
Qed.

Lemma group_tables_from (rest done : list TableMetadata) :
  group_tables rest
    (List.map (fun k => (k, tables_of_schema k done))
       (first_seen (List.map schema_key done)))
  = Returned
      (List.map (fun k => (k, tables_of_schema k (done ++ rest)))
         (first_seen (List.map schema_key (done ++ rest)))).
Proof.
  revert done. induction rest as [| t rest IH]; intros done.
  - rewrite app_nil_r. reflexivity.
  - cbn [group_tables]. rewrite group_table_step. cbn [obind].
    rewrite IH, <- app_assoc. reflexivity.
Qed.

(** X21: [groupTablesBySchema] never throws and has one group for each
    distinct schema of the tables, in the order in which the schemas first
    appear; the group of a schema holds exactly the tables of that schema,
    in their order.  A table without a schema (or with an empty one) counts
    under "default", together with the tables whose schema is named
    "default". *)
Theorem groupTablesBySchema_groups (tables : list TableMetadata) :
  groupTablesBySchema tables
  = Returned
      (List.map (fun schema => (schema, tables_of_schema schema tables))
         (first_seen (List.map schema_key tables))).
Proof.
  exact (group_tables_from tables []).
Qed.

End WithBuiltins.

End SemanticFacts.

(* ================================================================== *)
(** * Properties of the schema scanner *)
(* ================================================================== *)

Module ScannerFacts.
Import Scanner.

Lemma bind_returned {S A B : Type} (c : ST S A) (k : A -> ST S B)
    (s s' : S) (a : A) :
  c s = (Returned a, s') -> bind c k s = k a s'.
Proof. intros H. unfold bind. rewrite H. reflexivity. Qed.

Lemma bind_thrown {S A B : Type} (c : ST S A) (k : A -> ST S B)
    (s s' : S) (m : str) :
  c s = (Thrown m, s') -> bind c k s = (Thrown m, s').
Proof. intros H. unfold bind. rewrite H. reflexivity. Qed.

Lemma count_app (p : ScanEvent -> bool) (a b : list ScanEvent) :
  count p (a ++ b) = count p a + count p b.
Proof. unfold count. rewrite filter_app, length_app. reflexivity. Qed.

Lemma same_scanner {D : Type} (s : SchemaScanner D) :
  s = {| provider := provider s; events := events s ++ [] |}.
Proof. destruct s. simpl. rewrite app_nil_r. reflexivity. Qed.

Lemma no_listing_nil : no_listing [].
Proof. split; [intros [] | intros schema []]. Qed.

Lemma no_listing_app (a b : list ScanEvent) :
  no_listing a -> no_listing b -> no_listing (a ++ b).
Proof.
  intros [Ha1 Ha2] [Hb1 Hb2]. split.
  - rewrite in_app_iff. tauto.
  - intros schema. rewrite in_app_iff. specialize (Ha2 schema).
    specialize (Hb2 schema). tauto.
Qed.

Lemma no_listing_reported (onProgress : ProgressCallback)
    (progress : ScanProgress) :
  no_listing (reported onProgress progress).
Proof.
  destruct onProgress; simpl; [| apply no_listing_nil].
  split; [intros [H | []]; discriminate H |].
  intros schema [H | []]; discriminate H.
Qed.

Lemma count_reported (onProgress : ProgressCallback)
    (progress : ScanProgress) :
  count is_describe (reported onProgress progress) = 0
  /\ count is_console_error (reported onProgress progress) = 0.
Proof. destruct onProgress; split; reflexivity. Qed.

Section WithProvider.
Context {D : Type} {P : Registry.IDatabaseProvider D} {PS : SchemaProvider D}.

Lemma report_run (onProgress : ProgressCallback) (progress : ScanProgress)
    (s : SchemaScanner D) :
  exists o,
    report onProgress progress s
    = (o, {| provider := provider s;
             events := events s ++ reported onProgress progress |})
    /\ (callback_returns onProgress -> o = Returned tt).
Proof.
  destruct onProgress as [callback |]; simpl.
  - unfold bind, log, modify, lift. simpl.
    destruct (callback progress) as [[] | m] eqn:E.
    + exists (Returned tt). split; [reflexivity | reflexivity].
    + exists (Thrown m). split; [reflexivity |].
      intros H. rewrite (H callback progress eq_refl) in E. discriminate E.
  - exists (Returned tt). unfold ret. split; [| reflexivity].
    f_equal. apply same_scanner.
Qed.

(** The [try] block of the inner loop always completes. *)
Lemma describe_run (schema : jsval) (tableName : str)
    (allTables : list Semantic.TableMetadata) (s : SchemaScanner D) :
  exists kept new d,
    st_try_catch
      (tableMetadata <-
         call_provider (ProviderDescribeTable (VStr tableName) schema)
           (Registry.describeTable (VStr tableName) schema) ;;
       ret (allTables ++ [tableMetadata]))
      (fun error =>
         log (ConsoleError
                (lit "Failed to describe table " ++ ToString schema
                   ++ lit "." ++ tableName ++ lit ":") error) ;;
         ret allTables) s
    = (Returned kept, {| provider := d; events := events s ++ new |})
    /\ no_listing new
    /\ accounted new (List.length allTables) (List.length kept).
Proof.
  unfold st_try_catch, bind, call_provider, log, modify, ret.
  destruct (Registry.describeTable (VStr tableName) schema (provider s))
    as [[tableMetadata | m] d] eqn:E.
  - exists (allTables ++ [tableMetadata]),
      [ProviderDescribeTable (VStr tableName) schema], d.
    split; [reflexivity |]. split.
    + split; [intros [H | []]; discriminate H |].
      intros sch [H | []]; discriminate H.
    + unfold accounted, count. rewrite length_app. simpl. lia.
  - exists allTables,
      [ProviderDescribeTable (VStr tableName) schema;
       ConsoleError (lit "Failed to describe table " ++ ToString schema
                       ++ lit "." ++ tableName ++ lit ":") m], d.
    split; [simpl; rewrite <- app_assoc; reflexivity |]. split.
    + split; [intros [H | [H | []]]; discriminate H |].
      intros sch [H | [H | []]]; discriminate H.
    + unfold accounted, count. simpl. lia.
Qed.

Lemma scan_tables_run (onProgress : ProgressCallback) (schema : jsval)
    (tables : list str) (count0 : nat) :
  forall (j : nat) (allTables : list Semantic.TableMetadata)
         (s : SchemaScanner D),
  exists o new d,
    scan_tables onProgress schema tables j count0 allTables s
    = (o, {| provider := d; events := events s ++ new |})
    /\ no_listing new
    /\ (forall kept, o = Returned kept ->
          accounted new (List.length allTables) (List.length kept))
    /\ (callback_returns onProgress -> exists kept, o = Returned kept).
Proof.
  induction tables as [| tableName rest IH]; intros j allTables s.
  - exists (Returned allTables), [], (provider s).
    split; [cbn [scan_tables]; unfold ret; f_equal; apply same_scanner |].
    split; [apply no_listing_nil |]. split.
    + intros kept H. inversion H; subst. unfold accounted, count. simpl. lia.
    + intros _. eexists; reflexivity.
  - cbn [scan_tables].
    match goal with
    | |- context [report onProgress ?p] =>
        destruct (report_run onProgress p s) as (o1 & E1 & R1);
        pose proof (no_listing_reported onProgress p) as N1;
        pose proof (count_reported onProgress p) as [C1 C1'];
        set (new1 := reported onProgress p) in *
    end.
    destruct o1 as [[] | m].
    + rewrite (bind_returned _ _ _ E1).
      match goal with
      | |- context [st_try_catch ?b ?h] =>
          destruct (describe_run schema tableName allTables
                      {| provider := provider s; events := events s ++ new1 |})
            as (kept1 & new2 & d2 & E2 & N2 & A2)
      end.
      cbn [events] in E2.
      rewrite (bind_returned _ _ _ E2).
      destruct (IH (j + 1) kept1
                  {| provider := d2; events := (events s ++ new1) ++ new2 |})
        as (o3 & new3 & d3 & E3 & N3 & A3 & R3).
      cbn [events] in E3.
      exists o3, (new1 ++ new2 ++ new3), d3.
      split; [rewrite E3; rewrite !app_assoc; reflexivity |].
      split; [apply no_listing_app; [exact N1 | apply no_listing_app; assumption] |].
      split; [| exact R3].
      intros kept H. specialize (A3 kept H). unfold accounted in *.
      rewrite !count_app. lia.
    + rewrite (bind_thrown _ _ _ E1).
      exists (Thrown m), new1, (provider s).
      split; [reflexivity |]. split; [exact N1 |]. split.
      * intros kept H. discriminate H.
      * intros H. specialize (R1 H). discriminate R1.
Qed.

Lemma scan_schemas_run (onProgress : ProgressCallback)
    (schemas : list jsval) (count0 : nat) :
  forall (i : nat) (allTables : list Semantic.TableMetadata)
         (s : SchemaScanner D),
  exists o new d,
    scan_schemas onProgress schemas i count0 allTables s
    = (o, {| provider := d; events := events s ++ new |})
    /\ ~ In ProviderListSchemas new
    /\ (forall schema, In (ProviderListTables schema) new -> In schema schemas)
    /\ (forall kept, o = Returned kept ->
          accounted new (List.length allTables) (List.length kept))
    /\ (callback_returns onProgress ->
        (forall schema, never_fails (Registry.listTables schema)) ->
        exists kept, o = Returned kept).
Proof.
  induction schemas as [| schema rest IH]; intros i allTables s.
  - exists (Returned allTables), [], (provider s).
    split; [cbn [scan_schemas]; unfold ret; f_equal; apply same_scanner |].
    split; [intros [] |]. split; [intros schema [] |]. split.
    + intros kept H. inversion H; subst. unfold accounted, count. simpl. lia.
    + intros _ _. eexists; reflexivity.
  - cbn [scan_schemas].
    match goal with
    | |- context [report onProgress ?p] =>
        destruct (report_run onProgress p s) as (o1 & E1 & R1);
        pose proof (no_listing_reported onProgress p) as [N1 N1'];
        pose proof (count_reported onProgress p) as [C1 C1'];
        set (new1 := reported onProgress p) in *
    end.
    destruct o1 as [[] | m].
    + rewrite (bind_returned _ _ _ E1).
      unfold bind at 1. unfold call_provider at 1. cbn [provider events].
      destruct (Registry.listTables schema (provider s))
        as [[tables | m] d2] eqn:E2.
      * destruct (scan_tables_run onProgress schema tables (List.length tables)
                    0 allTables
                    {| provider := d2;
                       events := (events s ++ new1)
                                   ++ [ProviderListTables schema] |})
          as (o3 & new3 & d3 & E3 & [N3 N3'] & A3 & R3).
        cbn [events] in E3.
        destruct o3 as [kept3 | m3].
        -- rewrite (bind_returned _ _ _ E3).
           destruct (IH (i + 1) kept3
                       {| provider := d3;
                          events := ((events s ++ new1)
                                       ++ [ProviderListTables schema])
                                      ++ new3 |})
             as (o4 & new4 & d4 & E4 & N4 & N4' & A4 & R4).
           cbn [events] in E4.
           exists o4, (new1 ++ [ProviderListTables schema] ++ new3 ++ new4), d4.
           split; [rewrite E4; rewrite !app_assoc; reflexivity |].
           split.
           { rewrite !in_app_iff. intros [H | [[H | []] | [H | H]]];
               [exact (N1 H) | discriminate H | exact (N3 H) | exact (N4 H)]. }
           split.
           { intros sch. rewrite !in_app_iff.
             intros [H | [[H | []] | [H | H]]].
             - destruct (N1' sch H).
             - inversion H; subst. left; reflexivity.
             - destruct (N3' sch H).
             - right. exact (N4' sch H). }
           split; [| exact R4].
           intros kept H. specialize (A4 kept H).
           specialize (A3 kept3 eq_refl). unfold accounted in *.
           rewrite !count_app.
           change (count is_describe [ProviderListTables schema]) with 0.
           change (count is_console_error [ProviderListTables schema]) with 0.
           lia.
        -- rewrite (bind_thrown _ _ _ E3).
           exists (Thrown m3), (new1 ++ [ProviderListTables schema] ++ new3), d3.
           split; [rewrite !app_assoc; reflexivity |].
           split.
           { rewrite !in_app_iff. intros [H | [[H | []] | H]];
               [exact (N1 H) | discriminate H | exact (N3 H)]. }
           split.
           { intros sch. rewrite !in_app_iff. intros [H | [[H | []] | H]].
             - destruct (N1' sch H).
             - inversion H; subst. left; reflexivity.
             - destruct (N3' sch H). }
           split; [intros kept H; discriminate H |].
           intros H _. destruct (R3 H) as [kept Hk]. discriminate Hk.
      * exists (Thrown m), (new1 ++ [ProviderListTables schema]), d2.
        split; [rewrite !app_assoc; reflexivity |].
        split.
        { rewrite !in_app_iff. intros [H | [H | []]];
            [exact (N1 H) | discriminate H]. }
        split.
        { intros sch. rewrite !in_app_iff. intros [H | [H | []]].
          - destruct (N1' sch H).
          - inversion H; subst. left; reflexivity. }
        split; [intros kept H; discriminate H |].
        intros _ H. destruct (H schema (provider s)) as (l & d' & Hl).
        rewrite Hl in E2. discriminate E2.
    + rewrite (bind_thrown _ _ _ E1).
      exists (Thrown m), new1, (provider s).
      split; [reflexivity |]. split; [exact N1 |].
      split; [intros sch H; destruct (N1' sch H) |].
      split; [intros kept H; discriminate H |].
      intros H. specialize (R1 H). discriminate R1.
Qed.

Lemma schemas_run (schemaName : jsval) (onProgress : ProgressCallback)
    (s : SchemaScanner D) :
  exists o new d,
    (if truthy schemaName then ret [schemaName]
     else
       report onProgress
         {| stage := lit "schemas"; current := 0; total := 1;
            message := lit "Fetching schemas..." |} ;;
       names <- call_provider ProviderListSchemas listSchemas ;;
       ret (List.map VStr names)) s
    = (o, {| provider := d; events := events s ++ new |})
    /\ (forall schema, ~ In (ProviderListTables schema) new)
    /\ count is_describe new = 0 /\ count is_console_error new = 0
    /\ (truthy schemaName = true -> new = [] /\ o = Returned [schemaName])
    /\ (callback_returns onProgress -> never_fails listSchemas ->
        exists schemas, o = Returned schemas).
Proof.
  destruct (truthy schemaName) eqn:T.
  - exists (Returned [schemaName]), [], (provider s).
    split; [unfold ret; f_equal; apply same_scanner |].
    split; [intros schema [] |]. split; [reflexivity |].
    split; [reflexivity |]. split; [intros _; split; reflexivity |].
    intros _ _. eexists; reflexivity.
  - match goal with
    | |- context [report onProgress ?p] =>
        destruct (report_run onProgress p s) as (o1 & E1 & R1);
        pose proof (no_listing_reported onProgress p) as [N1 N1'];
        pose proof (count_reported onProgress p) as [C1 C1'];
        set (new1 := reported onProgress p) in *
    end.
    destruct o1 as [[] | m].
    + rewrite (bind_returned _ _ _ E1).
      unfold bind, call_provider, ret. cbn [provider events].
      destruct (listSchemas (provider s)) as [[names | m] d2] eqn:E2.
      * exists (Returned (List.map VStr names)), (new1 ++ [ProviderListSchemas]),
          d2.
        split; [rewrite app_assoc; reflexivity |].
        split.
        { intros schema. rewrite in_app_iff. intros [H | [H | []]];
            [exact (N1' schema H) | discriminate H]. }
        rewrite !count_app, C1, C1'.
        split; [reflexivity |]. split; [reflexivity |].
        split; [intros H; discriminate H |].
        intros _ _. eexists; reflexivity.
      * exists (Thrown m), (new1 ++ [ProviderListSchemas]), d2.
        split; [rewrite app_assoc; reflexivity |].
        split.
        { intros schema. rewrite in_app_iff. intros [H | [H | []]];
            [exact (N1' schema H) | discriminate H]. }
        rewrite !count_app, C1, C1'.
        split; [reflexivity |]. split; [reflexivity |].
        split; [intros H; discriminate H |].
        intros _ H. destruct (H (provider s)) as (l & d' & Hl).
        rewrite Hl in E2. discriminate E2.
    + rewrite (bind_thrown _ _ _ E1).
      exists (Thrown m), new1, (provider s).
      split; [reflexivity |]. split; [exact N1' |].
      split; [exact C1 |]. split; [exact C1' |].
      split; [intros H; discriminate H |].
      intros H. specialize (R1 H). discriminate R1.
Qed.

Lemma scanDatabase_run (databaseName schemaName : jsval)
    (onProgress : ProgressCallback) (s : SchemaScanner D) :
  exists o new d,
    scanDatabase databaseName schemaName onProgress s
    = (o, {| provider := d; events := events s ++ new |})
    /\ (truthy schemaName = true ->
        ~ In ProviderListSchemas new
        /\ (forall schema, In (ProviderListTables schema) new ->
                           schema = schemaName)
        /\ forall r, o = Returned r -> scanned_schemas r = [schemaName])
    /\ (forall r, o = Returned r ->
          accounted new 0 (List.length (scanned_tables r))
          /\ scanned_name r
             = (if truthy databaseName then databaseName
                else VStr (lit "current"))
          /\ exists before,
               new = before
                       ++ reported onProgress
                            (completed (List.length (scanned_tables r))))
    /\ (callback_returns onProgress -> never_fails listSchemas ->
        (forall schema, never_fails (Registry.listTables schema)) ->
        exists r, o = Returned r).
Proof.
  unfold scanDatabase.
  destruct (schemas_run schemaName onProgress s)
    as (o1 & new1 & d1 & E1 & L1 & C1 & C1' & T1 & R1).
  destruct o1 as [schemas | m].
  - rewrite (bind_returned _ _ _ E1).
    destruct (scan_schemas_run onProgress schemas (List.length schemas) 0 []
                {| provider := d1; events := events s ++ new1 |})
      as (o2 & new2 & d2 & E2 & N2 & L2 & A2 & R2).
    cbn [events] in E2.
    destruct o2 as [kept | m].
    + rewrite (bind_returned _ _ _ E2).
      fold (completed (List.length kept)).
      destruct (report_run onProgress (completed (List.length kept))
                  {| provider := d2; events := (events s ++ new1) ++ new2 |})
        as (o3 & E3 & R3).
      pose proof (no_listing_reported onProgress
                    (completed (List.length kept))) as [N3 N3'].
      pose proof (count_reported onProgress
                    (completed (List.length kept))) as [C3 C3'].
      cbn [events provider] in E3.
      set (new3 := reported onProgress (completed (List.length kept))) in *.
      destruct o3 as [[] | m].
      * rewrite (bind_returned _ _ _ E3). unfold ret.
        eexists (Returned _), (new1 ++ new2 ++ new3), d2.
        split; [rewrite !app_assoc; reflexivity |].
        split.
        { intros T. destruct (T1 T) as [-> H1]. inversion H1; subst schemas.
          split.
          - simpl. rewrite in_app_iff. intros [H | H];
              [exact (N2 H) | exact (N3 H)].
          - split.
            + intros schema. simpl. rewrite in_app_iff. intros [H | H].
              * destruct (L2 schema H) as [H' | []]. symmetry; exact H'.
              * destruct (N3' schema H).
            + intros r H. inversion H; subst. reflexivity. }
        split.
        { intros r H. inversion H; subst r. cbn [scanned_tables scanned_name].
          split.
          - specialize (A2 kept eq_refl). unfold accounted in *.
            rewrite !count_app. simpl in A2. lia.
          - split; [reflexivity |].
            exists (new1 ++ new2). rewrite app_assoc. reflexivity. }
        intros _ _ _. eexists; reflexivity.
      * rewrite (bind_thrown _ _ _ E3).
        exists (Thrown m), (new1 ++ new2 ++ new3), d2.
        split; [rewrite !app_assoc; reflexivity |].
        split.
        { intros T. destruct (T1 T) as [-> H1]. inversion H1; subst schemas.
          split.
          - simpl. rewrite in_app_iff. intros [H | H];
              [exact (N2 H) | exact (N3 H)].
          - split.
            + intros schema. simpl. rewrite in_app_iff. intros [H | H].
              * destruct (L2 schema H) as [H' | []]. symmetry; exact H'.
              * destruct (N3' schema H).
            + intros r H. discriminate H. }
        split; [intros r H; discriminate H |].
        intros H _ _. specialize (R3 H). discriminate R3.
    + rewrite (bind_thrown _ _ _ E2).
      exists (Thrown m), (new1 ++ new2), d2.
      split; [rewrite !app_assoc; reflexivity |].
      split.
      { intros T. destruct (T1 T) as [-> H1]. inversion H1; subst schemas.
        split; [exact N2 |]. split.
        - intros schema H. destruct (L2 schema H) as [H' | []].
          symmetry; exact H'.
        - intros r H. discriminate H. }
      split; [intros r H; discriminate H |].
      intros H _ H'. destruct (R2 H H') as [kept Hk]. discriminate Hk.
  - rewrite (bind_thrown _ _ _ E1).
    exists (Thrown m), new1, d1.
    split; [reflexivity |].
    split; [intros T; destruct (T1 T) as [_ H]; discriminate H |].
    split; [intros r H; discriminate H |].
    intros H H' _. destruct (R1 H H') as [l Hl]. discriminate Hl.
Qed.

(** X22: a scan does not fail because tables cannot be described: when
    [listSchemas] and [listTables] never fail and the progress callback, if
    one is given, returns, [scanDatabase] returns a result, whatever
    [describeTable] does. *)
Theorem scan_survives_describe_failures
    (databaseName schemaName : jsval) (onProgress : ProgressCallback)
    (s : SchemaScanner D) :
  callback_returns onProgress ->
  never_fails listSchemas ->
  (forall schema, never_fails (Registry.listTables schema)) ->
  exists r s',
    scanDatabase databaseName schemaName onProgress s = (Returned r, s').
Proof.
  intros Hc Hs Ht.
  destruct (scanDatabase_run databaseName schemaName onProgress s)
    as (o & new & d & E & _ & _ & R).
  destruct (R Hc Hs Ht) as [r ->]. eauto.
Qed.

(** X23: when a schema name is given (a truthy value), the scan never
    asks the provider for its schemas and lists the tables of no other
    schema; the result, if there is one, has that schema alone. *)
Theorem scan_of_given_schema
    (databaseName schemaName : jsval) (onProgress : ProgressCallback)
    (s : SchemaScanner D) :
  truthy schemaName = true ->
  exists new,
    added s (snd (scanDatabase databaseName schemaName onProgress s)) new
    /\ ~ In ProviderListSchemas new
    /\ (forall schema, In (ProviderListTables schema) new ->
                       schema = schemaName)
    /\ forall r,
         fst (scanDatabase databaseName schemaName onProgress s) = Returned r ->
         scanned_schemas r = [schemaName].
Proof.
  intros T.
  destruct (scanDatabase_run databaseName schemaName onProgress s)
    as (o & new & d & E & H & _ & _).
  destruct (H T) as (H1 & H2 & H3).
  exists new. rewrite E. unfold added. simpl. auto.
Qed.

(** X24: every table that a scan asked the provider to describe is
    either in the result or was reported with [console.error]: the calls of
    [describeTable] are as many as the tables returned plus the failures
    logged.  The last thing a scan with a callback does is to report the
    stage "complete" with the number of tables kept, and the result is
    named "current" when no database name is given. *)
Theorem scan_accounts_for_tables
    (databaseName schemaName : jsval) (onProgress : ProgressCallback)
    (s s' : SchemaScanner D) (r : Scanned) :
  scanDatabase databaseName schemaName onProgress s = (Returned r, s') ->
  exists new,
    added s s' new
    /\ count is_describe new
       = List.length (scanned_tables r) + count is_console_error new
    /\ (exists before,
          new = before
                  ++ reported onProgress
                       (completed (List.length (scanned_tables r))))
    /\ scanned_name r
       = (if truthy databaseName then databaseName else VStr (lit "current")).
Proof.
  intros Hrun.
  destruct (scanDatabase_run databaseName schemaName onProgress s)
    as (o & new & d & E & _ & H & _).
  rewrite Hrun in E. inversion E; subst o s'.
  destruct (H r eq_refl) as (A & Hn & Hb).
  exists new. unfold added. cbn [events].
  split; [reflexivity |]. split; [| split; assumption].
  unfold accounted in A. lia.
Qed.

End WithProvider.

End ScannerFacts.

(* ================================================================== *)
(** * Properties of the relationship graph *)
(* ================================================================== *)

Module RelationshipFacts.
Import Semantic Relationships RegistryMore.

Lemma keys_map_set {V : Type} (k x : str) (v : V) (m : list (str * V)) :
  In x (List.map fst (Registry.map_set k v m)) ->
  x = k \/ In x (List.map fst m).
Proof.
  induction m as [| [a w] m IH]; simpl.
  - intros [H | []]. left. symmetry. exact H.
  - destruct (str_eqb k a) eqn:E; simpl.
    + tauto.
    + intros [H | H]; [tauto |]. destruct (IH H); tauto.
Qed.

Lemma NoDup_map_set {V : Type} (k : str) (v : V) (m : list (str * V)) :
  NoDup (List.map fst m) -> NoDup (List.map fst (Registry.map_set k v m)).
Proof.
  induction m as [| [a w] m IH]; simpl; intros H.
  - constructor; [intros [] | constructor].
  - inversion H as [| a' l Hnotin Hnd]; subst.
    destruct (str_eqb k a) eqn:E; simpl.
    + constructor; assumption.
    + constructor; [| apply IH; exact Hnd].
      intros Hin. apply keys_map_set in Hin as [-> | Hin]; [| contradiction].
      rewrite JsStringFacts.str_eqb_refl in E. discriminate E.
Qed.

Lemma map_get_set_cases {V : Type} (k a : str) (v : V) (m : list (str * V)) :
  (a = k /\ Registry.map_get a (Registry.map_set k v m) = Some v)
  \/ (a <> k
      /\ Registry.map_get a (Registry.map_set k v m) = Registry.map_get a m).
Proof.
  destruct (str_eqb a k) eqn:E.
  - apply JsStringFacts.str_eqb_eq in E. subst. left.
    split; [reflexivity | apply map_get_set_same].
  - right. assert (a <> k).
    { intros ->. rewrite JsStringFacts.str_eqb_refl in E. discriminate E. }
    split; [assumption | apply map_get_set_other; assumption].
Qed.

Lemma set_add_In (r b : str) (set : list str) :
  In b (set_add r set) <-> In b set \/ b = r.
Proof.
  unfold set_add. destruct (existsb (str_eqb r) set) eqn:E.
  - apply SemanticFacts.existsb_str in E. split; [tauto |].
    intros [H | ->]; assumption.
  - rewrite in_app_iff. simpl. intuition.
Qed.

Lemma set_add_NoDup (r : str) (set : list str) :
  NoDup set -> NoDup (set_add r set).
Proof.
  intros H. unfold set_add. destruct (existsb (str_eqb r) set) eqn:E;
    [exact H |].
  apply NoDup_app; [exact H | constructor; [intros [] | constructor] |].
  intros x Hin [<- | []].
  apply SemanticFacts.existsb_str in Hin. rewrite Hin in E. discriminate E.
Qed.

Lemma represents_ext (N N' : str -> Prop) (E E' : str -> str -> Prop)
    (graph : Graph) :
  (forall a, N a <-> N' a) -> (forall a b, E a b <-> E' a b) ->
  represents N E graph -> represents N' E' graph.
Proof.
  intros HN HE (H1 & H2 & H3 & H4). split; [exact H1 |].
  split; [intros a; rewrite H2; apply HN |].
  split; [intros a b; rewrite H3; apply HE | exact H4].
Qed.

Lemma represents_nil : represents (fun _ => False) (fun _ _ => False) [].
Proof.
  split; [constructor |]. split; [intros a; simpl; tauto |].
  split; [| intros a set H; discriminate H].
  intros a b. split; [intros (set & H & _); discriminate H | tauto].
Qed.

Lemma add_node_represents (N : str -> Prop) (E : str -> str -> Prop)
    (n : str) (graph : Graph) :
  represents N E graph ->
  represents (fun a => N a \/ a = n) E (add_node n graph).
Proof.
  intros (H1 & H2 & H3 & H4). unfold add_node.
  destruct (Registry.map_get n graph) as [set |] eqn:G.
  - split; [exact H1 |]. split; [| split; assumption].
    intros a. rewrite H2. split; [tauto |].
    intros [H | ->]; [exact H |]. apply H2. rewrite G. discriminate.
  - split; [apply NoDup_map_set; exact H1 |]. split; [| split].
    + intros a.
      destruct (map_get_set_cases n a (@nil str) graph) as [[-> ->] | [Hne ->]].
      * split; [tauto | discriminate].
      * rewrite H2. tauto.
    + intros a b. rewrite <- H3.
      destruct (map_get_set_cases n a (@nil str) graph) as [[-> ->] | [Hne ->]].
      * rewrite G. split; intros (set & H & Hin); [| discriminate H].
        inversion H; subst. destruct Hin.
      * reflexivity.
    + intros a set.
      destruct (map_get_set_cases n a (@nil str) graph) as [[-> ->] | [Hne ->]].
      * intros H. inversion H. constructor.
      * apply H4.
Qed.

Section WithDetails.
Context {B : Builtins} {TD : TableDetails}.

Lemma add_reference_represents (N : str -> Prop) (E : str -> str -> Prop)
    (a r : str) (graph : Graph) :
  represents N E graph -> N a ->
  exists graph',
    add_reference a r graph = Returned graph'
    /\ represents (fun x => N x \/ x = r)
         (fun x y => E x y \/ (x = a /\ y = r)) graph'.
Proof.
  intros (H1 & H2 & H3 & H4) Ha. unfold add_reference.
  destruct (Registry.map_get a graph) as [set |] eqn:G.
  2: { apply H2 in Ha. contradiction. }
  eexists. split; [reflexivity |].
  apply add_node_represents.
  split; [apply NoDup_map_set; exact H1 |]. split; [| split].
  - intros x.
    destruct (map_get_set_cases a x (set_add r set) graph)
      as [[-> ->] | [Hne ->]].
    + split; [intros _; exact Ha | discriminate].
    + apply H2.
  - intros x y.
    destruct (map_get_set_cases a x (set_add r set) graph)
      as [[-> ->] | [Hne ->]].
    + split.
      * intros (set' & H & Hin). inversion H; subst set'.
        apply set_add_In in Hin as [Hin | ->]; [| right; tauto].
        left. apply H3. exists set. tauto.
      * intros [H | [_ ->]].
        -- apply H3 in H as (set' & H & Hin). rewrite G in H.
           inversion H; subst set'. exists (set_add r set).
           split; [reflexivity |]. apply set_add_In. tauto.
        -- exists (set_add r set). split; [reflexivity |].
           apply set_add_In. tauto.
    + rewrite H3. split; [tauto |]. intros [H | [-> _]]; [exact H |].
      congruence.
  - intros x set'.
    destruct (map_get_set_cases a x (set_add r set) graph)
      as [[-> ->] | [Hne ->]].
    + intros H. inversion H. apply set_add_NoDup. exact (H4 a set G).
    + apply H4.
Qed.

Lemma add_references_represents (table : TableMetadata) (a : str)
    (fks : list ForeignKeyMetadata) :
  forall (N : str -> Prop) (E : str -> str -> Prop) (graph : Graph),
  represents N E graph -> N a ->
  exists graph',
    add_references table a fks graph = Returned graph'
    /\ represents
         (fun x => N x \/ exists fk, In fk fks /\ x = referenced_name table fk)
         (fun x y => E x y
                     \/ (x = a /\ exists fk, In fk fks
                                            /\ y = referenced_name table fk))
         graph'.
Proof.
  induction fks as [| fk rest IH]; intros N E graph H Ha.
  - exists graph. split; [reflexivity |].
    revert H. apply represents_ext.
    + intros x. split; [tauto |]. intros [H | (fk & [] & _)]. exact H.
    + intros x y. split; [tauto |]. intros [H | (_ & fk & [] & _)]. exact H.
  - cbn [add_references].
    destruct (add_reference_represents a (referenced_name table fk) H Ha)
      as (g1 & -> & H1).
    cbn [obind].
    destruct (IH _ _ g1 H1 (or_introl Ha)) as (g2 & -> & H2).
    exists g2. split; [reflexivity |].
    revert H2. apply represents_ext.
    + intros x. simpl. split.
      * intros [[H' | ->] | (fk' & Hin & ->)]; eauto.
      * intros [H' | (fk' & [<- | Hin] & ->)]; eauto.
    + intros x y. simpl. split.
      * intros [[H' | [-> ->]] | (-> & fk' & Hin & ->)]; eauto 6.
      * intros [H' | (-> & fk' & [<- | Hin] & ->)]; eauto 7.
Qed.

Lemma add_tables_represents (tables : list TableMetadata) :
  forall (N : str -> Prop) (E : str -> str -> Prop) (graph : Graph),
  represents N E graph ->
  exists graph',
    add_tables tables graph = Returned graph'
    /\ represents (fun x => N x \/ mentioned tables x)
         (fun x y => E x y \/ references tables x y) graph'.
Proof.
  induction tables as [| table rest IH]; intros N E graph H.
  - exists graph. split; [reflexivity |].
    revert H. apply represents_ext.
    + intros x. split; [tauto |].
      intros [H | [(t & [] & _) | (s & t & fk & [] & _)]]. exact H.
    + intros x y. split; [tauto |].
      intros [H | (t & fk & [] & _)]. exact H.
  - cbn [add_tables].
    pose proof (add_node_represents (qualified_name table) H) as H0.
    destruct (add_references_represents table (qualified_name table)
                (foreignKeys table) H0 (or_intror eq_refl))
      as (g1 & -> & H1).
    cbn [obind].
    destruct (IH _ _ g1 H1) as (g2 & -> & H2).
    exists g2. split; [reflexivity |].
    revert H2. apply represents_ext.
    + intros x. unfold mentioned, references. simpl. split.
      * intros [[[H' | ->] | (fk & Hin & ->)] | [(t & Hin & ->) | (s & t & fk & Hin & Hfk & -> & ->)]];
          eauto 12.
      * intros [H' | [(t & [<- | Hin] & ->) | (s & t & fk & [<- | Hin] & Hfk & -> & ->)]];
          eauto 12.
    + intros x y. unfold references. simpl. split.
      * intros [[H' | (-> & fk & Hin & ->)] | (t & fk & Hin & Hfk & -> & ->)];
          eauto 12.
      * intros [H' | (t & fk & [<- | Hin] & Hfk & -> & ->)]; eauto 12.
Qed.

(** X25: [buildRelationshipGraph] never throws.  The nodes of its graph
    are exactly the qualified names of the tables and the targets of their
    foreign keys, each once; the successors of a node are exactly the
    targets of the foreign keys of the tables of that name, each once; so
    every successor is itself a node. *)
Theorem relationship_graph (metadata : DatabaseMetadata) :
  exists graph,
    buildRelationshipGraph metadata = Returned graph
    /\ represents (mentioned (tables metadata))
         (references (tables metadata)) graph
    /\ forall a set b,
         Registry.map_get a graph = Some set -> In b set ->
         Registry.map_get b graph <> None.
Proof.
  destruct (add_tables_represents (tables metadata) represents_nil)
    as (graph & Hrun & Hrep).
  exists graph. split; [exact Hrun |].
  assert (Hrep' : represents (mentioned (tables metadata))
                    (references (tables metadata)) graph).
  { revert Hrep. apply represents_ext; intros; tauto. }
  split; [exact Hrep' |].
  destruct Hrep' as (_ & H2 & H3 & _).
  intros a set b Hget Hin. apply H2. right. exists a. apply H3.
  exists set. tauto.
Qed.

End WithDetails.

End RelationshipFacts.

(* ================================================================== *)
(** * Properties of the error text of the LLM clients *)
(* ================================================================== *)

Module LlmClientFacts.
Import LlmClient.

Lemma existsb_gt (text : str) :
  existsb (N.eqb 62) text = true <-> In 62%N text.
Proof.
  rewrite existsb_exists. split.
  - intros (x & Hin & E). apply N.eqb_eq in E. subst. exact Hin.
  - intros H. exists 62%N. split; [exact H | reflexivity].
Qed.

(** ** Tags *)

Lemma strip_keeps_no_gt (inside : bool) (text : str) :
  existsb (N.eqb 62) text = false ->
  existsb (N.eqb 62) (strip_tags_from inside text) = false.
Proof.
  revert inside. induction text as [| c rest IH]; intros inside H;
    [reflexivity |].
  cbn [existsb] in H. apply orb_false_iff in H as [Hc Hrest].
  assert (Hc' : N.eqb c 62 = false) by (rewrite N.eqb_sym; exact Hc).
  cbn [strip_tags_from]. rewrite Hc', Hrest, andb_false_r.
  destruct inside; [apply IH; exact Hrest |].
  cbn [existsb]. rewrite Hc. apply IH. exact Hrest.
Qed.

Lemma strip_tag_free (inside : bool) (text : str) :
  tag_free (strip_tags_from inside text) = true.
Proof.
  revert inside. induction text as [| c rest IH]; intros inside;
    [reflexivity |].
  cbn [strip_tags_from]. destruct inside.
  - destruct (N.eqb c 62); [| apply IH].
    cbn [tag_free]. rewrite IH. reflexivity.
  - destruct (N.eqb c 60) eqn:Ec; cbn [andb].
    + destruct (existsb (N.eqb 62) rest) eqn:Eg; [apply IH |].
      cbn [tag_free]. rewrite Ec, IH, strip_keeps_no_gt by exact Eg.
      reflexivity.
    + cbn [tag_free]. rewrite Ec, IH. reflexivity.
Qed.

Lemma space_not_angle (c : N) :
  is_space c = true -> N.eqb c 60 = false /\ N.eqb c 62 = false.
Proof.
  intros H. split; apply N.eqb_neq; intros ->; discriminate H.
Qed.

Lemma collapse_gt (after_space : bool) (text : str) :
  existsb (N.eqb 62) (collapse_from after_space text)
  = existsb (N.eqb 62) text.
Proof.
  revert after_space. induction text as [| c rest IH]; intros after_space;
    [reflexivity |].
  cbn [collapse_from existsb]. destruct (is_space c) eqn:Es.
  - destruct (space_not_angle c Es) as [_ Hc]. rewrite N.eqb_sym in Hc.
    rewrite Hc. destruct after_space; cbn [existsb N.eqb orb]; apply IH.
  - cbn [existsb]. rewrite IH. reflexivity.
Qed.

Lemma collapse_tag_free (after_space : bool) (text : str) :
  tag_free text = true -> tag_free (collapse_from after_space text) = true.
Proof.
  revert after_space. induction text as [| c rest IH]; intros after_space H;
    [reflexivity |].
  cbn [tag_free] in H. apply andb_true_iff in H as [Hc Hrest].
  cbn [collapse_from]. destruct (is_space c) eqn:Es.
  - destruct after_space; [apply IH; exact Hrest |].
    cbn [tag_free]. rewrite IH by exact Hrest. reflexivity.
  - cbn [tag_free]. rewrite collapse_gt, Hc, IH by exact Hrest. reflexivity.
Qed.

Lemma tag_free_suffix (a b : str) :
  tag_free (a ++ b) = true -> tag_free b = true.
Proof.
  induction a as [| c a IH]; [trivial |].
  cbn [app tag_free]. intros H. apply andb_true_iff in H as [_ H].
  apply IH, H.
Qed.

Lemma tag_free_prefix (a b : str) :
  tag_free (a ++ b) = true -> tag_free a = true.
Proof.
  induction a as [| c a IH]; [reflexivity |].
  cbn [app tag_free]. intros H. apply andb_true_iff in H as [Hc H].
  rewrite (IH H), andb_true_r.
  destruct (N.eqb c 60); [| reflexivity].
  rewrite existsb_app in Hc. apply negb_true_iff in Hc.
  apply orb_false_iff in Hc as [-> _]. reflexivity.
Qed.

Lemma dropWhile_suffix (p : N -> bool) (s : str) :
  exists before, s = before ++ dropWhile p s.
Proof.
  induction s as [| c s [before IH]]; [exists []; reflexivity |].
  simpl. destruct (p c).
  - exists (c :: before). simpl. f_equal. exact IH.
  - exists []. reflexivity.
Qed.

Lemma trimEnd_prefix (s : str) : exists after, s = trimEnd s ++ after.
Proof.
  unfold trimEnd. destruct (dropWhile_suffix is_space (rev s)) as [before H].
  exists (rev before). rewrite <- rev_app_distr, <- H, rev_involutive.
  reflexivity.
Qed.

Lemma trim_tag_free (text : str) :
  tag_free text = true -> tag_free (trim text) = true.
Proof.
  intros H. unfold trim.
  destruct (trimEnd_prefix (trimStart text)) as [after Ha].
  destruct (dropWhile_suffix is_space text) as [before Hb].
  fold (trimStart text) in Hb. rewrite Hb in H.
  apply tag_free_suffix in H. rewrite Ha in H.
  apply tag_free_prefix in H. exact H.
Qed.

Lemma tag_free_no_markup (text : str) :
  tag_free text = true -> no_markup text.
Proof.
  intros H before after ->. apply tag_free_suffix in H.
  cbn [tag_free] in H. rewrite N.eqb_refl in H.
  apply andb_true_iff in H as [H _]. apply negb_true_iff in H.
  intros Hin. apply existsb_gt in Hin. rewrite Hin in H. discriminate H.
Qed.

(** ** White space *)

Lemma collapse_single_spaced (after_space : bool) (text : str) :
  single_spaced after_space (collapse_from after_space text) = true.
Proof.
  revert after_space. induction text as [| c rest IH]; intros after_space;
    [reflexivity |].
  cbn [collapse_from]. destruct (is_space c) eqn:Es.
  - destruct after_space; [apply IH |].
    cbn [single_spaced]. change (is_space 32) with true. cbn.
    apply IH.
  - cbn [single_spaced]. rewrite Es. apply IH.
Qed.

Lemma single_spaced_weaken (text : str) :
  single_spaced true text = true -> single_spaced false text = true.
Proof.
  destruct text as [| c rest]; [trivial |].
  cbn [single_spaced]. destruct (is_space c); [| trivial].
  rewrite andb_false_r. discriminate.
Qed.

Lemma single_spaced_any (b : bool) (text : str) :
  single_spaced b text = true -> single_spaced false text = true.
Proof.
  destruct b; [apply single_spaced_weaken | trivial].
Qed.

Lemma single_spaced_suffix (b : bool) (a rest : str) :
  single_spaced b (a ++ rest) = true -> single_spaced false rest = true.
Proof.
  revert b. induction a as [| c a IH]; intros b; [apply single_spaced_any |].
  cbn [app single_spaced]. destruct (is_space c).
  - intros H. apply andb_true_iff in H as [_ H]. exact (IH _ H).
  - apply IH.
Qed.

Lemma single_spaced_prefix (b : bool) (a rest : str) :
  single_spaced b (a ++ rest) = true -> single_spaced b a = true.
Proof.
  revert b. induction a as [| c a IH]; intros b; [reflexivity |].
  cbn [app single_spaced]. destruct (is_space c).
  - intros H. apply andb_true_iff in H as [H1 H].
    rewrite H1, (IH _ H). reflexivity.
  - apply IH.
Qed.

Lemma single_spaced_blank (b : bool) (text : str) (c : N) :
  single_spaced b text = true -> In c text -> is_space c = true -> c = 32%N.
Proof.
  revert b. induction text as [| d rest IH]; intros b H Hin Hs;
    [destruct Hin |].
  cbn [single_spaced] in H. destruct Hin as [-> | Hin].
  - rewrite Hs in H. apply andb_true_iff in H as [H _].
    apply andb_true_iff in H as [H _]. apply N.eqb_eq, H.
  - destruct (is_space d).
    + apply andb_true_iff in H as [_ H]. exact (IH _ H Hin Hs).
    + exact (IH _ H Hin Hs).
Qed.

Lemma single_spaced_apart (b : bool) (text before after : str) :
  single_spaced b text = true -> text <> before ++ 32%N :: 32%N :: after.
Proof.
  intros H ->. apply single_spaced_suffix in H.
  cbn [single_spaced] in H. change (is_space 32) with true in H.
  cbn in H. discriminate H.
Qed.

(** ** Trimming *)

Lemma dropWhile_idem (p : N -> bool) (s : str) :
  dropWhile p (dropWhile p s) = dropWhile p s.
Proof.
  induction s as [| c s IH]; [reflexivity |].
  simpl. destruct (p c) eqn:E; [exact IH |]. simpl. rewrite E. reflexivity.
Qed.

Lemma dropWhile_snoc (p : N -> bool) (s : str) (c : N) :
  p c = false -> dropWhile p (s ++ [c]) = dropWhile p s ++ [c].
Proof.
  intros Hc. induction s as [| d s IH]; simpl; [rewrite Hc; reflexivity |].
  destruct (p d); [exact IH | reflexivity].
Qed.

Lemma trim_idem (s : str) : trim (trim s) = trim s.
Proof.
  unfold trim.
  assert (Hstart : trimStart (trimStart s) = trimStart s)
    by apply dropWhile_idem.
  revert Hstart. generalize (trimStart s). intros x Hx.
  assert (H : trimStart (trimEnd x) = trimEnd x).
  { destruct x as [| c x]; [reflexivity |].
    unfold trimStart in Hx. simpl in Hx.
    destruct (is_space c) eqn:Es.
    - exfalso. destruct (dropWhile_suffix is_space x) as [before Hb].
      rewrite Hx in Hb. apply (f_equal (@List.length N)) in Hb.
      rewrite length_app in Hb. simpl in Hb. lia.
    - unfold trimEnd. simpl. rewrite dropWhile_snoc by exact Es.
      rewrite rev_app_distr. simpl. unfold trimStart. simpl. rewrite Es.
      reflexivity. }
  rewrite H. unfold trimEnd. rewrite rev_involutive, dropWhile_idem.
  reflexivity.
Qed.

Lemma trim_single_spaced (text : str) :
  single_spaced false text = true -> single_spaced false (trim text) = true.
Proof.
  intros H. unfold trim.
  destruct (trimEnd_prefix (trimStart text)) as [after Ha].
  destruct (dropWhile_suffix is_space text) as [before Hb].
  fold (trimStart text) in Hb. rewrite Hb in H.
  apply single_spaced_suffix in H. rewrite Ha in H.
  apply single_spaced_prefix in H. exact H.
Qed.

Lemma plain_text_checked (errorMessage : str) :
  existsb (N.eqb 60) errorMessage = true ->
  tag_free (plain_text errorMessage) = true
  /\ single_spaced false (plain_text errorMessage) = true
  /\ trim (plain_text errorMessage) = plain_text errorMessage.
Proof.
  intros H. unfold plain_text. rewrite H. split; [| split].
  - apply trim_tag_free, collapse_tag_free, strip_tag_free.
  - apply trim_single_spaced, collapse_single_spaced.
  - apply trim_idem.
Qed.

Lemma strip_tag_free_same (text : str) :
  tag_free text = true -> strip_tags_from false text = text.
Proof.
  induction text as [| c rest IH]; [reflexivity |].
  cbn [tag_free strip_tags_from]. intros H.
  apply andb_true_iff in H as [Hc Hrest]. rewrite (IH Hrest).
  destruct (N.eqb c 60); [| reflexivity].
  apply negb_true_iff in Hc. rewrite Hc. reflexivity.
Qed.

Lemma collapse_single_spaced_same (after_space : bool) (text : str) :
  single_spaced after_space text = true ->
  collapse_from after_space text = text.
Proof.
  revert after_space. induction text as [| c rest IH]; intros after_space;
    [reflexivity |].
  cbn [single_spaced collapse_from]. destruct (is_space c).
  - intros H. apply andb_true_iff in H as [H Hrest].
    apply andb_true_iff in H as [Hc Hb]. apply N.eqb_eq in Hc.
    apply negb_true_iff in Hb. subst. rewrite (IH _ Hrest). reflexivity.
  - intros H. rewrite (IH _ H). reflexivity.
Qed.

(** X26: an error text that has a [<] comes out without markup and
    tidy: no [<] of the result has a [>] after it, its white space is
    single blanks, and it neither starts nor ends with white space. *)
Theorem plain_text_has_no_markup (errorMessage : str) :
  In 60%N errorMessage ->
  no_markup (plain_text errorMessage) /\ tidy (plain_text errorMessage).
Proof.
  intros Hin.
  assert (H : existsb (N.eqb 60) errorMessage = true).
  { apply existsb_exists. exists 60%N. split; [exact Hin | reflexivity]. }
  destruct (plain_text_checked errorMessage H) as (H1 & H2 & H3).
  split; [apply tag_free_no_markup, H1 |].
  split; [| split; [| exact H3]].
  - intros c. apply single_spaced_blank with (b := false). exact H2.
  - intros before after. apply single_spaced_apart with (b := false).
    exact H2.
Qed.

(** X27: cleaning an error text twice changes nothing more: the text
    that [plain_text] gives is one that it leaves as it is. *)
Theorem plain_text_idempotent (errorMessage : str) :
  plain_text (plain_text errorMessage) = plain_text errorMessage.
Proof.
  destruct (existsb (N.eqb 60) errorMessage) eqn:E.
  - destruct (plain_text_checked errorMessage E) as (H1 & H2 & H3).
    generalize dependent (plain_text errorMessage). intros t H1 H2 H3.
    unfold plain_text. destruct (existsb (N.eqb 60) t); [| reflexivity].
    unfold strip_tags, collapse_spaces.
    rewrite (strip_tag_free_same t H1).
    rewrite (collapse_single_spaced_same false t H2). exact H3.
  - unfold plain_text at 2. rewrite E. unfold plain_text. rewrite E.
    reflexivity.
Qed.

End LlmClientFacts.

(* ================================================================== *)
(** * Properties of the schema summary *)
(* ================================================================== *)

Module SummaryFacts.
Import Semantic SemanticMore Relationships Summary ChatSpec.

Section WithDetails.
Context {B : Builtins} {TD : TableDetails} {SD : SummaryDetails}.

Lemma table_in_schema_lines (table : TableMetadata)
    (tables : list TableMetadata) :
  In table tables ->
  In (generateTableSummary table)
     (schema_lines
        (List.map (fun schema => (schema, tables_of_schema schema tables))
           (first_seen (List.map schema_key tables)))).
Proof.
  intros Hin. unfold schema_lines. apply in_flat_map.
  exists (schema_key table, tables_of_schema (schema_key table) tables).
  split.
  - apply in_map_iff. exists (schema_key table). split; [reflexivity |].
    apply SemanticFacts.first_seen_In. apply in_map. exact Hin.
  - cbn [fst snd]. apply in_or_app. right. apply in_flat_map.
    exists table. split; [| left; reflexivity].
    unfold tables_of_schema. apply filter_In. split; [exact Hin |].
    apply JsStringFacts.str_eqb_refl.
Qed.

Lemma table_summary_lines (table : TableMetadata) :
  contains (generateTableSummary table)
    (lit "### Table: " ++ qualified_name table)
  /\ forall column,
       In column (columns table) ->
       contains (generateTableSummary table)
         (generateColumnDescription column).
Proof.
  unfold generateTableSummary. split.
  - apply ChatMore.join_contains.
    destruct (0 <? List.length (foreignKeys table))%nat;
      rewrite ?in_app_iff; simpl; tauto.
  - intros column Hin. apply ChatMore.join_contains.
    apply (in_map generateColumnDescription) in Hin.
    destruct (0 <? List.length (foreignKeys table))%nat;
      rewrite ?in_app_iff; tauto.
Qed.

(** X28: [generateSchemaSummary] never throws, and the summary leaves
    out no table: it holds the number of tables, and for every table of the
    metadata the text of [generateTableSummary], which holds the heading
    "### Table: <qualified name>" and the description of each column; it
    ends with the relationship summary. *)
Theorem schema_summary_lists_tables (metadata : DatabaseMetadata) :
  exists summary,
    generateSchemaSummary metadata = Returned summary
    /\ contains summary
         (lit "Total Tables: "
            ++ Number_toString (Z.of_nat (List.length (tables metadata))))
    /\ (forall table,
          In table (tables metadata) ->
          contains summary (generateTableSummary table)
          /\ contains summary (lit "### Table: " ++ qualified_name table)
          /\ forall column,
               In column (columns table) ->
               contains summary (generateColumnDescription column))
    /\ exists before,
         summary = before ++ generateRelationshipSummary (tables metadata).
Proof.
  unfold generateSchemaSummary, groupTablesBySchema.
  rewrite (SemanticFacts.group_tables_from (tables metadata) []).
  cbn [obind]. eexists. split; [reflexivity |].
  assert (Htable : forall table,
             In table (tables metadata) ->
             contains
               (join [10%N]
                  (([lit "# Database Schema Summary"; [];
                     lit "Database: " ++ database_name metadata;
                     lit "Total Tables: "
                       ++ Number_toString
                            (Z.of_nat (List.length (tables metadata)));
                     []]
                      ++ schema_lines
                           (List.map
                              (fun schema =>
                                 (schema,
                                  tables_of_schema schema (tables metadata)))
                              (first_seen
                                 (List.map schema_key (tables metadata)))))
                     ++ [lit "## Relationships"; [];
                         generateRelationshipSummary (tables metadata)]))
               (generateTableSummary table)).
  { intros table Hin. apply ChatMore.join_contains.
    apply in_or_app. left. apply in_or_app. right.
    apply table_in_schema_lines, Hin. }
  split; [| split].
  - apply ChatMore.join_contains. simpl. tauto.
  - intros table Hin. specialize (Htable table Hin).
    destruct (table_summary_lines table) as [Hh Hc].
    split; [exact Htable |]. split.
    + exact (ChatMore.contains_trans Htable Hh).
    + intros column Hcol.
      exact (ChatMore.contains_trans Htable (Hc column Hcol)).
  - generalize (generateRelationshipSummary (tables metadata)).
    generalize ([lit "# Database Schema Summary"; [];
                 lit "Database: " ++ database_name metadata;
                 lit "Total Tables: "
                   ++ Number_toString
                        (Z.of_nat (List.length (tables metadata)));
                 []]
                  ++ schema_lines
                       (List.map
                          (fun schema =>
                             (schema,
                              tables_of_schema schema (tables metadata)))
                          (first_seen
                             (List.map schema_key (tables metadata))))).
    intros lines last.
    assert (H : forall l : list str,
               exists before,
                 join [10%N] (l ++ [lit "## Relationships"; []; last])
                 = before ++ last).
    { induction l as [| p rest [before IH]].
      - eexists (lit "## Relationships" ++ [10%N] ++ [] ++ [10%N]).
        reflexivity.
      - change ((p :: rest) ++ [lit "## Relationships"; []; last])
          with (p :: (rest ++ [lit "## Relationships"; []; last])).
        destruct (rest ++ [lit "## Relationships"; []; last])
          as [| q more] eqn:E.
        + destruct rest; discriminate E.
        + change (join [10%N] (p :: q :: more))
            with (p ++ [10%N] ++ join [10%N] (q :: more)).
          rewrite IH. exists (p ++ [10%N] ++ before).
          rewrite <- !app_assoc. reflexivity. }
    apply H.
Qed.

Lemma relationship_lines_nil (tables : list TableMetadata) :
  relationship_lines tables = []
  <-> forall table, In table tables -> foreignKeys table = [].
Proof.
  unfold relationship_lines. induction tables as [| t rest IH]; simpl.
  - split; [intros _ table [] | reflexivity].
  - split.
    + intros H. apply app_eq_nil in H as [H1 H2].
      apply map_eq_nil in H1. intros table [<- | Hin]; [exact H1 |].
      apply IH; assumption.
    + intros H. rewrite (H t (or_introl eq_refl)). simpl.
      apply IH. intros table Hin. apply H. right; exact Hin.
Qed.

Lemma relationship_lines_arrow (tables : list TableMetadata) (line : str) :
  In line (relationship_lines tables) -> In 8594%N line.
Proof.
  unfold relationship_lines. intros H.
  apply in_flat_map in H as (table & _ & H).
  apply in_map_iff in H as (fk & <- & _).
  rewrite !in_app_iff. right. right. left. left. reflexivity.
Qed.

Lemma join_first (sep first : str) (rest : list str) (c : N) :
  In c first -> In c (join sep (first :: rest)).
Proof.
  intros H. destruct rest as [| q rest]; [exact H |].
  change (join sep (first :: q :: rest))
    with (first ++ sep ++ join sep (q :: rest)).
  apply in_or_app. left. exact H.
Qed.

(** X29: the relationship summary is the sentence "No foreign key
    relationships found." exactly when no table has a foreign key;
    otherwise it is the lines of the foreign keys, table after table, each
    with the arrow that the sentence does not have. *)
Theorem relationship_summary_sentinel (tables : list TableMetadata) :
  (generateRelationshipSummary tables
   = lit "No foreign key relationships found."
   <-> forall table, In table tables -> foreignKeys table = [])
  /\ ((exists table, In table tables /\ foreignKeys table <> []) ->
      generateRelationshipSummary tables
      = join [10%N] (relationship_lines tables)).
Proof.
  split.
  - rewrite <- relationship_lines_nil. unfold generateRelationshipSummary.
    destruct (relationship_lines tables) as [| line rest] eqn:E.
    + split; reflexivity.
    + split; [| discriminate]. intros H. exfalso.
      assert (Hin : In 8594%N (join [10%N] (line :: rest))).
      { apply join_first. apply (relationship_lines_arrow tables).
        rewrite E. left. reflexivity. }
      rewrite H in Hin. vm_compute in Hin. intuition discriminate.
  - intros (table & Hin & Hfk). unfold generateRelationshipSummary.
    destruct (relationship_lines tables) as [| line rest] eqn:E;
      [| reflexivity].
    destruct Hfk. apply (proj1 (relationship_lines_nil tables) E table Hin).
Qed.

End WithDetails.

End SummaryFacts.

(* ================================================================== *)
(** * The further theorems at work in the reference environment *)
(* ================================================================== *)

Module ExamplesMore.
Import Validator.

(** A DELETE and a SELECT, each on its own table: both tables are
    reported, in the order of the statements. *)
Lemma referenced_tables_accumulate_witness :
  astify (SqlParser := ReferenceMore.table_parser)
    (VStr (lit "DELETE FROM t; SELECT name FROM u"))
  = Returned (Multiple ReferenceMore.delete_then_select)
  /\ exists result,
       analyze (B := Reference.builtins) (P := ReferenceMore.table_parser)
         (VStr (lit "DELETE FROM t; SELECT name FROM u")) = Returned result
       /\ tables result = [lit "t"; lit "u"]
       /\ In (lit "u") (tables result).
Proof.
  split; [reflexivity |].
  destruct (@ValidatorMore.referenced_tables_accumulate
              Reference.builtins ReferenceMore.table_parser
              (VStr (lit "DELETE FROM t; SELECT name FROM u"))
              (Multiple ReferenceMore.delete_then_select) eq_refl)
    as (result & Ha & _ & _ & Ht & Hall).
  exists result. split; [exact Ha |]. split; [exact Ht |].
  apply (Hall (ReferenceMore.statement_on (lit "select") (lit "u"))).
  - right. left. reflexivity.
  - reflexivity.
  - left. reflexivity.
Defined.

(** A single SELECT is read-only. *)
Lemma isReadOnly_iff_no_write_witness :
  astify (SqlParser := Reference.parser) (VStr (lit "SELECT 1"))
  = Returned (Single (Some Reference.select_statement))
  /\ exists result,
       analyze (B := Reference.builtins) (P := Reference.parser)
         (VStr (lit "SELECT 1")) = Returned result
       /\ isReadOnly result = true.
Proof.
  split; [reflexivity |].
  destruct (@ValidatorMore.isReadOnly_iff_no_write
              Reference.builtins Reference.parser
              (VStr (lit "SELECT 1"))
              (Single (Some Reference.select_statement)) eq_refl)
    as (result & Ha & Hiff).
  exists result. split; [exact Ha |].
  apply Hiff. intros stmt [Hs | []] _. inversion Hs; subst stmt.
  vm_compute. intuition discriminate.
Defined.

(** A SELECT followed by a DROP is not safe in read-only mode; a SELECT
    alone is. *)
Lemma read_only_verdict_witness :
  (astify (SqlParser := Reference.parser) (VStr (lit "SELECT 1; DROP TABLE t"))
   = Returned (Multiple
                 [Some Reference.select_statement;
                  Reference.statement_of (lit "DROP TABLE t")])
   /\ astify (SqlParser := Reference.parser) (VStr (lit "SELECT 1"))
      = Returned (Single (Some Reference.select_statement)))
  /\ (exists verdict,
        validateSafe (B := Reference.builtins) (P := Reference.parser)
          (VStr (lit "SELECT 1; DROP TABLE t")) true = Returned verdict
        /\ safe verdict = false)
  /\ exists verdict,
       validateSafe (B := Reference.builtins) (P := Reference.parser)
         (VStr (lit "SELECT 1")) true = Returned verdict
       /\ safe verdict = true.
Proof.
  split; [split; reflexivity |]. split.
  - destruct (@ValidatorMore.read_only_verdict
                Reference.builtins Reference.parser
                (lit "SELECT 1; DROP TABLE t")
                (Multiple
                   [Some Reference.select_statement;
                    Reference.statement_of (lit "DROP TABLE t")]) eq_refl)
      as (verdict & Hv & Hiff).
    exists verdict. split; [exact Hv |].
    destruct (safe verdict); [| reflexivity].
    exfalso. destruct (proj1 Hiff eq_refl) as [Hw _].
    apply (Hw {| stmt_type := Some (lit "drop"); stmt_from := None;
                 stmt_into := None; stmt_table := None |}).
    + right. left. reflexivity.
    + reflexivity.
    + vm_compute. tauto.
  - destruct (@ValidatorMore.read_only_verdict
                Reference.builtins Reference.parser
                (lit "SELECT 1")
                (Single (Some Reference.select_statement)) eq_refl)
      as (verdict & Hv & Hiff).
    exists verdict. split; [exact Hv |].
    apply Hiff. split.
    + intros stmt [Hs | []] _. inversion Hs; subst stmt.
      vm_compute. intuition discriminate.
    + intros H.
      apply ValidatorFacts.dangerous_pattern_spec, RegexFacts.test_spec in H.
      vm_compute in H. discriminate H.
Defined.

(** A number instead of a text. *)
Lemma validateSafe_text_only_witness :
  (forall s, VNum 7 <> VStr s)
  /\ validateSafe (B := Reference.builtins) (P := Reference.parser)
       (VNum 7) true
     = Returned {| safe := false;
                   reason := Some (lit "Parse error: "
                                     ++ lit "sql is not a string") |}
  /\ safe {| safe := false;
             reason := Some (lit "Parse error: "
                               ++ lit "sql is not a string") |} = false.
Proof.
  assert (H : forall s, VNum 7 <> VStr s) by (intros s; discriminate).
  split; [exact H |]. split; [reflexivity |].
  apply (@ValidatorMore.validateSafe_text_only
           Reference.builtins Reference.parser (VNum 7) true _ H).
  reflexivity.
Defined.

(** A limit of 20, then another of 5. *)
Lemma addLimit_idempotent_witness :
  ValidatorSpec.plain_limit (VNum 20)
  /\ exists text,
       addLimit (B := Reference.builtins) (VStr (lit "select name from t"))
         (VNum 20) = Returned (VStr text)
       /\ addLimit (B := Reference.builtins) (VStr text) (VNum 5)
          = Returned (VStr text).
Proof.
  assert (H : ValidatorSpec.plain_limit (VNum 20)).
  { right. exists 20%Z. split; [lia | reflexivity]. }
  split; [exact H |].
  destruct (@ValidatorMore.addLimit_idempotent Reference.builtins
              (lit "select name from t") (VNum 20) H) as (text & H1 & H2).
  exists text. split; [exact H1 | apply H2].
Defined.

(** A SELECT without a limit goes to the provider with LIMIT 1000. *)
Lemma run_sql_limits_select_witness :
  (lookup (lit "sql") [(lit "sql", VStr (lit "select name from t"))]
   = VStr (lit "select name from t")
   /\ validateSafe (B := Reference.builtins) (P := Reference.parser)
        (VStr (lit "select name from t"))
        (Registry.readOnlyMode Reference.registry)
      = Returned {| safe := true; reason := None |}
   /\ analyze (B := Reference.builtins) (P := Reference.parser)
        (VStr (lit "select name from t"))
      = Returned {| isValid := true; isReadOnly := true;
                    type := lit "select"; tables := []; errors := [];
                    warnings := [] |})
  /\ Registry.handler
       (Registry.run_sql (B := Reference.builtins) (P := Reference.parser)
          (DB := Reference.empty_provider))
       (VObj [(lit "sql", VStr (lit "select name from t"))])
       Reference.registry
     = (Returned
          (RegistrySpec.query_result
             {| Registry.rows := VArr []; Registry.rowCount := VNum 0;
                Registry.fields := VArr [] |} true),
        RegistrySpec.after_call
          (Registry.CallRunQuery (VStr (lit "select name from t LIMIT 1000")))
          tt Reference.registry).
Proof.
  split; [repeat split |].
  apply (proj2 (proj2 (proj2
           (@RegistryMore.run_sql_limits_select
              Reference.builtins Reference.parser unit Reference.empty_provider
              [(lit "sql", VStr (lit "select name from t"))]
              (lit "select name from t") Reference.registry
              {| safe := true; reason := None |}
              {| isValid := true; isReadOnly := true;
                 type := lit "select"; tables := []; errors := [];
                 warnings := [] |}
              eq_refl eq_refl eq_refl eq_refl eq_refl)))).
Defined.

(** DROP TABLE in a new registry. *)
Lemma read_only_gate_witness :
  (lookup (lit "sql") [(lit "sql", VStr (lit "DROP TABLE customers"))]
   = VStr (lit "DROP TABLE customers")
   /\ analyze (B := Reference.builtins) (P := Reference.parser)
        (VStr (lit "DROP TABLE customers"))
      = Returned {| isValid := true; isReadOnly := false;
                    type := lit "drop"; tables := []; errors := [];
                    warnings := [] |})
  /\ Registry.handler
       (Registry.run_sql (B := Reference.builtins) (P := Reference.parser)
          (DB := Reference.empty_provider))
       Reference.drop_params (Registry.new_registry tt None)
     = (Thrown (lit "SQL validation failed: "
                  ++ lit "Write operations not allowed in read-only mode"),
        Registry.new_registry tt None).
Proof.
  split; [repeat split |].
  apply (proj1
           (@RegistryMore.read_only_gate
              Reference.builtins Reference.parser unit Reference.empty_provider
              [(lit "sql", VStr (lit "DROP TABLE customers"))]
              (lit "DROP TABLE customers") tt None
              {| isValid := true; isReadOnly := false;
                 type := lit "drop"; tables := []; errors := [];
                 warnings := [] |}
              eq_refl eq_refl eq_refl eq_refl)).
Defined.

(** The direct client answers the first question. *)
Lemma chat_answers_at_once_witness :
  (Chat.llm_chat (LLMClient := Reference.direct_client)
     (Chat.messages Reference.orchestrator
        ++ [ChatSpec.user_message (lit "How many customers are there?")])
     (Registry.getTools Reference.tools)
     (Chat.llmClient Reference.orchestrator)
   = (Returned
        (Reference.assistant_message (lit "There are 3 customers.") None), tt)
   /\ ChatSpec.is_final
        (Reference.assistant_message (lit "There are 3 customers.") None))
  /\ fst (Chat.chat (B := Reference.builtins) (LLM := Reference.direct_client)
            Reference.tools (lit "How many customers are there?")
            Reference.orchestrator)
     = Returned
         (Chat.parseResponse (B := Reference.builtins)
            (lit "There are 3 customers.")).
Proof.
  assert (Hf : ChatSpec.is_final
                 (Reference.assistant_message (lit "There are 3 customers.")
                    None)) by (left; reflexivity).
  split; [split; [reflexivity | exact Hf] |].
  rewrite (@ChatMore.chat_answers_at_once
             Reference.builtins unit unit Reference.direct_client
             Reference.tools (lit "How many customers are there?")
             Reference.orchestrator
             (Reference.assistant_message (lit "There are 3 customers.") None)
             tt eq_refl Hf).
  reflexivity.
Defined.

(** The client is out of service; the question stays in the history. *)
Lemma chat_failure_keeps_user_message_witness :
  Chat.llm_chat (LLMClient := ReferenceMore.failing_client)
    (Chat.messages Reference.orchestrator
       ++ [ChatSpec.user_message (lit "How many customers are there?")])
    (Registry.getTools Reference.tools)
    (Chat.llmClient Reference.orchestrator)
  = (Thrown (lit "rate limited"), tt)
  /\ exists o',
       Chat.chat (B := Reference.builtins)
         (LLM := ReferenceMore.failing_client)
         Reference.tools (lit "How many customers are there?")
         Reference.orchestrator
       = (Thrown (lit "rate limited"), o')
       /\ Chat.messages o'
          = Chat.messages Reference.orchestrator
              ++ [ChatSpec.user_message (lit "How many customers are there?")].
Proof.
  split; [reflexivity |].
  destruct (@ChatMore.chat_failure_keeps_user_message
              Reference.builtins unit unit ReferenceMore.failing_client
              Reference.tools (lit "How many customers are there?")
              Reference.orchestrator (lit "rate limited") tt eq_refl)
    as (H1 & H2 & _).
  eexists. split; [exact H1 | exact H2].
Defined.


(** A reply that is not JSON is wrapped as a text response. *)
Lemma parseResponse_cases_witness :
  JSON_parse (Builtins := Reference.builtins) (lit "There are 3 customers.")
  = Thrown (lit "Unexpected token in JSON")
  /\ Chat.parseResponse (B := Reference.builtins)
       (lit "There are 3 customers.")
     = VObj [(lit "response_type", VStr (lit "text"));
             (lit "description", VStr (lit "There are 3 customers."));
             (lit "raw_response", VStr (lit "There are 3 customers."))].
Proof.
  split; [reflexivity |].
  apply (proj1 (@ChatMore.parseResponse_cases Reference.builtins
                  (lit "There are 3 customers."))
           (lit "Unexpected token in JSON")).
  reflexivity.
Defined.

(** Five rounds with the insistent client: each reply is followed by
    the answers to its two tool calls. *)
Lemma chat_appends_rounds_witness :
  exists appended,
    Chat.messages
      (snd (Chat.chat (B := Reference.builtins)
              (LLM := Reference.insistent_client)
              Reference.tools (lit "How many customers are there?")
              Reference.orchestrator))
    = Chat.messages Reference.orchestrator
        ++ ChatSpec.user_message (lit "How many customers are there?")
             :: appended
    /\ ChatSpec.rounds 5 appended
    /\ List.length appended = 15
    /\ exists reply,
         nth_error appended 1 = Some reply
         /\ Chat.role reply = Chat.tool
         /\ Chat.tool_call_id reply = Some (lit "call_1")
         /\ Chat.name reply = Some (lit "run_sql").
Proof.
  destruct (@ChatMore.chat_appends_rounds
              Reference.builtins unit unit Reference.insistent_client
              Reference.tools (lit "How many customers are there?")
              Reference.orchestrator)
    as (appended & Hm & Hr).
  exists appended. split; [exact Hm |]. split; [exact Hr |].
  vm_compute in Hm. inversion Hm; subst appended.
  split; [reflexivity |]. eexists. repeat split.
Defined.

(** The compact schema of the shop. *)
Lemma compact_schema_lines_witness :
  (Semantic.tables ReferenceMore.shop <> []
   /\ forall t, In t (Semantic.tables ReferenceMore.shop) ->
                SemanticMore.table_on_one_line t)
  /\ SemanticMore.split_lines (Semantic.generateCompactSchema ReferenceMore.shop)
     = [lit "customers (id INTEGER PK NOT NULL, email TEXT NOT NULL)";
        lit "sales.orders (id INTEGER PK NOT NULL, customer_id INTEGER FK)"].
Proof.
  assert (H1 : Semantic.tables ReferenceMore.shop <> []) by discriminate.
  assert (H2 : forall t, In t (Semantic.tables ReferenceMore.shop) ->
                         SemanticMore.table_on_one_line t).
  { assert (Hs : forall s : str,
               forallb (fun c => negb (N.eqb c 10)) s = true ->
               SemanticMore.single_line s).
    { intros s H Hin. rewrite forallb_forall in H. apply H in Hin.
      discriminate Hin. }
    intros t [<- | [<- | []]]; (split; [| split]);
      try (apply Hs; reflexivity);
      intros c [<- | [<- | []]]; split; apply Hs; reflexivity. }
  split; [split; assumption |].
  apply (proj1 (SemanticFacts.compact_schema_lines ReferenceMore.shop H1 H2)).
Defined.

(** A scan with a table that cannot be described. *)
Lemma scan_survives_describe_failures_witness :
  (Scanner.callback_returns ReferenceMore.listener
   /\ Scanner.never_fails
        (Scanner.listSchemas (SchemaProvider := ReferenceMore.sample_schemas))
   /\ forall schema,
        Scanner.never_fails
          (Registry.listTables
             (IDatabaseProvider := ReferenceMore.sample_provider) schema))
  /\ exists r s',
       Scanner.scanDatabase (P := ReferenceMore.sample_provider)
         (PS := ReferenceMore.sample_schemas)
         VUndefined VUndefined ReferenceMore.listener ReferenceMore.scanner
       = (Returned r, s').
Proof.
  assert (H1 : Scanner.callback_returns ReferenceMore.listener).
  { intros callback progress H. inversion H. reflexivity. }
  assert (H2 : Scanner.never_fails
                 (Scanner.listSchemas
                    (SchemaProvider := ReferenceMore.sample_schemas))).
  { intros d. do 2 eexists. reflexivity. }
  assert (H3 : forall schema,
             Scanner.never_fails
               (Registry.listTables
                  (IDatabaseProvider := ReferenceMore.sample_provider) schema)).
  { intros schema d. do 2 eexists. reflexivity. }
  split; [repeat split; assumption |].
  apply (@ScannerFacts.scan_survives_describe_failures
           unit ReferenceMore.sample_provider ReferenceMore.sample_schemas
           VUndefined VUndefined ReferenceMore.listener ReferenceMore.scanner
           H1 H2 H3).
Defined.

(** A scan of the schema "sales". *)
Lemma scan_of_given_schema_witness :
  truthy (VStr (lit "sales")) = true
  /\ exists new,
       Scanner.added ReferenceMore.scanner
         (snd (Scanner.scanDatabase (P := ReferenceMore.sample_provider)
                 (PS := ReferenceMore.sample_schemas)
                 VUndefined (VStr (lit "sales")) None ReferenceMore.scanner))
         new
       /\ ~ In Scanner.ProviderListSchemas new.
Proof.
  split; [reflexivity |].
  destruct (@ScannerFacts.scan_of_given_schema
              unit ReferenceMore.sample_provider ReferenceMore.sample_schemas
              VUndefined (VStr (lit "sales")) None ReferenceMore.scanner
              eq_refl)
    as (new & H1 & H2 & _).
  exists new. split; assumption.
Defined.

(** Two tables listed, one described, one reported as failed. *)
Lemma scan_accounts_for_tables_witness :
  exists r s',
    Scanner.scanDatabase (P := ReferenceMore.sample_provider)
      (PS := ReferenceMore.sample_schemas)
      VUndefined VUndefined ReferenceMore.listener ReferenceMore.scanner
    = (Returned r, s')
    /\ Scanner.scanned_tables r = [ReferenceMore.customers]
    /\ Scanner.scanned_name r = VStr (lit "current")
    /\ exists new,
         Scanner.added ReferenceMore.scanner s' new
         /\ Scanner.count Scanner.is_describe new
            = 1 + Scanner.count Scanner.is_console_error new.
Proof.
  do 2 eexists. split; [reflexivity |]. split; [reflexivity |].
  destruct (@ScannerFacts.scan_accounts_for_tables
              unit ReferenceMore.sample_provider ReferenceMore.sample_schemas
              VUndefined VUndefined ReferenceMore.listener
              ReferenceMore.scanner _ _ eq_refl)
    as (new & H1 & H2 & _ & H4).
  split; [exact H4 |]. exists new. split; [exact H1 | exact H2].
Defined.

(** An error page of a gateway. *)
Lemma plain_text_has_no_markup_witness :
  In 60%N ReferenceMore.bad_gateway
  /\ LlmClient.plain_text ReferenceMore.bad_gateway = lit "502 Bad Gateway"
  /\ LlmClient.no_markup (lit "502 Bad Gateway")
  /\ LlmClient.tidy (lit "502 Bad Gateway").
Proof.
  assert (H : In 60%N ReferenceMore.bad_gateway) by (left; reflexivity).
  split; [exact H |]. split; [reflexivity |].
  exact (LlmClientFacts.plain_text_has_no_markup ReferenceMore.bad_gateway H).
Defined.

(** The table "orders" of the shop, asked for by its bare name. *)
Lemma findTable_first_match_witness :
  (Semantic.tables ReferenceMore.shop
   = [ReferenceMore.customers] ++ ReferenceMore.orders :: []
   /\ RegistrySpec.name_matches ReferenceMore.orders (lit "orders")
   /\ forall t', In t' [ReferenceMore.customers] ->
                 ~ RegistrySpec.name_matches t' (lit "orders"))
  /\ Semantic.findTable (B := Reference.builtins) ReferenceMore.shop
       (VStr (lit "orders"))
     = Returned (Some ReferenceMore.orders).
Proof.
  assert (H1 : RegistrySpec.name_matches ReferenceMore.orders (lit "orders"))
    by (left; reflexivity).
  assert (H2 : forall t', In t' [ReferenceMore.customers] ->
                          ~ RegistrySpec.name_matches t' (lit "orders")).
  { intros t' [<- | []] [H | [[H _] | [before H]]]; try discriminate H.
    apply (f_equal (@List.length N)) in H. rewrite length_app in H.
    simpl in H. lia. }
  split; [split; [reflexivity | split; assumption] |].
  apply (proj1 (proj2 (@RegistryMore.findTable_first_match
                         Reference.builtins ReferenceMore.shop (lit "orders")))
           ReferenceMore.orders).
  exists [ReferenceMore.customers], []. split; [reflexivity |].
  split; assumption.
Defined.

(** A name under which no tool is filed. *)
Lemma executeTool_outcomes_witness :
  (forall k t, In (k, t) Reference.tools -> k <> lit "no_such_tool")
  /\ Registry.executeTool Reference.tools (lit "no_such_tool") (VObj [])
       Reference.registry
     = (Thrown (lit "Tool not found: " ++ lit "no_such_tool"),
        Reference.registry).
Proof.
  assert (H : forall k t, In (k, t) Reference.tools ->
                          k <> lit "no_such_tool").
  { apply RegistryMore.map_get_none. reflexivity. }
  split; [exact H |].
  apply (proj1 (@RegistryMore.executeTool_outcomes
                  unit Reference.tools (lit "no_such_tool") (VObj [])
                  Reference.registry) H).
Defined.

(** The tool filed under "run_sql". *)
Lemma registered_names_witness :
  Registry.getTool Reference.tools (lit "run_sql")
  = Some (Registry.run_sql (B := Reference.builtins) (P := Reference.parser)
            (DB := Reference.empty_provider))
  /\ Registry.name
       (Registry.run_sql (B := Reference.builtins) (P := Reference.parser)
          (DB := Reference.empty_provider))
     = lit "run_sql".
Proof.
  split; [reflexivity |].
  apply (proj2 (proj2 (proj2
           (@RegistryMore.registered_names
              Reference.builtins Reference.parser unit
              Reference.empty_provider)))
           (lit "run_sql")).
  reflexivity.
Defined.

(** The tables of the shop, listed from the metadata. *)
Lemma list_tables_cached_or_asked_witness :
  Registry.metadata (Registry.new_registry tt (Some ReferenceMore.shop))
  = Some ReferenceMore.shop
  /\ Registry.handler
       (Registry.list_tables (B := Reference.builtins)
          (DB := Reference.empty_provider))
       VNull (Registry.new_registry tt (Some ReferenceMore.shop))
     = (Returned
          (VObj [(lit "tables",
                  VArr [VStr (lit "customers"); VStr (lit "sales.orders")]);
                 (lit "count", VNum 2)]),
        Registry.new_registry tt (Some ReferenceMore.shop)).
Proof.
  split; [reflexivity |].
  apply (proj1 (@RegistryMore.list_tables_cached_or_asked
                  Reference.builtins unit Reference.empty_provider)
           VNull (Registry.new_registry tt (Some ReferenceMore.shop))
           ReferenceMore.shop eq_refl).
Defined.

(** The table "orders", described from the metadata. *)
Lemma describe_table_cached_or_asked_witness :
  (Registry.metadata (Registry.new_registry tt (Some ReferenceMore.shop))
   = Some ReferenceMore.shop
   /\ lookup (lit "table_name") [(lit "table_name", VStr (lit "orders"))]
      = VStr (lit "orders")
   /\ Semantic.findTable (B := Reference.builtins) ReferenceMore.shop
        (VStr (lit "orders"))
      = Returned (Some ReferenceMore.orders))
  /\ Registry.handler
       (Registry.describe_table (B := Reference.builtins)
          (DB := Reference.empty_provider))
       (VObj [(lit "table_name", VStr (lit "orders"))])
       (Registry.new_registry tt (Some ReferenceMore.shop))
     = (Returned (Semantic.table_value ReferenceMore.orders),
        Registry.new_registry tt (Some ReferenceMore.shop)).
Proof.
  split; [repeat split |].
  apply (proj1 (@RegistryMore.describe_table_cached_or_asked
                  Reference.builtins unit Reference.empty_provider)
           [(lit "table_name", VStr (lit "orders"))]
           (Registry.new_registry tt (Some ReferenceMore.shop))
           ReferenceMore.shop (lit "orders") ReferenceMore.orders
           eq_refl eq_refl eq_refl).
Defined.

(** A text that the reference parser rejects, explained. *)
Lemma explain_sql_reports_witness :
  astify (SqlParser := Reference.parser)
    (lookup (lit "sql") [(lit "sql", VStr (lit "SELEKT 1"))])
  = Thrown (lit "syntax error")
  /\ exists analysis,
       Registry.handler
         (Registry.explain_sql (B := Reference.builtins)
            (P := Reference.parser) (D := unit))
         (VObj [(lit "sql", VStr (lit "SELEKT 1"))]) Reference.registry
       = (Returned
            (RegistrySpec.explanation (VStr (lit "SELEKT 1")) analysis),
          Reference.registry)
       /\ isValid analysis = false
       /\ errors analysis = [lit "Parse error: " ++ lit "syntax error"].
Proof.
  split; [reflexivity |].
  destruct (@RegistryMore.explain_sql_reports
              Reference.builtins Reference.parser unit
              [(lit "sql", VStr (lit "SELEKT 1"))] Reference.registry)
    as (analysis & _ & Hh & He).
  exists analysis. split; [exact Hh |].
  apply (He (lit "syntax error")). reflexivity.
Defined.

(** The system prompt of the reference registry names [run_sql]. *)
Lemma system_prompt_lists_tools_witness :
  In (Registry.run_sql (B := Reference.builtins) (P := Reference.parser)
        (DB := Reference.empty_provider))
     (Registry.getTools Reference.tools)
  /\ ChatSpec.contains
       (Chat.system_prompt_text Reference.tools (lit "No schema loaded yet."))
       (lit "- run_sql: Execute a SQL query and return results").
Proof.
  assert (Hin : In (Registry.run_sql (B := Reference.builtins)
                      (P := Reference.parser) (DB := Reference.empty_provider))
                  (Registry.getTools Reference.tools))
    by (simpl; tauto).
  split; [exact Hin |].
  apply (proj1 (@ChatMore.system_prompt_lists_tools unit unit Reference.tools)
           (lit "No schema loaded yet.")
           (Registry.run_sql (B := Reference.builtins) (P := Reference.parser)
              (DB := Reference.empty_provider))
           Hin).
Defined.

(** The graph of the shop: the foreign key of sales.orders points into
    the schema of the referring table. *)
Lemma relationship_graph_witness :
  exists graph,
    Relationships.buildRelationshipGraph (B := Reference.builtins)
      (TD := ReferenceMore.details) ReferenceMore.shop
    = Returned graph
    /\ Registry.map_get (lit "sales.orders") graph
       = Some [lit "sales.customers"]
    /\ Registry.map_get (lit "sales.customers") graph <> None.
Proof.
  destruct (@RelationshipFacts.relationship_graph
              Reference.builtins ReferenceMore.details ReferenceMore.shop)
    as (graph & Hrun & _ & Hclosed).
  exists graph. split; [exact Hrun |].
  assert (Hget : Registry.map_get (lit "sales.orders") graph
                 = Some [lit "sales.customers"]).
  { vm_compute in Hrun. inversion Hrun. reflexivity. }
  split; [exact Hget |].
  apply (Hclosed (lit "sales.orders") [lit "sales.customers"]
           (lit "sales.customers") Hget).
  left. reflexivity.
Defined.

(** The summary of the shop names the table sales.orders. *)
Lemma schema_summary_lists_tables_witness :
  In ReferenceMore.orders (Semantic.tables ReferenceMore.shop)
  /\ exists summary,
       Summary.generateSchemaSummary (B := Reference.builtins)
         (TD := ReferenceMore.details) (SD := ReferenceMore.no_details)
         ReferenceMore.shop
       = Returned summary
       /\ ChatSpec.contains summary (lit "Total Tables: 2")
       /\ ChatSpec.contains summary (lit "### Table: sales.orders").
Proof.
  assert (Hin : In ReferenceMore.orders (Semantic.tables ReferenceMore.shop))
    by (right; left; reflexivity).
  split; [exact Hin |].
  destruct (@SummaryFacts.schema_summary_lists_tables
              Reference.builtins ReferenceMore.details ReferenceMore.no_details
              ReferenceMore.shop)
    as (summary & Hrun & Htotal & Htables & _).
  exists summary. split; [exact Hrun |]. split; [exact Htotal |].
  exact (proj1 (proj2 (Htables ReferenceMore.orders Hin))).
Defined.

(** The shop has one foreign key. *)
Lemma relationship_summary_sentinel_witness :
  (exists table,
     In table (Semantic.tables ReferenceMore.shop)
     /\ Relationships.foreignKeys (TableDetails := ReferenceMore.details)
          table <> [])
  /\ Summary.generateRelationshipSummary (TD := ReferenceMore.details)
       (Semantic.tables ReferenceMore.shop)
     = lit "sales.orders " ++ Summary.arrow
         ++ lit " customers (via customer_id)".
Proof.
  assert (H : exists table,
             In table (Semantic.tables ReferenceMore.shop)
             /\ Relationships.foreignKeys (TableDetails := ReferenceMore.details)
                  table <> []).
  { exists ReferenceMore.orders. split; [right; left; reflexivity |].
    discriminate. }
  split; [exact H |].
  rewrite (proj2 (@SummaryFacts.relationship_summary_sentinel
                    ReferenceMore.details
                    (Semantic.tables ReferenceMore.shop)) H).
  reflexivity.
Defined.

End ExamplesMore.
